(** * FMN scraper: a shallow embedding of [src/ingestion/fmn_scraper.py]

    The development follows the Python module top-down:

    - [Text]: the string primitives the scraper relies on (character
      classes of [re], [str.lower], [str.strip], [str.zfill], [int],
      leftmost regular-expression search);
    - [Parsing]: [_extract_year_from_text], [_sanitize_filename],
      [_extract_date_from_page] and the competition-link pattern;
    - [Registry]: [_load_registry] over the values [json.load] produces;
    - [Crawler]: the scraper object as an explicit state, the remote site
      and the disk as oracles, and [_get_competitions_from_page],
      [_find_res_zip_link], [_download_file], [_process_competition] and
      the page loop of [run];
    - [ParsingSpec], [CrawlerSpec], [Scenario]: the vocabulary of the
      statements and the concrete sites of the worked examples;
    - [TextFacts], [ParsingFacts], [RegistryFacts], [CrawlerFacts]: the
      properties, numbered C1 to C10 where they settle a statement of the
      specification;
    - [Driver]: [_detect_total_pages], the start of [run], the document
      [_save_registry] writes and [main]; [Unicode]:
      [_extract_date_from_page] on texts of any code points, the
      character classes of the Unicode database being taken as given;
      [Capitals] and [SanitizeSpec] to [ResumeSpec]: further sites and
      the vocabulary of the further properties;
    - [SanitizeFacts], [ParsingMore], [LedgerFacts], [ScanFacts],
      [DriverFacts], [ResumeFacts], [UnicodeFacts]: the further
      properties, numbered X1 onwards, and C9 and C10.

    Python [str] values are modelled as [string]; one [ascii] stands for
    one code point in the range 0..255 (Latin-1), so that the title prefix
    NATACION-with-acute-O is eight characters long, as it is in Python.
    The character classes below are Python's Unicode classes restricted to
    that range.  The date of the detail page, whose form depends on the
    decimal digits outside that range, is modelled a second time in
    [Unicode] over lists of code points; the two models agree below 256
    ([UnicodeFacts.extract_date_latin1]). *)

From Stdlib Require Import ZArith List String Ascii Lia Bool.
From stdpp Require Import gmap strings pretty.
Import ListNotations.

Open Scope string_scope.
Set Warnings "-register-all".

(* ===================================================================== *)
(** ** String primitives *)
(* ===================================================================== *)

Module Text.

Definition code (c : ascii) : N := N_of_ascii c.

Definition in_range (lo hi : N) (c : ascii) : bool :=
  ((lo <=? code c) && (code c <=? hi))%N.

(** [\d]: the decimal digits (category Nd); below 256 these are 0-9. *)
Definition is_digit (c : ascii) : bool := in_range 48 57 c.

(** [\s] and [str.isspace]: TAB..CR, FS..US, SPACE, NEL and NBSP. *)
Definition is_space (c : ascii) : bool :=
  in_range 9 13 c || in_range 28 32 c
  || (code c =? 133)%N || (code c =? 160)%N.

(** [\w]: alphanumeric (alphabetic, decimal, digit or numeric) or [_]. *)
Definition is_word (c : ascii) : bool :=
  is_digit c || in_range 65 90 c || in_range 97 122 c || (code c =? 95)%N
  || existsb (N.eqb (code c)) [170; 178; 179; 181; 185; 186; 188; 189; 190]%N
  || in_range 192 214 c || in_range 216 246 c || in_range 248 255 c.

(** [str.lower] on one character: A-Z and the Latin-1 capitals. *)
Definition lower_char (c : ascii) : ascii :=
  if in_range 65 90 c || (in_range 192 222 c && negb (code c =? 215)%N)
  then ascii_of_N (code c + 32) else c.

Definition lower (l : list ascii) : list ascii := map lower_char l.

Definition chars (s : string) : list ascii := list_ascii_of_string s.
Definition str (l : list ascii) : string := string_of_list_ascii l.

(** [re.sub(p+, '_', s)] for a character class [p]: every maximal run of
    characters of the class becomes one underscore.  [in_run] records
    that the previous character belonged to the run being replaced. *)
Fixpoint squeeze_aux (p : ascii -> bool) (in_run : bool) (l : list ascii)
  : list ascii :=
  match l with
  | [] => []
  | c :: r =>
      if p c then
        if in_run then squeeze_aux p true r
        else "_"%char :: squeeze_aux p true r
      else c :: squeeze_aux p false r
  end.

Definition squeeze (p : ascii -> bool) (l : list ascii) : list ascii :=
  squeeze_aux p false l.

(** [str.lstrip], [str.rstrip] and [str.strip] for a set of characters. *)
Fixpoint lstrip (p : ascii -> bool) (l : list ascii) : list ascii :=
  match l with
  | [] => []
  | c :: r => if p c then lstrip p r else l
  end.

Definition rstrip (p : ascii -> bool) (l : list ascii) : list ascii :=
  rev (lstrip p (rev l)).

Definition strip (p : ascii -> bool) (l : list ascii) : list ascii :=
  rstrip p (lstrip p l).

(** [needle in haystack] *)
Fixpoint starts_with (pre l : list ascii) : bool :=
  match pre, l with
  | [], _ => true
  | _ :: _, [] => false
  | a :: pre', b :: l' => Ascii.eqb a b && starts_with pre' l'
  end.

Fixpoint contains (needle l : list ascii) : bool :=
  starts_with needle l ||
  match l with
  | [] => false
  | _ :: r => contains needle r
  end.

(** [re.search]: the match at the leftmost position where the anchored
    matcher [m] succeeds.  The end of the string is a position too. *)
Fixpoint search {G : Type} (m : list ascii -> option G) (l : list ascii)
  : option G :=
  match m l with
  | Some g => Some g
  | None =>
      match l with
      | [] => None
      | _ :: r => search m r
      end
  end.

(** [int(s)] on the strings the scraper hands to it, which hold no
    sign, blank or underscore: the decimal value of a non-empty string of
    the digits 0-9 of at most [int_max_str_digits] characters, and
    [None], the [ValueError] of [int], for the others: the empty string,
    a string with another character (a superscript digit passes
    [str.isdigit] and is refused by [int]), and a string of more than
    [int_max_str_digits] digits, leading zeros included.  The digit
    strings cut out by the [\d] groups are short, and there [int] is
    [decimal]: [ParsingFacts.match_season_digits], [match_year20_digits]
    and [date_year_digits]. *)
Definition digit_value (c : ascii) : Z := Z.of_N (code c) - 48.

Definition decimal (l : list ascii) : Z :=
  fold_left (fun acc c => 10 * acc + digit_value c)%Z l 0%Z.

(** [sys.get_int_max_str_digits()], at its default. *)
Definition int_max_str_digits : nat := 4300.

Definition py_int (l : list ascii) : option Z :=
  match l with
  | [] => None
  | _ =>
      if forallb is_digit l && (length l <=? int_max_str_digits)%nat
      then Some (decimal l) else None
  end.

(** [s.zfill(2)] for a string of digits. *)
Definition zfill2 (l : list ascii) : list ascii :=
  match l with
  | [] => ["0"; "0"]%char
  | [c] => ["0"%char; c]
  | _ => l
  end.

(** [s.split(sep)[0]]: the part before the first separator. *)
Fixpoint before (sep : ascii) (l : list ascii) : list ascii :=
  match l with
  | [] => []
  | c :: r => if Ascii.eqb c sep then [] else c :: before sep r
  end.

End Text.

(* ===================================================================== *)
(** ** Title, file-name and date parsing *)
(* ===================================================================== *)

Module Parsing.
Import Text.

(** *** [_sanitize_filename] *)

(** The class of the first [re.sub]: less-than, greater-than, colon,
    double quote, slash, backslash, bar, question mark and star. *)
Definition is_forbidden (c : ascii) : bool :=
  existsb (N.eqb (code c)) [60; 62; 58; 34; 47; 92; 124; 63; 42]%N.

Definition is_underscore (c : ascii) : bool := Ascii.eqb c "_".

(** The argument of [strip('._-')]. *)
Definition is_trim (c : ascii) : bool :=
  Ascii.eqb c "." || Ascii.eqb c "_" || Ascii.eqb c "-".

Definition sanitize_chars (name : list ascii) : list ascii :=
  let name := map (fun c => if is_forbidden c then "_"%char else c) name in
  let name := squeeze is_space name in
  let name := squeeze is_underscore name in
  let name := strip is_trim name in
  if (100 <? length name)%nat then firstn 100 name else name.

Definition _sanitize_filename (name : string) : string :=
  str (sanitize_chars (chars name)).

(** *** [_extract_year_from_text] *)

(** [(\d{2})-(\d{2})] anchored at the head of [l]; the result is group 1. *)
Definition match_season (l : list ascii) : option (list ascii) :=
  match l with
  | a :: b :: m :: c :: d :: _ =>
      if is_digit a && is_digit b && Ascii.eqb m "-"
         && is_digit c && is_digit d
      then Some [a; b] else None
  | _ => None
  end.

(** [(20\d{2})] anchored at the head of [l]. *)
Definition match_year20 (l : list ascii) : option (list ascii) :=
  match l with
  | a :: b :: c :: d :: _ =>
      if Ascii.eqb a "2" && Ascii.eqb b "0" && is_digit c && is_digit d
      then Some [a; b; c; d] else None
  | _ => None
  end.

Section Year.
(** [self.start_year], [self.end_year] and [datetime.now().year]. *)
Variables (start_year end_year now_year : Z).

(** [int] is applied to the digits of a [\d] group:
    [ParsingFacts.match_season_digits], [match_year20_digits]. *)
Definition extract_year_chars (text : list ascii) : Z :=
  let fallback :=
    match search match_year20 text with
    | Some g => decimal g
    | None => now_year
    end in
  match search match_season text with
  | Some g1 =>
      let year := decimal (["2"; "0"]%char ++ g1) in
      if (start_year <=? year)%Z && (year <=? end_year)%Z
      then year else fallback
  | None => fallback
  end.

Definition _extract_year_from_text (text : string) : Z :=
  extract_year_chars (chars text).
End Year.

(** *** [_extract_date_from_page] *)

(** [months_es] *)
Definition months_es : list (string * string) :=
  [ ("enero", "01"); ("febrero", "02"); ("marzo", "03"); ("abril", "04");
    ("mayo", "05"); ("junio", "06"); ("julio", "07"); ("agosto", "08");
    ("septiembre", "09"); ("octubre", "10"); ("noviembre", "11");
    ("diciembre", "12") ].

Fixpoint dict_get (d : list (string * string)) (k : string) : option string :=
  match d with
  | [] => None
  | (k', v) :: r => if String.eqb k' k then Some v else dict_get r k
  end.

(** The longest prefix of characters of a class, and what follows it. *)
Fixpoint span (p : ascii -> bool) (l : list ascii)
  : list ascii * list ascii :=
  match l with
  | [] => ([], [])
  | c :: r =>
      if p c then let '(a, b) := span p r in (c :: a, b) else ([], l)
  end.

(** [\s+], [\w+]: a non-empty run.  The class that follows each run in
    the pattern is disjoint from the run's class, so the only split the
    backtracking matcher can accept is the longest run. *)
Definition run1 (p : ascii -> bool) (l : list ascii)
  : option (list ascii * list ascii) :=
  match span p l with
  | ([], _) => None
  | (a, b) => Some (a, b)
  end.

(** [de] under [re.IGNORECASE]. *)
Definition lit_de (l : list ascii) : option (list ascii) :=
  match l with
  | d :: e :: r =>
      if Ascii.eqb (lower_char d) "d" && Ascii.eqb (lower_char e) "e"
      then Some r else None
  | _ => None
  end.

(** [\d{1,2}] followed by [\s+]: one or two digits, two when there are
    two (with one of two taken the next character is a digit, which
    [\s+] refuses). *)
Definition digits12 (l : list ascii) : option (list ascii * list ascii) :=
  match l with
  | a :: r =>
      if is_digit a then
        match r with
        | b :: r' => if is_digit b then Some ([a; b], r') else Some ([a], r)
        | [] => Some ([a], r)
        end
      else None
  | [] => None
  end.

(** [\d{4}] *)
Definition digits4 (l : list ascii) : option (list ascii) :=
  match l with
  | a :: b :: c :: d :: _ =>
      if is_digit a && is_digit b && is_digit c && is_digit d
      then Some [a; b; c; d] else None
  | _ => None
  end.

(** [(\d{1,2})\s+de\s+(\w+)\s+de\s+(\d{4})] anchored at the head of [l];
    the result is (group 1, group 2, group 3). *)
Definition match_date (l : list ascii)
  : option (list ascii * list ascii * list ascii) :=
  match digits12 l with
  | None => None
  | Some (day, l) =>
  match run1 is_space l with
  | None => None
  | Some (_, l) =>
  match lit_de l with
  | None => None
  | Some l =>
  match run1 is_space l with
  | None => None
  | Some (_, l) =>
  match run1 is_word l with
  | None => None
  | Some (month, l) =>
  match run1 is_space l with
  | None => None
  | Some (_, l) =>
  match lit_de l with
  | None => None
  | Some l =>
  match run1 is_space l with
  | None => None
  | Some (_, l) =>
  match digits4 l with
  | None => None
  | Some year => Some (day, month, year)
  end end end end end end end end end.

(** The argument is [soup.get_text()]. *)
Definition _extract_date_from_page (text : string) : option string :=
  match search match_date (chars text) with
  | Some (g1, g2, g3) =>
      let day := zfill2 g1 in
      let month_name := str (lower g2) in
      let year := g3 in
      match dict_get months_es month_name with
      | Some mm => Some (str year ++ "-" ++ mm ++ "-" ++ str day)
      | None => None
      end
  | None => None
  end.

(** *** The competition-link pattern *)

(** [pre] removed from the head of [l], when [l] starts with it. *)
Fixpoint drop_prefix (pre l : list ascii) : option (list ascii) :=
  match pre, l with
  | [], _ => Some l
  | _ :: _, [] => None
  | a :: pre', b :: l' =>
      if Ascii.eqb a b then drop_prefix pre' l' else None
  end.

Definition newline : ascii := ascii_of_N 10.

(** What may follow the first character of the lazy group [(.+?)]: more
    characters other than newline, up to a slash or to [$] (the end of
    the string, or the newline that ends it). *)
Fixpoint slug_tail (l : list ascii) : bool :=
  match l with
  | [] => true
  | c :: r =>
      if Ascii.eqb c "/" then true
      else if Ascii.eqb c newline then
        match r with [] => true | _ => false end
      else slug_tail r
  end.

(** [/competiciones-natacion/(\d+)-(.+?)(?:/|$)] anchored at the head of
    [l]; the result is group 1.  [\d+] is followed by a dash, so it can
    only be the longest run of digits. *)
Definition match_competition (l : list ascii) : option (list ascii) :=
  match drop_prefix (chars "/competiciones-natacion/") l with
  | None => None
  | Some l =>
  match run1 is_digit l with
  | None => None
  | Some (comp_id, l) =>
  match l with
  | dash :: c :: r =>
      if Ascii.eqb dash "-" && negb (Ascii.eqb c newline) && slug_tail r
      then Some comp_id else None
  | _ => None
  end end end.

End Parsing.


(* ===================================================================== *)
(** ** The registry file *)
(* ===================================================================== *)

Module Registry.

(** The values [json.load] returns. *)
Inductive json :=
| JNull
| JBool (b : bool)
| JInt (n : Z)
| JFloat (literal : string)
| JStr (s : string)
| JArr (items : list json)
| JObj (members : list (string * json)).

(** What the scraper finds at [registry_file]. *)
Inductive file :=
| Missing                 (* [exists()] is false *)
| Unreadable              (* [open] or [read] raises [OSError] *)
| NotText                 (* the bytes are not UTF-8 *)
| NotJson                 (* the text is not a JSON document *)
| LongInteger             (* a JSON document with an integer literal of
                             more than 4300 digits, which [int] refuses *)
| TooDeep                 (* a JSON document nested deeper than the
                             decoder's recursion limit *)
| Json (data : json).     (* a document [json.load] decodes, with the
                             value it returns *)

Inductive exn :=
| IOError | JSONDecodeError | UnicodeDecodeError | AttributeError | TypeError
| ValueError | RecursionError.

Inductive outcome (A : Type) :=
| Return (a : A)
| Raise (e : exn).
Arguments Return {A} a.
Arguments Raise {A} e.

Definition bind {A B} (m : outcome A) (k : A -> outcome B) : outcome B :=
  match m with
  | Return a => k a
  | Raise e => Raise e
  end.

#[export] Instance outcome_ret : MRet outcome := @Return.
#[export] Instance outcome_bind : MBind outcome :=
  fun A B k m => bind m k.

(** The hashable values that can sit in a Python [set] built from JSON. *)
Inductive atom :=
| ANone
| ABool (b : bool)
| AInt (n : Z)
| AFloat (literal : string)
| AStr (s : string).

(** A [set] as the list of the elements it was built from; the scraper
    only ever tests membership on it. *)
Definition pyset := list atom.

Record state := {
  downloaded_files : pyset;
  processed_competitions : pyset
}.

Definition empty : state :=
  {| downloaded_files := []; processed_competitions := [] |}.

(** [hash(v)]: lists and dicts are unhashable. *)
Definition hashable (v : json) : outcome atom :=
  match v with
  | JNull => Return ANone
  | JBool b => Return (ABool b)
  | JInt n => Return (AInt n)
  | JFloat x => Return (AFloat x)
  | JStr s => Return (AStr s)
  | JArr _ | JObj _ => Raise TypeError
  end.

Fixpoint hash_all (l : list json) : outcome pyset :=
  match l with
  | [] => Return []
  | v :: r => a ← hashable v; s ← hash_all r; Return (a :: s)
  end.

(** [set(v)]: a list gives its items, a dict its keys, a string its
    characters; the other values are not iterable. *)
Definition set_of (v : json) : outcome pyset :=
  match v with
  | JArr items => hash_all items
  | JObj members => Return (map (fun kv => AStr (fst kv)) members)
  | JStr s =>
      Return (map (fun c => AStr (String c EmptyString)) (Text.chars s))
  | JNull | JBool _ | JInt _ | JFloat _ => Raise TypeError
  end.

(** The last binding of a key wins in the dict [json.load] builds. *)
Fixpoint lookup (members : list (string * json)) (k : string)
  : option json :=
  match members with
  | [] => None
  | (k', v) :: r =>
      match lookup r k with
      | Some v' => Some v'
      | None => if String.eqb k' k then Some v else None
      end
  end.

(** [data.get(key, [])]: only a dict has [get]. *)
Definition get (data : json) (k : string) : outcome json :=
  match data with
  | JObj members =>
      Return (match lookup members k with Some v => v | None => JArr [] end)
  | _ => Raise AttributeError
  end.

(** [with open(...) as f: data = json.load(f)] *)
Definition json_load (f : file) : outcome json :=
  match f with
  | Missing | Unreadable => Raise IOError
  | NotText => Raise UnicodeDecodeError
  | NotJson => Raise JSONDecodeError
  | LongInteger => Raise ValueError
  | TooDeep => Raise RecursionError
  | Json data => Return data
  end.

(** The body of the [try]. *)
Definition load_body (f : file) : outcome state :=
  data ← json_load f;
  urls ← get data "downloaded_urls" ≫= set_of;
  ids ← get data "competition_ids" ≫= set_of;
  Return {| downloaded_files := urls; processed_competitions := ids |}.

(** [except (json.JSONDecodeError, IOError)]: the [ValueError] of a long
    integer is not the decoder's subclass of it. *)
Definition caught (e : exn) : bool :=
  match e with
  | JSONDecodeError | IOError => true
  | _ => false
  end.

(** [_load_registry], called on the freshly initialised object whose two
    sets are empty: the result is the object's sets after the call, or
    the exception that leaves [__init__]. *)
Definition _load_registry (f : file) : outcome state :=
  match f with
  | Missing => Return empty
  | _ =>
      match load_body f with
      | Return st => Return st
      | Raise e => if caught e then Return empty else Raise e
      end
  end.

End Registry.

(* ===================================================================== *)
(** ** The scraper object and the crawl *)
(* ===================================================================== *)

Module Crawler.
Import Text Parsing.

(** *** What the collaborators hand to the scraper *)

(** An [a] element with an [href]: [link['href']] and
    [link.get_text(strip=True)]. *)
Record anchor := { href : string; anchor_text : string }.

(** [BeautifulSoup(response.text, 'html.parser')]: [soup.get_text()] and
    [soup.find_all('a', href=True)] in document order. *)
Record soup := { get_text : string; links : list anchor }.

(** A response that passed [raise_for_status]:
    [response.headers.get('Content-Type', '')] and the parsed body. *)
Record response := { content_type : string; parsed : soup }.

(** A [Path] as the list of its components. *)
Definition path := list string.

(** How the [mkdir] / [open] / [iter_content] / [write] / [stat] block of
    [_download_file] ends: normally, or with an [IOError] raised before
    or after [open] created the file. *)
Inductive transfer := Complete | Broken (created : bool).

(** The remote site and the disk.  The [nat] is the number of requests
    issued before the one being answered, so the site may answer the
    same URL differently each time. *)
Record world := {
  http : nat -> string -> option response;
  storage : nat -> path -> transfer;
  urljoin : string -> string -> string;
  now_year : Z                       (* [datetime.now().year] *)
}.

(** The constructor arguments; [max_pages] is [self.max_pages] when the
    page loop starts, given or detected. *)
Record config := {
  output_base_dir : path;
  start_year : Z;
  end_year : Z;
  max_pages : Z
}.

(** *** The object's state *)

(** The dict [self.stats]. *)
Record counters := {
  pages_scraped : nat;
  competitions_found : nat;
  competitions_already_downloaded : nat;
  competitions_with_res : nat;
  files_downloaded : nat;
  files_skipped : nat;
  errors : nat
}.

Definition no_stats : counters :=
  {| pages_scraped := 0; competitions_found := 0;
     competitions_already_downloaded := 0; competitions_with_res := 0;
     files_downloaded := 0; files_skipped := 0; errors := 0 |}.

(** The steps of a run an observer can see, each at the source line
    that logs or performs it. *)
Inductive event :=
| Page (page : Z)                       (* the page banner of [run] *)
| Get (url : string)                    (* [session.get] *)
| AllDownloaded                         (* every entry already downloaded *)
| NoNew (consecutive_empty : nat)       (* no new competitions *)
| Stop                                  (* three empty pages, finishing *)
| Found (n : nat)                       (* [n] new competitions *)
| Visit (id : string)                   (* [_process_competition] entered *)
| NoRes (id : string)                   (* no archive link on the page *)
| Known (url : string)                  (* downloaded before *)
| OnDisk (url : string) (p : path)      (* the file already exists *)
| NotZip (url : string)                 (* [text/html] answer *)
| Downloaded (url : string) (p : path)  (* body written *)
| SaveError (url : string) (p : path)   (* [IOError] while saving *)
| Saved (ids urls : gset string).       (* [_save_registry] *)

Record scraper := {
  processed_competitions : gset string;
  downloaded_files : gset string;
  stats : counters;
  disk : list path;          (* the files that exist *)
  clock : nat;               (* requests issued so far *)
  trace : list event         (* oldest first *)
}.

Definition emit (e : event) (st : scraper) : scraper :=
  {| processed_competitions := processed_competitions st;
     downloaded_files := downloaded_files st;
     stats := stats st; disk := disk st; clock := clock st;
     trace := (trace st ++ [e])%list |}.

Definition count (f : counters -> counters) (st : scraper) : scraper :=
  {| processed_competitions := processed_competitions st;
     downloaded_files := downloaded_files st;
     stats := f (stats st); disk := disk st; clock := clock st;
     trace := trace st |}.

Definition tick (st : scraper) : scraper :=
  {| processed_competitions := processed_competitions st;
     downloaded_files := downloaded_files st;
     stats := stats st; disk := disk st; clock := S (clock st);
     trace := trace st |}.

(** [self.processed_competitions.add(id)] *)
Definition mark_processed (id : string) (st : scraper) : scraper :=
  {| processed_competitions := {[ id ]} ∪ processed_competitions st;
     downloaded_files := downloaded_files st;
     stats := stats st; disk := disk st; clock := clock st;
     trace := trace st |}.

(** [self.downloaded_files.add(url)] *)
Definition mark_downloaded (url : string) (st : scraper) : scraper :=
  {| processed_competitions := processed_competitions st;
     downloaded_files := {[ url ]} ∪ downloaded_files st;
     stats := stats st; disk := disk st; clock := clock st;
     trace := trace st |}.

Definition create (p : path) (st : scraper) : scraper :=
  {| processed_competitions := processed_competitions st;
     downloaded_files := downloaded_files st;
     stats := stats st; disk := p :: disk st; clock := clock st;
     trace := trace st |}.

Definition one_more_page (s : counters) : counters :=
  {| pages_scraped := S (pages_scraped s);
     competitions_found := competitions_found s;
     competitions_already_downloaded := competitions_already_downloaded s;
     competitions_with_res := competitions_with_res s;
     files_downloaded := files_downloaded s;
     files_skipped := files_skipped s; errors := errors s |}.

Definition more_found (n : nat) (s : counters) : counters :=
  {| pages_scraped := pages_scraped s;
     competitions_found := competitions_found s + n;
     competitions_already_downloaded := competitions_already_downloaded s;
     competitions_with_res := competitions_with_res s;
     files_downloaded := files_downloaded s;
     files_skipped := files_skipped s; errors := errors s |}.

Definition one_more_already (s : counters) : counters :=
  {| pages_scraped := pages_scraped s;
     competitions_found := competitions_found s;
     competitions_already_downloaded :=
       S (competitions_already_downloaded s);
     competitions_with_res := competitions_with_res s;
     files_downloaded := files_downloaded s;
     files_skipped := files_skipped s; errors := errors s |}.

Definition one_more_res (s : counters) : counters :=
  {| pages_scraped := pages_scraped s;
     competitions_found := competitions_found s;
     competitions_already_downloaded := competitions_already_downloaded s;
     competitions_with_res := S (competitions_with_res s);
     files_downloaded := files_downloaded s;
     files_skipped := files_skipped s; errors := errors s |}.

Definition one_more_file (s : counters) : counters :=
  {| pages_scraped := pages_scraped s;
     competitions_found := competitions_found s;
     competitions_already_downloaded := competitions_already_downloaded s;
     competitions_with_res := competitions_with_res s;
     files_downloaded := S (files_downloaded s);
     files_skipped := files_skipped s; errors := errors s |}.

Definition one_more_skipped (s : counters) : counters :=
  {| pages_scraped := pages_scraped s;
     competitions_found := competitions_found s;
     competitions_already_downloaded := competitions_already_downloaded s;
     competitions_with_res := competitions_with_res s;
     files_downloaded := files_downloaded s;
     files_skipped := S (files_skipped s); errors := errors s |}.

Definition one_more_error (s : counters) : counters :=
  {| pages_scraped := pages_scraped s;
     competitions_found := competitions_found s;
     competitions_already_downloaded := competitions_already_downloaded s;
     competitions_with_res := competitions_with_res s;
     files_downloaded := files_downloaded s;
     files_skipped := files_skipped s; errors := S (errors s) |}.

(** The object [__init__] leaves behind, for the two sets
    [_load_registry] produced and the files present on disk. *)
Definition init (ids urls : gset string) (files : list path) : scraper :=
  {| processed_competitions := ids; downloaded_files := urls;
     stats := no_stats; disk := files; clock := 0; trace := [] |}.

(** A competition dict. *)
Record competition := {
  id : string;
  url : string;
  title : string;
  season_year : Z
}.

Definition BASE_URL : string := "https://www.federacionmadridnatacion.es".
Definition CALENDAR_URL : string :=
  BASE_URL ++ "/index.php/competiciones-natacion".

(** The title prefix removed by [re.sub(r'^NATACION', '', title)], with
    its accented O as the single character 211. *)
Definition NATACION : list ascii :=
  (chars "NATACI" ++ [ascii_of_N 211] ++ chars "N")%list.

Definition remove_prefix (pre l : list ascii) : list ascii :=
  match drop_prefix pre l with
  | Some r => r
  | None => l
  end.

Section Scraper.
Variable w : world.
Variable cfg : config.

(** [_make_request]: every failure of [session.get] and
    [raise_for_status] is caught, counted and turned into [None]. *)
Definition _make_request (url : string) (st : scraper)
  : option response * scraper :=
  let answer := http w (clock st) url in
  let st := tick (emit (Get url) st) in
  match answer with
  | Some r => (Some r, st)
  | None => (None, count one_more_error st)
  end.

Definition in_bounds (year : Z) : bool :=
  (start_year cfg <=? year)%Z && (year <=? end_year cfg)%Z.

(** The body of the [for link] loop of [_get_competitions_from_page],
    on the list built so far and the object. *)
Definition scan_link (acc : list competition * scraper) (link : anchor)
  : list competition * scraper :=
  let '(competitions, st) := acc in
  let h := chars (href link) in
  if negb (contains (chars "/competiciones-natacion/") h) then acc else
  match search match_competition h with
  | None => acc
  | Some g1 =>
      let comp_id := str g1 in
      if bool_decide (comp_id ∈ processed_competitions st)
      then (competitions, count one_more_already st) else
      let full_url := urljoin w BASE_URL (str (before "?" h)) in
      let title := anchor_text link in
      if (String.length title <? 5)%nat then acc else
      let title :=
        str (strip is_space (remove_prefix NATACION (chars title))) in
      let season_year :=
        _extract_year_from_text
          (start_year cfg) (end_year cfg) (now_year w) title in
      if negb (in_bounds season_year) then acc else
      if existsb (fun c => String.eqb comp_id (id c)) competitions
      then acc
      else ((competitions ++
               [ {| id := comp_id; url := full_url; title := title;
                    season_year := season_year |} ])%list, st)
  end.

Definition page_url (page_num : Z) : string :=
  if (page_num =? 1)%Z then CALENDAR_URL
  else CALENDAR_URL ++ "?page=" ++ pretty page_num.

Definition _get_competitions_from_page (page_num : Z) (st : scraper)
  : list competition * scraper :=
  match _make_request (page_url page_num) st with
  | (None, st) => ([], st)
  | (Some r, st) => fold_left scan_link (links (parsed r)) ([], st)
  end.

(** The first loop of [_find_res_zip_link]: link text [.res] and
    [.zip] in the target. *)
Definition is_res_link (link : anchor) : bool :=
  String.eqb (str (lower (chars (anchor_text link)))) ".res"
  && contains (chars ".zip") (lower (chars (href link))).

(** The second loop: [.zip] and [/res] in the target. *)
Definition is_zip_link (link : anchor) : bool :=
  contains (chars ".zip") (lower (chars (href link)))
  && contains (chars "/res") (lower (chars (href link))).

Definition _find_res_zip_link (competition_url : string) (st : scraper)
  : option (string * option string) * scraper :=
  match _make_request competition_url st with
  | (None, st) => (None, st)
  | (Some r, st) =>
      let date_str := _extract_date_from_page (get_text (parsed r)) in
      match find is_res_link (links (parsed r)) with
      | Some link => (Some (urljoin w BASE_URL (href link), date_str), st)
      | None =>
          match find is_zip_link (links (parsed r)) with
          | Some link =>
              (Some (urljoin w BASE_URL (href link), date_str), st)
          | None => (None, st)
          end
      end
  end.

Definition _download_file (url : string) (save_path : path)
           (st : scraper) : bool * scraper :=
  if bool_decide (url ∈ downloaded_files st) then
    (false, count one_more_skipped (emit (Known url) st))
  else if bool_decide (save_path ∈ disk st) then
    (false, mark_downloaded url
              (count one_more_skipped (emit (OnDisk url save_path) st)))
  else
    match _make_request url st with
    | (None, st) => (false, st)
    | (Some r, st) =>
        if contains (chars "text/html") (chars (content_type r)) then
          (false, emit (NotZip url) st)
        else
          match storage w (clock st) save_path with
          | Complete =>
              (true, count one_more_file
                       (mark_downloaded url
                          (emit (Downloaded url save_path)
                             (create save_path st))))
          | Broken created =>
              let st := if created then create save_path st else st in
              (false, count one_more_error
                        (emit (SaveError url save_path) st))
          end
    end.

(** [if date_str:] *)
Definition truthy (date_str : option string) : option string :=
  match date_str with
  | Some d => if String.eqb d "" then None else Some d
  | None => None
  end.

(** The year and the file name [_process_competition] settles on. *)
Definition destination (c : competition) (date_str : option string)
  : Z * string :=
  match truthy date_str with
  | Some d =>
      (decimal (before "-" (chars d)),
       d ++ "__" ++ _sanitize_filename (title c) ++ ".zip")
  | None =>
      (season_year c,
       pretty (season_year c) ++ "__" ++ _sanitize_filename (title c)
         ++ ".zip")
  end.

Definition save_path_of (c : competition) (date_str : option string)
  : path :=
  let '(competition_year, filename) := destination c date_str in
  (output_base_dir cfg ++ [pretty competition_year; filename])%list.

Definition _process_competition (st : scraper) (c : competition)
  : scraper :=
  let st := emit (Visit (id c)) st in
  match _find_res_zip_link (url c) st with
  | (None, st) => mark_processed (id c) (emit (NoRes (id c)) st)
  | (Some (zip_url, date_str), st) =>
      let st := count one_more_res st in
      let save_path := save_path_of c date_str in
      let '(_, st) := _download_file zip_url save_path st in
      mark_processed (id c) st
  end.

Definition _save_registry (st : scraper) : scraper :=
  emit (Saved (processed_competitions st) (downloaded_files st)) st.

(** One turn of the [while] loop of [run] at [page].  The result is
    the new value of [consecutive_empty], or [None] for [break]. *)
Definition page_body (page : Z) (consecutive_empty : nat) (st : scraper)
  : option nat * scraper :=
  let st := emit (Page page) st in
  let '(competitions, st) := _get_competitions_from_page page st in
  let st := count one_more_page st in
  match competitions with
  | [] =>
      if (0 <? competitions_already_downloaded (stats st))%nat then
        (Some 0, emit AllDownloaded st)
      else
        let consecutive_empty := S consecutive_empty in
        let st := emit (NoNew consecutive_empty) st in
        if (3 <=? consecutive_empty)%nat then (None, emit Stop st)
        else (Some consecutive_empty, st)
  | _ =>
      let st := emit (Found (length competitions)) st in
      let st := count (more_found (length competitions)) st in
      let st := fold_left _process_competition competitions st in
      let st := _save_registry st in
      (Some 0, st)
  end.

(** The [while page <= self.max_pages] loop.  [remaining] is the
    number of pages from [page] to [max_pages]: the loop test fails
    exactly when it is zero. *)
Fixpoint page_loop (remaining : nat) (page : Z)
         (consecutive_empty : nat) (st : scraper) : scraper :=
  match remaining with
  | O => st
  | S remaining =>
      match page_body page consecutive_empty st with
      | (None, st) => st
      | (Some consecutive_empty, st) =>
          page_loop remaining (page + 1) consecutive_empty st
      end
  end.

(** [run], from [page = 1] to the final [_save_registry]. *)
Definition run (st : scraper) : scraper :=
  _save_registry (page_loop (Z.to_nat (max_pages cfg)) 1 0 st).

End Scraper.

End Crawler.

(* ===================================================================== *)
(** ** The vocabulary of the statements *)
(* ===================================================================== *)

Module ParsingSpec.
Import Text Parsing.

(** No two underscores in a row. *)
Definition single_underscores (l : list ascii) : Prop :=
  forall l1 l2, l <> (l1 ++ "_"%char :: "_"%char :: l2)%list.

Definition infix (l' l : list ascii) : Prop :=
  exists a b, l = (a ++ l' ++ b)%list.

(** The characters [_sanitize_filename] must never leave in a name. *)
Definition unsafe_chars : list ascii :=
  ["<"; ">"; ":"; ascii_of_N 34; "/"; "\"; "|"; "?"; "*"]%char.

Definition digit (c : ascii) : Prop := is_digit c = true.

(** [l] starts with a season token NN-MM; [nn] is the value of NN. *)
Definition season_here (l : list ascii) (nn : Z) : Prop :=
  exists a b c d rest,
    l = a :: b :: "-"%char :: c :: d :: rest /\
    digit a /\ digit b /\ digit c /\ digit d /\
    nn = (10 * digit_value a + digit_value b)%Z.

(** [l] starts with a four-digit token 20cd; [y] is its value. *)
Definition year20_here (l : list ascii) (y : Z) : Prop :=
  exists c d rest,
    l = "2"%char :: "0"%char :: c :: d :: rest /\
    digit c /\ digit d /\
    y = (2000 + 10 * digit_value c + digit_value d)%Z.

(** The first position of [text] where a token stands, and its value. *)
Definition first_at (P : list ascii -> Z -> Prop) (text : list ascii)
           (v : Z) : Prop :=
  exists pre rest,
    text = (pre ++ rest)%list /\ P rest v /\
    forall pre' rest' v', text = (pre' ++ rest')%list ->
                          (length pre' < length pre)%nat -> ~ P rest' v'.

Definition nowhere (P : list ascii -> Z -> Prop) (text : list ascii)
  : Prop :=
  forall pre rest v, text = (pre ++ rest)%list -> ~ P rest v.

Definition season_value (g : list ascii) : Z :=
  (decimal (["2"; "0"]%char ++ g) - 2000)%Z.

(** The three titles of the season-parsing examples; the first starts
    with the prefix the page scan removes. *)
Definition title_season : string :=
  str (Crawler.NATACION ++ chars " Open 22-23 Jornada 1").

Definition title_year : string := "Trofeo Primavera 2024 Final".

Definition title_plain : string := "Trofeo Primavera Final".

Definition space (c : ascii) : Prop := is_space c = true.

Definition word (c : ascii) : Prop := is_word c = true.

(** A non-empty run of whitespace. *)
Definition blank (l : list ascii) : Prop := l <> [] /\ Forall space l.

(** The word [de] in either case. *)
Definition de (l : list ascii) : Prop :=
  exists d e, l = [d; e] /\ (d = "d" \/ d = "D")%char /\ (e = "e" \/ e = "E")%char.

(** [l] starts with the phrase day [de] month [de] year. *)
Definition phrase_here (l day month year : list ascii) : Prop :=
  exists s1 w1 s2 s3 w2 s4 rest,
    l = (day ++ s1 ++ w1 ++ s2 ++ month ++ s3 ++ w2 ++ s4 ++ year ++ rest)%list /\
    (length day = 1 \/ length day = 2)%nat /\ Forall digit day /\
    blank s1 /\ de w1 /\ blank s2 /\
    month <> [] /\ Forall word month /\
    blank s3 /\ de w2 /\ blank s4 /\
    length year = 4%nat /\ Forall digit year.

(** [l] is not empty and its first character is not in the class [p]. *)
Definition stops (p : ascii -> bool) (l : list ascii) : Prop :=
  exists c t, l = c :: t /\ p c = false.

(** A string of the shape yyyy-mm-dd with a month from 01 to 12. *)
Definition iso_date (s : string) : Prop :=
  exists y mm dd,
    chars s = (y ++ "-"%char :: mm ++ "-"%char :: dd)%list /\
    length y = 4%nat /\ Forall digit y /\
    length mm = 2%nat /\ Forall digit mm /\ (1 <= decimal mm <= 12)%Z /\
    length dd = 2%nat /\ Forall digit dd.

End ParsingSpec.

Module CrawlerSpec.
Import Text Parsing Crawler.

(** The number of registry writes among some events. *)
Definition saves (evs : list event) : nat :=
  length (List.filter (fun e => match e with Saved _ _ => true | _ => false end) evs).

(** The number of calendar pages among some events. *)
Definition pages (evs : list event) : nat :=
  length (List.filter (fun e => match e with Page _ => true | _ => false end) evs).

(** [text/html] in the declared content type. *)
Definition declares_html (r : response) : Prop :=
  contains (chars "text/html") (chars (content_type r)) = true.

(** The transfer of [url] to [p] went through: the site answered the
    request numbered [t] with something other than [text/html] and the
    body was written in full. *)
Definition transferred (w : world) (url : string) (p : path) : Prop :=
  exists t r, http w t url = Some r /\ ~ declares_html r /\
              storage w (S t) p = Complete.

(** [st'] is reached from [st] with the events [evs]: the sets and the
    disk only grow, a competition is visited only if it was not processed
    in [st], and a URL joins [downloaded_files] only with a file on disk
    that was found there or that a completed transfer wrote. *)
Definition advances (w : world) (st : scraper) (evs : list event)
           (st' : scraper) : Prop :=
  trace st' = (trace st ++ evs)%list /\
  (processed_competitions st ⊆ processed_competitions st') /\
  (forall p, p ∈ disk st -> p ∈ disk st') /\
  (forall id, In (Visit id) evs -> id ∉ processed_competitions st) /\
  (forall u, u ∈ downloaded_files st' ->
             u ∈ downloaded_files st \/
             exists p, (p ∈ disk st') /\
                       (In (OnDisk u p) evs \/
                        In (Downloaded u p) evs /\ transferred w u p)).

(** The competitions of a page are new to [st] and pairwise distinct. *)
Definition fresh (st : scraper) (competitions : list competition) : Prop :=
  Forall (fun c => id c ∉ processed_competitions st) competitions /\
  NoDup (map id competitions).

(** [st'] differs from [st] at most in its stats. *)
Definition same_registry (st st' : scraper) : Prop :=
  processed_competitions st' = processed_competitions st /\
  downloaded_files st' = downloaded_files st /\
  disk st' = disk st /\ trace st' = trace st /\ clock st' = clock st.

(** The calendar pages among some events, in order. *)
Definition visited (evs : list event) : list Z :=
  flat_map (fun e => match e with Page n => [n] | _ => [] end) evs.

(** The registry is written after every page and once more at the end:
    one write more than pages. *)
Definition flushed_after_every_page (evs : list event) : Prop :=
  saves evs = S (pages evs).

End CrawlerSpec.

(** Concrete sites and configurations for the worked examples. *)
Module Scenario.
Import Text Parsing Crawler.

(** [urljoin] on the absolute-path references used below. *)
Definition join (base ref : string) : string := base ++ ref.

Definition blank_page : soup := {| get_text := ""; links := [] |}.

Definition html (page : soup) : response :=
  {| content_type := "text/html; charset=utf-8"; parsed := page |}.

Definition config_of (pages : Z) : config :=
  {| output_base_dir := ["data"; "raw"; "FMN"; "natacion"];
     start_year := 2018; end_year := 2026; max_pages := pages |}.

(** A calendar without entries. *)
Definition empty_site : world :=
  {| http := fun _ _ => Some (html blank_page);
     storage := fun _ _ => Complete;
     urljoin := join; now_year := 2026 |}.

(** A calendar whose pages 1 to 4 each list one competition, numbered
    like the page, and whose later pages list nothing.  The detail pages
    carry no archive link. *)
Definition listing_of (n : Z) : soup :=
  {| get_text := "";
     links := [ {| href := "/index.php/competiciones-natacion/" ++ pretty n
                             ++ "-open-22-23";
                   anchor_text := "Open 22-23" |} ] |}.

Definition calendar_page (url : string) : soup :=
  match find (fun n => String.eqb url (page_url n)) [1; 2; 3; 4]%Z with
  | Some n => listing_of n
  | None => blank_page
  end.

Definition four_page_site : world :=
  {| http := fun _ url => Some (html (calendar_page url));
     storage := fun _ _ => Complete;
     urljoin := join; now_year := 2026 |}.

(** The registry a first run over that site leaves behind. *)
Definition after_first_run : gset string := {[ "1"; "2"; "3"; "4" ]}.

(** A calendar with one competition of season 25-26 whose detail page
    carries the date 31 de Enero de 2026 and a [.res] link. *)
Definition season_listing : soup :=
  {| get_text := "";
     links := [ {| href := "/index.php/competiciones-natacion/77-trofeo-25-26?x=1";
                   anchor_text := str (NATACION ++ chars " Trofeo 25-26") |} ] |}.

Definition detail_url : string :=
  BASE_URL ++ "/index.php/competiciones-natacion/77-trofeo-25-26".

Definition detail_page : soup :=
  {| get_text := "Fecha: Sabado, 31 de Enero de 2026. Piscina M-86";
     links := [ {| href := "/images/normativa.pdf"; anchor_text := "Normativa" |};
                {| href := "/images/res/trofeo.ZIP"; anchor_text := ".RES" |} ] |}.

Definition zip_url : string := BASE_URL ++ "/images/res/trofeo.ZIP".

Definition season_site : world :=
  {| http := fun _ url =>
       if String.eqb url CALENDAR_URL then Some (html season_listing)
       else if String.eqb url detail_url then Some (html detail_page)
       else if String.eqb url zip_url then
         Some {| content_type := "application/zip"; parsed := blank_page |}
       else Some (html blank_page);
     storage := fun _ _ => Complete;
     urljoin := join; now_year := 2026 |}.

Definition season_competition : competition :=
  {| id := "77"; url := detail_url; title := "Trofeo 25-26";
     season_year := 2025 |}.

(** The same site answering the archive request with an HTML page. *)
Definition login_site : world :=
  {| http := fun _ url =>
       if String.eqb url CALENDAR_URL then Some (html season_listing)
       else if String.eqb url detail_url then Some (html detail_page)
       else Some (html blank_page);
     storage := fun _ _ => Complete;
     urljoin := join; now_year := 2026 |}.

End Scenario.

(* ===================================================================== *)
(** ** The rest of the module: page detection, the registry document,
       [main], and the vocabulary of the further properties *)

(** The season site answering the archive request with an HTML page
    whose media type is spelled in capitals, as HTTP allows. *)
Module Capitals.
Import Text Parsing Crawler.

Definition error_page : response :=
  {| content_type := "TEXT/HTML; charset=UTF-8";
     parsed := Scenario.blank_page |}.

Definition site : world :=
  {| http := fun _ url =>
       if String.eqb url CALENDAR_URL then Some (Scenario.html Scenario.season_listing)
       else if String.eqb url Scenario.detail_url then
         Some (Scenario.html Scenario.detail_page)
       else if String.eqb url Scenario.zip_url then Some error_page
       else Some (Scenario.html Scenario.blank_page);
     storage := fun _ _ => Complete;
     urljoin := Scenario.join; now_year := 2026 |}.

Definition target : path :=
  ["data"; "raw"; "FMN"; "natacion"; "2026"; "2026-01-31__Trofeo_25-26.zip"].

End Capitals.

(** The rest of [run] and [main]: page detection, the registry document
    and the exit status. *)
Module Driver.
Import Text Parsing Crawler.

(** [str.isdigit]: not empty, every character a decimal digit or one of
    the superscripts 1, 2 and 3 (the characters below 256 that have a
    digit value). *)
Definition isdigit_char (c : ascii) : bool :=
  is_digit c || existsb (N.eqb (code c)) [178; 179; 185]%N.

Definition isdigit (s : list ascii) : bool :=
  match s with
  | [] => false
  | _ => forallb isdigit_char s
  end.

(** The body of the [for link] loop of [_detect_total_pages] on
    [max_page]; [None] is the [ValueError] of [int]. *)
Definition bump_max (acc : option Z) (link : anchor) : option Z :=
  match acc with
  | None => None
  | Some max_page =>
      if contains (chars "?page=") (chars (href link))
         && isdigit (chars (anchor_text link))
      then
        match py_int (chars (anchor_text link)) with
        | Some page_num =>
            Some (if (max_page <? page_num)%Z then page_num else max_page)
        | None => None
        end
      else Some max_page
  end.

Section Detection.
Variable w : world.
Variable cfg : config.

Definition _detect_total_pages (st : scraper) : option Z * scraper :=
  match _make_request w CALENDAR_URL st with
  | (None, st) => (Some 100%Z, st)
  | (Some r, st) => (fold_left bump_max (links (parsed r)) (Some 1%Z), st)
  end.



End Detection.

(** The dict [_save_registry] hands to [json.dump], for an enumeration
    [list_of] of a set and the time stamp [now]. *)
Definition registry_document (list_of : gset string -> list string)
           (now : string) (st : scraper) : Registry.json :=
  Registry.JObj
    [ ("downloaded_urls",
       Registry.JArr (map Registry.JStr (list_of (downloaded_files st))));
      ("competition_ids",
       Registry.JArr (map Registry.JStr (list_of (processed_competitions st))));
      ("last_updated", Registry.JStr now) ].

(** The strings of a loaded set: the other atoms never equal an
    identifier or a URL. *)
Definition strings (s : Registry.pyset) : gset string :=
  list_to_set
    (flat_map (fun a => match a with Registry.AStr x => [x] | _ => [] end) s).




End Driver.

Module SanitizeSpec.
Import Text Parsing.

(** A character [_sanitize_filename] removes or turns into an underscore
    that the final [strip] then removes when nothing else is left. *)
Definition is_junk (c : ascii) : bool :=
  is_forbidden c || is_space c || is_trim c.

(** The three passes before [strip]. *)
Definition passes (name : list ascii) : list ascii :=
  squeeze is_underscore (squeeze is_space
    (map (fun c => if is_forbidden c then "_"%char else c) name)).

(** A name of 101 characters whose hundredth is an underscore. *)
Definition long_name : string :=
  str (repeat "a"%char 99 ++ ["_"; "b"]%char).

End SanitizeSpec.

(** The sanitizer step by step, as relations between a name and what
    each step leaves of it. *)
Module SanitizeSteps.
Import Text Parsing ParsingSpec.

(** The characters [strip('._-')] removes at both ends. *)
Definition trim_chars : list ascii := ["."; "_"; "-"]%char.

(** Every unsafe character replaced by an underscore, the others kept. *)
Definition replaced (name out : list ascii) : Prop :=
  Forall2 (fun c c' => (In c unsafe_chars /\ c' = "_"%char) \/
                       (~ In c unsafe_chars /\ c' = c)) name out.

(** [out] is [l] with every maximal run of characters of the class [P]
    collapsed to a single underscore, and the other characters kept in
    place. *)
Inductive collapsed (P : ascii -> Prop) : list ascii -> list ascii -> Prop :=
| collapsed_nil : collapsed P [] []
| collapsed_keep c l out :
    ~ P c -> collapsed P l out -> collapsed P (c :: l) (c :: out)
| collapsed_run run l out :
    run <> [] -> Forall P run ->
    match l with [] => True | c :: _ => ~ P c end ->
    collapsed P l out ->
    collapsed P (run ++ l) ("_"%char :: out).

(** [out] is [l] without the characters of the class [P] at its two
    ends. *)
Definition trimmed (P : ascii -> Prop) (l out : list ascii) : Prop :=
  exists pre post,
    l = (pre ++ out ++ post)%list /\ Forall P pre /\ Forall P post /\
    (forall c t, out = c :: t -> ~ P c) /\
    (forall t c, out = (t ++ [c])%list -> ~ P c).

(** The steps of the sanitizer, in the order it takes them. *)
Definition sanitized (name out : list ascii) : Prop :=
  exists a b c d,
    replaced name a /\
    collapsed (fun x => is_space x = true) a b /\
    collapsed (fun x => x = "_"%char) b c /\
    trimmed (fun x => In x trim_chars) c d /\
    out = firstn 100 d.

End SanitizeSteps.

Module DateSpec.

(** A text whose first phrase names no month and whose second is a date. *)
Definition two_phrases : string := "1 de xyz de 2020, 2 de enero de 2021".

End DateSpec.

(** [_extract_date_from_page] over the whole of Unicode: a Python [str]
    is the list of its code points, and the character classes of the
    pattern are those of the Unicode character database, which the
    model takes as given. *)
Module Unicode.

(** The code points of a string of this file. *)
Definition enc (l : list ascii) : list N := map N_of_ascii l.

Definition codes (s : string) : list N := enc (Text.chars s).

(** What the date pattern and the string methods ask of the database. *)
Record classes := {
  decimal : N -> bool;        (* [\d]: a decimal digit of any script *)
  space : N -> bool;          (* [\s] *)
  word : N -> bool;           (* [\w] *)
  tolower : N -> N;           (* the lower-case mapping of [re.IGNORECASE] *)
  lower : list N -> list N    (* [str.lower] *)
}.

(** [re.search], as [Text.search]. *)
Fixpoint search {G : Type} (m : list N -> option G) (l : list N)
  : option G :=
  match m l with
  | Some g => Some g
  | None =>
      match l with
      | [] => None
      | _ :: r => search m r
      end
  end.

Fixpoint span (p : N -> bool) (l : list N) : list N * list N :=
  match l with
  | [] => ([], [])
  | c :: r =>
      if p c then let '(a, b) := span p r in (c :: a, b) else ([], l)
  end.

Definition run1 (p : N -> bool) (l : list N) : option (list N * list N) :=
  match span p l with
  | ([], _) => None
  | (a, b) => Some (a, b)
  end.

(** [s.zfill(2)] for a string of digits: the padding is the digit zero
    of ASCII. *)
Definition zfill2 (l : list N) : list N :=
  match l with
  | [] => [48; 48]%N
  | [c] => [48%N; c]
  | _ => l
  end.

(** [key in months_es] and [months_es[key]]. *)
Fixpoint dict_get (d : list (string * string)) (k : list N)
  : option string :=
  match d with
  | [] => None
  | (k', v) :: r =>
      if decide (codes k' = k) then Some v else dict_get r k
  end.

Section Date.
Variable db : classes.

(** [de] under [re.IGNORECASE]: the characters whose lower case is the
    letter of the pattern. *)
Definition lit_de (l : list N) : option (list N) :=
  match l with
  | d :: e :: r =>
      if (tolower db d =? 100)%N && (tolower db e =? 101)%N
      then Some r else None
  | _ => None
  end.

(** [\d{1,2}] followed by [\s+], as [Parsing.digits12]. *)
Definition digits12 (l : list N) : option (list N * list N) :=
  match l with
  | a :: r =>
      if decimal db a then
        match r with
        | b :: r' => if decimal db b then Some ([a; b], r') else Some ([a], r)
        | [] => Some ([a], r)
        end
      else None
  | [] => None
  end.

(** [\d{4}] *)
Definition digits4 (l : list N) : option (list N) :=
  match l with
  | a :: b :: c :: d :: _ =>
      if decimal db a && decimal db b && decimal db c && decimal db d
      then Some [a; b; c; d] else None
  | _ => None
  end.

(** [(\d{1,2})\s+de\s+(\w+)\s+de\s+(\d{4})] anchored at the head of [l]. *)
Definition match_date (l : list N)
  : option (list N * list N * list N) :=
  match digits12 l with
  | None => None
  | Some (day, l) =>
  match run1 (space db) l with
  | None => None
  | Some (_, l) =>
  match lit_de l with
  | None => None
  | Some l =>
  match run1 (space db) l with
  | None => None
  | Some (_, l) =>
  match run1 (word db) l with
  | None => None
  | Some (month, l) =>
  match run1 (space db) l with
  | None => None
  | Some (_, l) =>
  match lit_de l with
  | None => None
  | Some l =>
  match run1 (space db) l with
  | None => None
  | Some (_, l) =>
  match digits4 l with
  | None => None
  | Some year => Some (day, month, year)
  end end end end end end end end end.

(** The argument is [soup.get_text()]. *)
Definition _extract_date_from_page (text : list N) : option (list N) :=
  match search match_date text with
  | Some (g1, g2, g3) =>
      let day := zfill2 g1 in
      let month_name := lower db g2 in
      let year := g3 in
      match dict_get Parsing.months_es month_name with
      | Some mm => Some (year ++ codes "-" ++ codes mm ++ codes "-" ++ day)%list
      | None => None
      end
  | None => None
  end.

End Date.
End Unicode.

Module UnicodeSpec.
Import Unicode.

(** What the deterministic reading of the pattern rests on: whitespace
    is neither a decimal digit nor a word character, and no whitespace
    character has the letter d as its lower case. *)
Definition lawful (db : classes) : Prop :=
  (forall c, space db c = true -> decimal db c = false) /\
  (forall c, space db c = true -> word db c = false) /\
  (forall c, tolower db c = 100%N -> space db c = false).

(** One of the digits 0-9 of ASCII. *)
Definition ascii_digit (c : N) : Prop := (48 <= c <= 57)%N.

Definition blank (db : classes) (l : list N) : Prop :=
  l <> [] /\ Forall (fun c => space db c = true) l.

(** The word [de] in either case. *)
Definition de (db : classes) (l : list N) : Prop :=
  exists d e, l = [d; e] /\ tolower db d = 100%N /\ tolower db e = 101%N.

(** [l] starts with the phrase day [de] month [de] year. *)
Definition phrase_here (db : classes) (l day month year : list N) : Prop :=
  exists s1 w1 s2 s3 w2 s4 rest,
    l = (day ++ s1 ++ w1 ++ s2 ++ month ++ s3 ++ w2 ++ s4 ++ year ++ rest)%list /\
    (length day = 1 \/ length day = 2)%nat /\
    Forall (fun c => decimal db c = true) day /\
    blank db s1 /\ de db w1 /\ blank db s2 /\
    month <> [] /\ Forall (fun c => word db c = true) month /\
    blank db s3 /\ de db w2 /\ blank db s4 /\
    length year = 4%nat /\ Forall (fun c => decimal db c = true) year.

(** [l] is not empty and its first character is not in the class [p]. *)
Definition stops (p : N -> bool) (l : list N) : Prop :=
  exists c t, l = c :: t /\ p c = false.

(** The numbers of the twelve months. *)
Definition month_numbers : list string :=
  ["01"; "02"; "03"; "04"; "05"; "06"; "07"; "08"; "09"; "10"; "11"; "12"].

(** A string of the shape yyyy-mm-dd whose year and day are written
    with the digits of the class [digit]. *)
Definition dated (digit : N -> Prop) (s : list N) : Prop :=
  exists y mm dd,
    s = (y ++ codes "-" ++ codes mm ++ codes "-" ++ dd)%list /\
    length y = 4%nat /\ Forall digit y /\
    In mm month_numbers /\
    length dd = 2%nat /\ Forall digit dd.

(** ISO 8601: the digits are those of ASCII. *)
Definition iso_date (s : list N) : Prop := dated ascii_digit s.

(** The database on the code points below 256, as in [Text], and on
    the fullwidth digits U+FF10 to U+FF19, where it is the one of
    Unicode; it puts the other code points in no class and serves for
    the texts of these code points only. *)
Definition fullwidth_digit (c : N) : bool :=
  ((65296 <=? c) && (c <=? 65305))%N.

Definition latin1 (p : ascii -> bool) (c : N) : bool :=
  (c <? 256)%N && p (ascii_of_N c).

Definition lower_code (c : N) : N :=
  if (c <? 256)%N then N_of_ascii (Text.lower_char (ascii_of_N c)) else c.

Definition known : classes :=
  {| decimal := fun c => latin1 Text.is_digit c || fullwidth_digit c;
     space := latin1 Text.is_space;
     word := fun c => latin1 Text.is_word c || fullwidth_digit c;
     tolower := lower_code;
     lower := map lower_code |}.

(** 31 de enero de 2026 with the day and the year in fullwidth digits,
    and the date the extractor makes of it. *)
Definition fullwidth_text : list N :=
  ([65299; 65297]%N ++ codes " de enero de " ++ [65298; 65296; 65298; 65302]%N)%list.

Definition fullwidth_date : list N :=
  ([65298; 65296; 65298; 65302]%N ++ codes "-01-" ++ [65299; 65297]%N)%list.

End UnicodeSpec.

Module LedgerSpec.
Import Text Parsing Crawler CrawlerSpec.

(** The competitions entered, the URLs transferred, the competitions
    announced, the requests issued and the transfers skipped among some
    events. *)
Definition visits (evs : list event) : list string :=
  flat_map (fun e => match e with Visit i => [i] | _ => [] end) evs.

Definition downloads (evs : list event) : list string :=
  flat_map (fun e => match e with Downloaded u _ => [u] | _ => [] end) evs.

Definition founds (evs : list event) : nat :=
  list_sum (map (fun e => match e with Found n => n | _ => 0 end) evs).

Definition gets (evs : list event) : nat :=
  length (List.filter (fun e => match e with Get _ => true | _ => false end) evs).

Definition skips (evs : list event) : nat :=
  length (List.filter (fun e => match e with
                                | Known _ | OnDisk _ _ => true
                                | _ => false
                                end) evs).

(** A site that answers every request and a disk that takes every file. *)
Definition healthy (w : world) : Prop :=
  (forall t u, http w t u <> None) /\
  (forall t p, storage w t p = Complete).

(** [st'] is reached from [st] with the events [evs], and the sets and
    counters of [st'] are those of [st] plus what the events tell. *)
Definition ledger (w : world) (st : scraper) (evs : list event)
           (st' : scraper) : Prop :=
  trace st' = (trace st ++ evs)%list /\
  processed_competitions st' =
    list_to_set (visits evs) ∪ processed_competitions st /\
  NoDup (visits evs) /\
  (forall i, In i (visits evs) -> i ∉ processed_competitions st) /\
  (downloaded_files st ⊆ downloaded_files st') /\
  NoDup (downloads evs) /\
  (forall u, In u (downloads evs) ->
             (u ∉ downloaded_files st) /\ (u ∈ downloaded_files st')) /\
  (competitions_already_downloaded (stats st) <=
     competitions_already_downloaded (stats st'))%nat /\
  files_downloaded (stats st') =
    (files_downloaded (stats st) + length (downloads evs))%nat /\
  files_skipped (stats st') = (files_skipped (stats st) + skips evs)%nat /\
  pages_scraped (stats st') = (pages_scraped (stats st) + pages evs)%nat /\
  competitions_found (stats st') =
    (competitions_found (stats st) + founds evs)%nat /\
  clock st' = (clock st + gets evs)%nat /\
  (errors (stats st) <= errors (stats st'))%nat /\
  (healthy w -> errors (stats st') = errors (stats st)).

(** The [k] pages from [page] on. *)
Definition pages_from (page : Z) (k : nat) : list Z :=
  map (fun i => (page + Z.of_nat i)%Z) (seq 0 k).

(** The calendar page [page] never lists anything: the request fails or
    the page has no anchor. *)
Definition barren (w : world) (page : Z) : Prop :=
  forall t, match http w t (page_url page) with
            | None => True
            | Some r => links (parsed r) = []
            end.

End LedgerSpec.

Module ScanSpec.
Import Text Parsing Crawler ParsingSpec.

(** What the page scan guarantees about a competition [c] it returns
    from the anchors [anchors] of a calendar page. *)
Definition listed (w : world) (cfg : config) (anchors : list anchor)
           (c : competition) : Prop :=
  exists link,
    In link anchors /\
    contains (chars "/competiciones-natacion/") (chars (href link)) = true /\
    (5 <= String.length (anchor_text link))%nat /\
    url c = urljoin w BASE_URL (str (before "?" (chars (href link)))) /\
    title c =
      str (strip is_space (remove_prefix NATACION (chars (anchor_text link)))) /\
    chars (id c) <> [] /\ Forall digit (chars (id c)) /\
    season_year c =
      _extract_year_from_text (start_year cfg) (end_year cfg) (now_year w)
        (title c) /\
    (start_year cfg <= season_year c <= end_year cfg)%Z.

End ScanSpec.

Module DriverSpec.
Import Text Parsing Crawler Driver.

(** A pagination anchor with a numeric label. *)
Definition numbered (link : anchor) : bool :=
  contains (chars "?page=") (chars (href link))
  && isdigit (chars (anchor_text link)).

(** A label [int] refuses: it holds a character other than 0-9, or more
    than [int_max_str_digits] characters. *)
Definition refused (label : list ascii) : Prop :=
  ~ Forall (fun c => is_digit c = true) label \/
  (int_max_str_digits < length label)%nat.


(** The four-page calendar of [Scenario] with the pagination anchors 2
    and 3 on every page, and the registry file a run over it leaves. *)
Definition pagination : list anchor :=
  [ {| href := "/index.php/competiciones-natacion?page=2";
       anchor_text := "2" |};
    {| href := "/index.php/competiciones-natacion?page=3";
       anchor_text := "3" |} ].

Definition paged_calendar (url : string) : soup :=
  {| get_text := "";
     links := (links (Scenario.calendar_page url) ++ pagination)%list |}.

Definition paged_site : world :=
  {| http := fun _ url => Some (Scenario.html (paged_calendar url));
     storage := fun _ _ => Complete;
     urljoin := Scenario.join; now_year := 2026 |}.



(** The same calendar with a pagination label of 4301 digits. *)
Definition long_label : string := str (repeat "9"%char 4301).

Definition long_label_site : world :=
  {| http := fun _ _ =>
       Some (Scenario.html
               {| get_text := "";
                  links := [ {| href := "/index.php/competiciones-natacion?page=2";
                                anchor_text := long_label |} ] |});
     storage := fun _ _ => Complete;
     urljoin := Scenario.join; now_year := 2026 |}.


(** A path component: no slash in it. *)
Definition plain (s : string) : Prop := ~ In "/"%char (chars s).

(** A decimal numeral, possibly negative. *)
Definition numeral (s : string) : Prop :=
  Forall (fun c => is_digit c = true \/ c = "-"%char) (chars s).

End DriverSpec.

Module ResumeSpec.
Import Text Parsing Crawler.



End ResumeSpec.

(* ===================================================================== *)
(** ** Properties of the string primitives and of the parsers *)
(* ===================================================================== *)

Module TextFacts.
Import Text ParsingSpec.

Lemma chars_str (l : list ascii) : chars (str l) = l.
Proof. apply list_ascii_of_string_of_list_ascii. Qed.

Lemma str_chars (s : string) : str (chars s) = s.
Proof. apply string_of_list_ascii_of_string. Qed.

Lemma length_str (l : list ascii) : String.length (str l) = length l.
Proof. induction l as [|c l IH]; simpl; [reflexivity | now rewrite IH]. Qed.

Lemma chars_app (s t : string) : chars (s ++ t) = (chars s ++ chars t)%list.
Proof. induction s as [|c s IH]; simpl; [reflexivity | now rewrite IH]. Qed.

(** *** Leftmost search *)

Section Search.
Context {G : Type} (m : list ascii -> option G).

Lemma search_found (l : list ascii) (g : G) :
  search m l = Some g ->
  exists pre rest,
    l = (pre ++ rest)%list /\ m rest = Some g /\
    forall pre' rest', l = (pre' ++ rest')%list ->
                       (length pre' < length pre)%nat -> m rest' = None.
Proof.
  induction l as [|c l IH]; simpl; intros H.
  - destruct (m []) eqn:E; [|discriminate].
    exists [], []. repeat split; [congruence|].
    intros pre' rest' _ Hlt. simpl in Hlt. lia.
  - destruct (m (c :: l)) eqn:E.
    + exists [], (c :: l). repeat split; [congruence|].
      intros pre' rest' _ Hlt. simpl in Hlt. lia.
    + destruct (IH H) as (pre & rest & -> & Hm & Hmin).
      exists (c :: pre), rest. repeat split; [assumption|].
      intros [|c' pre'] rest' Heq Hlt; simpl in *.
      * now subst rest'.
      * injection Heq as -> Heq. apply (Hmin pre' rest' Heq). lia.
Qed.

Lemma search_none (l : list ascii) :
  search m l = None ->
  forall pre rest, l = (pre ++ rest)%list -> m rest = None.
Proof.
  induction l as [|c l IH]; simpl; intros H pre rest Heq.
  - destruct (m []) eqn:E; [discriminate|].
    destruct pre; [simpl in Heq; now subst | discriminate].
  - destruct (m (c :: l)) eqn:E; [discriminate|].
    destruct pre as [|c' pre]; simpl in Heq.
    + now subst.
    + injection Heq as -> Heq. now apply (IH H pre).
Qed.

Lemma search_leftmost (pre rest : list ascii) (g : G) :
  m rest = Some g ->
  (forall pre' rest', (pre ++ rest)%list = (pre' ++ rest')%list ->
                      (length pre' < length pre)%nat -> m rest' = None) ->
  search m (pre ++ rest) = Some g.
Proof.
  induction pre as [|c pre IH]; intros Hm Hmin.
  - simpl. destruct rest; simpl; now rewrite Hm.
  - change (search m (c :: (pre ++ rest)%list) = Some g). simpl.
    rewrite (Hmin [] (c :: pre ++ rest)%list eq_refl) by (simpl; lia).
    apply IH; [assumption|].
    intros pre' rest' Heq Hlt. apply (Hmin (c :: pre') rest').
    + simpl. now rewrite Heq.
    + simpl. lia.
Qed.
End Search.

(** *** [squeeze] *)

Lemma squeeze_aux_Forall (Q : ascii -> Prop) p b l :
  Q "_"%char -> Forall Q l -> Forall Q (squeeze_aux p b l).
Proof.
  intros HQ H. revert b. induction H as [|c l Hc Hl IH]; intros b; simpl.
  - constructor.
  - destruct (p c); [destruct b|]; auto.
Qed.

Lemma squeeze_aux_class p b l :
  Forall (fun c => p c = false \/ c = "_"%char) (squeeze_aux p b l).
Proof.
  revert b. induction l as [|c l IH]; intros b; simpl.
  - constructor.
  - destruct (p c) eqn:E; [destruct b|]; auto.
Qed.

Lemma infix_refl l : infix l l.
Proof. exists [], []. simpl. now rewrite app_nil_r. Qed.

Lemma infix_trans l1 l2 l3 : infix l1 l2 -> infix l2 l3 -> infix l1 l3.
Proof.
  intros (a & b & ->) (a' & b' & ->).
  exists (a' ++ a)%list, (b ++ b')%list. now rewrite <- !app_assoc.
Qed.

Lemma infix_Forall (Q : ascii -> Prop) l' l :
  infix l' l -> Forall Q l -> Forall Q l'.
Proof.
  intros (a & b & ->) H.
  apply Forall_app in H as [_ H]. now apply Forall_app in H as [H _].
Qed.

Lemma infix_single_underscores l' l :
  infix l' l -> single_underscores l -> single_underscores l'.
Proof.
  intros (a & b & ->) H l1 l2 ->.
  apply (H (a ++ l1) (l2 ++ b))%list.
  now rewrite <- !app_assoc.
Qed.

Lemma single_underscores_cons c l :
  single_underscores l ->
  (c = "_"%char -> forall r, l <> "_"%char :: r) ->
  single_underscores (c :: l).
Proof.
  intros Hl Hc [|x l1] l2 Heq; simpl in Heq.
  - injection Heq as -> ->. now apply (Hc eq_refl l2).
  - injection Heq as -> ->. now apply (Hl l1 l2).
Qed.

Lemma single_underscores_nil : single_underscores [].
Proof. intros [|x l1] l2; discriminate. Qed.

Lemma squeeze_aux_underscores b l :
  let p := fun c => Ascii.eqb c "_" in
  single_underscores (squeeze_aux p b l) /\
  (b = true -> forall r, squeeze_aux p b l <> "_"%char :: r).
Proof.
  intros p. revert b. induction l as [|c l IH]; intros b; simpl.
  - split; [apply single_underscores_nil | discriminate].
  - destruct (p c) eqn:E.
    + destruct b.
      * apply IH.
      * split; [|discriminate].
        apply single_underscores_cons; [apply IH|].
        intros _. now apply IH.
    + split.
      * apply single_underscores_cons; [apply IH|].
        intros ->. discriminate.
      * intros _ r Heq. injection Heq as -> _. discriminate.
Qed.

(** *** [strip] and slices *)

Lemma lstrip_suffix p l : exists a, l = (a ++ lstrip p l)%list.
Proof.
  induction l as [|c l [a IH]]; simpl.
  - now exists [].
  - destruct (p c).
    + exists (c :: a). simpl. now rewrite <- IH.
    + now exists [].
Qed.

Lemma lstrip_infix p l : infix (lstrip p l) l.
Proof.
  destruct (lstrip_suffix p l) as [a H]. exists a, [].
  now rewrite app_nil_r.
Qed.

Lemma rstrip_infix p l : infix (rstrip p l) l.
Proof.
  unfold rstrip. destruct (lstrip_suffix p (rev l)) as [a H].
  exists [], (rev a). simpl.
  rewrite <- rev_app_distr, <- H. symmetry. apply rev_involutive.
Qed.

Lemma strip_infix p l : infix (strip p l) l.
Proof.
  unfold strip. eapply infix_trans; [apply rstrip_infix | apply lstrip_infix].
Qed.

Lemma firstn_infix n (l : list ascii) : infix (firstn n l) l.
Proof. exists [], (skipn n l). simpl. now rewrite firstn_skipn. Qed.

Lemma py_int_decimal (l : list ascii) :
  l <> [] -> Forall digit l -> (length l <= int_max_str_digits)%nat ->
  py_int l = Some (decimal l).
Proof.
  intros Hne Hall Hlen. unfold py_int. destruct l as [|c l]; [contradiction|].
  replace (forallb is_digit (c :: l)) with true.
  - apply Nat.leb_le in Hlen. now rewrite Hlen.
  - symmetry. apply forallb_forall. intros x Hx.
    rewrite List.Forall_forall in Hall. now apply Hall.
Qed.

Lemma before_digits (y rest : list ascii) :
  Forall digit y -> before "-" (y ++ "-"%char :: rest) = y.
Proof.
  induction 1 as [|c y Hc Hy IH]; simpl; [reflexivity|].
  destruct (Ascii.eqb c "-") eqn:E.
  - apply Ascii.eqb_eq in E. subst c. discriminate Hc.
  - now rewrite IH.
Qed.

End TextFacts.

Module ParsingFacts.
Import Text Parsing ParsingSpec TextFacts.

Lemma is_forbidden_spec c : is_forbidden c = false -> ~ In c unsafe_chars.
Proof.
  intros H Hin. unfold unsafe_chars in Hin. simpl in Hin.
  repeat (destruct Hin as [<- | Hin]; [discriminate H|]). exact Hin.
Qed.

Lemma sanitize_chars_infix name :
  infix (sanitize_chars name)
    (squeeze is_underscore (squeeze is_space
       (map (fun c => if is_forbidden c then "_"%char else c) name))).
Proof.
  unfold sanitize_chars.
  destruct (_ <? _)%nat.
  - eapply infix_trans; [apply firstn_infix | apply strip_infix].
  - apply strip_infix.
Qed.

Lemma sanitize_chars_length name : (length (sanitize_chars name) <= 100)%nat.
Proof.
  unfold sanitize_chars.
  destruct (_ <? _)%nat eqn:E.
  - rewrite length_firstn. lia.
  - apply Nat.ltb_ge in E. exact E.
Qed.

Lemma sanitize_chars_clean name :
  Forall (fun c => is_forbidden c = false /\ is_space c = false)
         (sanitize_chars name).
Proof.
  eapply infix_Forall; [apply sanitize_chars_infix|].
  unfold squeeze.
  apply squeeze_aux_Forall; [split; reflexivity|].
  (* after the whitespace pass *)
  assert (H0 : Forall (fun c => is_forbidden c = false)
                 (map (fun c => if is_forbidden c then "_"%char else c) name)).
  { apply List.Forall_forall. intros c Hc. apply List.in_map_iff in Hc as (x & <- & _).
    destruct (is_forbidden x) eqn:E; [reflexivity | exact E]. }
  pose proof (squeeze_aux_Forall _ is_space false _ eq_refl H0) as H1.
  pose proof (squeeze_aux_class is_space false
                (map (fun c => if is_forbidden c then "_"%char else c) name)) as H2.
  rewrite List.Forall_forall in *. intros c Hc. split; [now apply H1|].
  destruct (H2 c Hc) as [H | ->]; [exact H | reflexivity].
Qed.

Lemma sanitize_chars_underscores name :
  single_underscores (sanitize_chars name).
Proof.
  eapply infix_single_underscores; [apply sanitize_chars_infix|].
  apply (squeeze_aux_underscores false).
Qed.

(** *** Season and year tokens *)

Section Bridge.
Context {G : Type} (m : list ascii -> option G) (val : G -> Z)
        (P : list ascii -> Z -> Prop).
Hypothesis sound : forall l g, m l = Some g -> P l (val g).
Hypothesis complete : forall l v, P l v -> exists g, m l = Some g /\ val g = v.

Lemma search_of_first text v :
  first_at P text v -> exists g, search m text = Some g /\ val g = v.
Proof using sound complete.
  intros (pre & rest & -> & HP & Hmin).
  destruct (complete _ _ HP) as (g & Hm & Hv).
  exists g. split; [|exact Hv].
  apply search_leftmost; [exact Hm|].
  intros pre' rest' Heq Hlt.
  destruct (m rest') as [g'|] eqn:E; [|reflexivity].
  exfalso. apply (Hmin pre' rest' (val g') Heq Hlt). now apply sound.
Qed.

Lemma search_of_nowhere text : nowhere P text -> search m text = None.
Proof using sound.
  intros Hno. destruct (search m text) as [g|] eqn:E; [|reflexivity].
  exfalso. apply search_found in E as (pre & rest & Heq & Hm & _).
  apply (Hno pre rest (val g) Heq). now apply sound.
Qed.
End Bridge.

Lemma decimal_20 a b :
  decimal ["2"; "0"; a; b]%char = (2000 + 10 * digit_value a + digit_value b)%Z.
Proof. unfold decimal. simpl. change (digit_value "2") with 2%Z.
       change (digit_value "0") with 0%Z. lia. Qed.

Lemma match_season_sound l g :
  match_season l = Some g -> season_here l (season_value g).
Proof.
  unfold match_season. intros H.
  destruct l as [|a [|b [|m [|c [|d rest]]]]]; try discriminate.
  destruct (is_digit a) eqn:Ea, (is_digit b) eqn:Eb,
           (Ascii.eqb m "-") eqn:Em, (is_digit c) eqn:Ec,
           (is_digit d) eqn:Ed; try discriminate.
  injection H as <-. apply Ascii.eqb_eq in Em as ->.
  exists a, b, c, d, rest. unfold digit, season_value.
  repeat split; try assumption.
  change (["2"; "0"]%char ++ [a; b])%list with ["2"; "0"; a; b]%char.
  rewrite decimal_20. lia.
Qed.

Lemma match_season_complete l nn :
  season_here l nn -> exists g, match_season l = Some g /\ season_value g = nn.
Proof.
  intros (a & b & c & d & rest & -> & Ha & Hb & Hc & Hd & ->).
  exists [a; b]. unfold match_season, digit in *.
  rewrite Ha, Hb, Hc, Hd. split; [reflexivity|].
  unfold season_value.
  change (["2"; "0"]%char ++ [a; b])%list with ["2"; "0"; a; b]%char.
  rewrite decimal_20. lia.
Qed.

Lemma match_year20_sound l g :
  match_year20 l = Some g -> year20_here l (decimal g).
Proof.
  unfold match_year20. intros H.
  destruct l as [|a [|b [|c [|d rest]]]]; try discriminate.
  destruct (Ascii.eqb a "2") eqn:Ea, (Ascii.eqb b "0") eqn:Eb,
           (is_digit c) eqn:Ec, (is_digit d) eqn:Ed; try discriminate.
  injection H as <-.
  apply Ascii.eqb_eq in Ea as ->. apply Ascii.eqb_eq in Eb as ->.
  exists c, d, rest. unfold digit. repeat split; try assumption.
  apply decimal_20.
Qed.

Lemma match_year20_complete l y :
  year20_here l y -> exists g, match_year20 l = Some g /\ decimal g = y.
Proof.
  intros (c & d & rest & -> & Hc & Hd & ->).
  exists ["2"; "0"; c; d]%char. unfold match_year20, digit in *.
  rewrite Hc, Hd. split; [reflexivity | apply decimal_20].
Qed.

(** The arguments of [int] in [_extract_year_from_text] are digits. *)
Lemma match_season_digits l g :
  match_season l = Some g ->
  py_int (["2"; "0"]%char ++ g) = Some (decimal (["2"; "0"]%char ++ g)).
Proof.
  intros H. apply match_season_sound in H as Hs.
  destruct Hs as (a & b & c & d & rest & -> & Ha & Hb & _).
  unfold match_season in H. unfold digit in *.
  destruct (is_digit a && is_digit b && Ascii.eqb "-" "-"
            && is_digit c && is_digit d); [|discriminate].
  injection H as <-. unfold py_int. simpl. now rewrite Ha, Hb.
Qed.

Lemma match_year20_digits l g :
  match_year20 l = Some g -> py_int g = Some (decimal g).
Proof.
  intros H. apply match_year20_sound in H as Hs.
  destruct Hs as (c & d & rest & -> & Hc & Hd & _).
  unfold match_year20 in H. unfold digit in *. rewrite Hc, Hd in H.
  injection H as <-. unfold py_int. simpl. now rewrite Hc, Hd.
Qed.

(** C6. The year inferred from a title is 2000+NN for the first season
    token NN-MM when 2000+NN lies within the bounds; otherwise the value
    of the first four-digit token starting with 20 when there is one;
    otherwise the current year.  With 2022 within the bounds the first
    example title gives 2022; the second gives 2024 and the third the
    current year. *)
Theorem extract_year_precedence (start_year end_year now_year : Z)
        (text : string) :
  let year := _extract_year_from_text start_year end_year now_year text in
  let in_bounds v := (start_year <= v <= end_year)%Z in
  let no_season :=
    nowhere season_here (chars text) \/
    exists nn, first_at season_here (chars text) nn /\ ~ in_bounds (2000 + nn)%Z in
  (forall nn, first_at season_here (chars text) nn ->
              in_bounds (2000 + nn)%Z -> year = (2000 + nn)%Z) /\
  (forall y, no_season -> first_at year20_here (chars text) y -> year = y) /\
  (no_season -> nowhere year20_here (chars text) -> year = now_year) /\
  (in_bounds 2022%Z ->
   _extract_year_from_text start_year end_year now_year title_season = 2022%Z) /\
  _extract_year_from_text start_year end_year now_year title_year = 2024%Z /\
  _extract_year_from_text start_year end_year now_year title_plain = now_year.
Proof.
  cbv zeta. unfold _extract_year_from_text, extract_year_chars.
  assert (Hfall : forall y,
    (nowhere season_here (chars text) \/
     exists nn, first_at season_here (chars text) nn /\
                ~ (start_year <= 2000 + nn <= end_year)%Z) ->
    match search match_year20 (chars text) with
    | Some g => decimal g | None => now_year end = y ->
    match search match_season (chars text) with
    | Some g1 =>
        if (start_year <=? decimal (["2"; "0"]%char ++ g1))%Z
           && (decimal (["2"; "0"]%char ++ g1) <=? end_year)%Z
        then decimal (["2"; "0"]%char ++ g1)
        else match search match_year20 (chars text) with
             | Some g => decimal g | None => now_year end
    | None => match search match_year20 (chars text) with
              | Some g => decimal g | None => now_year end
    end = y).
  { intros y [Hno | (nn & Hfirst & Hout)] Hy.
    - now rewrite (search_of_nowhere _ season_value _ match_season_sound _ Hno).
    - destruct (search_of_first _ season_value _ match_season_sound
                  match_season_complete _ _ Hfirst) as (g & -> & Hv).
      unfold season_value in Hv.
      destruct ((start_year <=? _)%Z && (_ <=? end_year)%Z) eqn:E;
        [|exact Hy].
      exfalso. apply Hout. apply andb_true_iff in E as [E1 E2].
      apply Z.leb_le in E1, E2. lia. }
  refine (conj _ (conj _ (conj _ (conj _ (conj _ _))))).
  - intros nn Hfirst Hin.
    destruct (search_of_first _ season_value _ match_season_sound
                match_season_complete _ _ Hfirst) as (g & -> & Hv).
    unfold season_value in Hv.
    replace (decimal (["2"; "0"]%char ++ g)) with (2000 + nn)%Z by lia.
    destruct Hin as [H1 H2].
    apply Z.leb_le in H1, H2. now rewrite H1, H2.
  - intros y Hno Hfirst. apply Hfall; [exact Hno|].
    destruct (search_of_first _ decimal _ match_year20_sound
                match_year20_complete _ _ Hfirst) as (g & -> & Hv).
    exact Hv.
  - intros Hno Hnone. apply Hfall; [exact Hno|].
    now rewrite (search_of_nowhere _ decimal _ match_year20_sound _ Hnone).
  - intros [H1 H2].
    replace (search match_season (chars title_season))
      with (Some ["2"; "2"]%char) by (vm_compute; reflexivity).
    replace (decimal (["2"; "0"]%char ++ ["2"; "2"]%char)) with 2022%Z
      by (vm_compute; reflexivity).
    apply Z.leb_le in H1, H2. now rewrite H1, H2.
  - replace (search match_season (chars title_year)) with (@None (list ascii))
      by (vm_compute; reflexivity).
    replace (search match_year20 (chars title_year))
      with (Some ["2"; "0"; "2"; "4"]%char) by (vm_compute; reflexivity).
    vm_compute. reflexivity.
  - replace (search match_season (chars title_plain)) with (@None (list ascii))
      by (vm_compute; reflexivity).
    replace (search match_year20 (chars title_plain)) with (@None (list ascii))
      by (vm_compute; reflexivity).
    reflexivity.
Qed.

(** *** The long-form date phrase *)

Ltac each_char c :=
  destruct c as [[] [] [] [] [] [] [] []]; vm_compute; intuition congruence.

Lemma space_not_digit c : is_space c = true -> is_digit c = false.
Proof. each_char c. Qed.

Lemma space_not_word c : is_space c = true -> is_word c = false.
Proof. each_char c. Qed.

Lemma digit_not_space c : is_digit c = true -> is_space c = false.
Proof. each_char c. Qed.

Lemma lower_d c :
  Ascii.eqb (lower_char c) "d" = true <-> (c = "d" \/ c = "D")%char.
Proof. each_char c. Qed.

Lemma lower_e c :
  Ascii.eqb (lower_char c) "e" = true <-> (c = "e" \/ c = "E")%char.
Proof. each_char c. Qed.

Lemma d_not_space c : (c = "d" \/ c = "D")%char -> is_space c = false.
Proof. intros [-> | ->]; reflexivity. Qed.

Lemma span_sound p l a b :
  span p l = (a, b) -> l = (a ++ b)%list /\ Forall (fun c => p c = true) a.
Proof.
  revert a b. induction l as [|c l IH]; simpl; intros a b H.
  - injection H as <- <-. split; [reflexivity | constructor].
  - destruct (p c) eqn:E.
    + destruct (span p l) as [a' b'] eqn:Es. injection H as <- <-.
      destruct (IH a' b' eq_refl) as [-> Hall].
      split; [reflexivity | now constructor].
    + injection H as <- <-. split; [reflexivity | constructor].
Qed.

Lemma span_app p s c r :
  Forall (fun x => p x = true) s -> p c = false ->
  span p (s ++ c :: r) = (s, c :: r).
Proof.
  intros Hs Hc. induction Hs as [|x s Hx Hs IH]; simpl.
  - now rewrite Hc.
  - now rewrite Hx, IH.
Qed.

Lemma run1_sound p l a b :
  run1 p l = Some (a, b) ->
  l = (a ++ b)%list /\ a <> [] /\ Forall (fun c => p c = true) a.
Proof.
  unfold run1. destruct (span p l) as [a' b'] eqn:E. intros H.
  destruct a' as [|x a']; [discriminate|]. injection H as <- <-.
  destruct (span_sound _ _ _ _ E) as [-> Hall].
  repeat split; [discriminate | exact Hall].
Qed.

Lemma run1_app p s c r :
  s <> [] -> Forall (fun x => p x = true) s -> p c = false ->
  run1 p (s ++ c :: r) = Some (s, c :: r).
Proof.
  intros Hne Hs Hc. unfold run1. rewrite span_app by assumption.
  destruct s; [contradiction | reflexivity].
Qed.

Lemma lit_de_sound l r : lit_de l = Some r -> exists w, de w /\ l = (w ++ r)%list.
Proof.
  unfold lit_de. destruct l as [|d [|e l]]; try discriminate.
  destruct (Ascii.eqb (lower_char d) "d") eqn:Ed; [|discriminate].
  destruct (Ascii.eqb (lower_char e) "e") eqn:Ee; [|discriminate].
  intros H. injection H as <-. exists [d; e]. split; [|reflexivity].
  exists d, e. repeat split; [now apply lower_d | now apply lower_e].
Qed.

Lemma lit_de_app w r : de w -> lit_de (w ++ r) = Some r.
Proof.
  intros (d & e & -> & Hd & He). simpl.
  apply lower_d in Hd. apply lower_e in He. now rewrite Hd, He.
Qed.

Lemma digits12_sound l day r :
  digits12 l = Some (day, r) ->
  l = (day ++ r)%list /\ (length day = 1 \/ length day = 2)%nat /\
  Forall digit day.
Proof.
  unfold digits12. destruct l as [|a l]; [discriminate|].
  destruct (is_digit a) eqn:Ea; [|discriminate].
  destruct l as [|b l].
  - intros H. injection H as <- <-.
    repeat split; auto; repeat (constructor; try assumption).
  - destruct (is_digit b) eqn:Eb; intros H; injection H as <- <-;
      repeat split; auto; repeat (constructor; try assumption).
Qed.

Lemma digits12_app day c r :
  (length day = 1 \/ length day = 2)%nat -> Forall digit day ->
  is_digit c = false ->
  digits12 (day ++ c :: r) = Some (day, c :: r).
Proof.
  intros Hlen Hd Hc. unfold digits12, digit in *.
  destruct day as [|a [|b [|x day]]]; simpl in Hlen; try lia.
  - inversion Hd as [|? ? Ha _]; subst. simpl. now rewrite Ha, Hc.
  - inversion Hd as [|? ? Ha Hd']; subst.
    inversion Hd' as [|? ? Hb _]; subst. simpl. now rewrite Ha, Hb.
Qed.

Lemma digits4_sound l year :
  digits4 l = Some year ->
  exists rest, l = (year ++ rest)%list /\ length year = 4%nat /\ Forall digit year.
Proof.
  unfold digits4. destruct l as [|a [|b [|c [|d rest]]]]; try discriminate.
  destruct (is_digit a) eqn:Ea, (is_digit b) eqn:Eb,
           (is_digit c) eqn:Ec, (is_digit d) eqn:Ed; try discriminate.
  intros H. injection H as <-. exists rest.
  repeat split; repeat (constructor; try assumption).
Qed.

Lemma digits4_app year rest :
  length year = 4%nat -> Forall digit year ->
  digits4 (year ++ rest) = Some year.
Proof.
  intros Hlen Hd. unfold digit in *.
  destruct year as [|a [|b [|c [|d [|x year]]]]]; try discriminate.
  inversion Hd as [|? ? Ha H1]; subst. inversion H1 as [|? ? Hb H2]; subst.
  inversion H2 as [|? ? Hc H3]; subst. inversion H3 as [|? ? Hd' _]; subst.
  simpl. now rewrite Ha, Hb, Hc, Hd'.
Qed.

(** The anchored matcher accepts exactly the phrase. *)
Lemma match_date_sound l day month year :
  match_date l = Some (day, month, year) -> phrase_here l day month year.
Proof.
  unfold match_date. intros H.
  destruct (digits12 l) as [[day' l1]|] eqn:E1; [|discriminate].
  destruct (run1 is_space l1) as [[s1 l2]|] eqn:E2; [|discriminate].
  destruct (lit_de l2) as [l3|] eqn:E3; [|discriminate].
  destruct (run1 is_space l3) as [[s2 l4]|] eqn:E4; [|discriminate].
  destruct (run1 is_word l4) as [[month' l5]|] eqn:E5; [|discriminate].
  destruct (run1 is_space l5) as [[s3 l6]|] eqn:E6; [|discriminate].
  destruct (lit_de l6) as [l7|] eqn:E7; [|discriminate].
  destruct (run1 is_space l7) as [[s4 l8]|] eqn:E8; [|discriminate].
  destruct (digits4 l8) as [year'|] eqn:E9; [|discriminate].
  injection H as -> -> ->.
  apply digits12_sound in E1 as (-> & Hlen & Hday).
  apply run1_sound in E2 as (-> & Hs1 & Hs1').
  apply lit_de_sound in E3 as (w1 & Hw1 & ->).
  apply run1_sound in E4 as (-> & Hs2 & Hs2').
  apply run1_sound in E5 as (-> & Hm & Hm').
  apply run1_sound in E6 as (-> & Hs3 & Hs3').
  apply lit_de_sound in E7 as (w2 & Hw2 & ->).
  apply run1_sound in E8 as (-> & Hs4 & Hs4').
  apply digits4_sound in E9 as (rest & -> & Hylen & Hy).
  exists s1, w1, s2, s3, w2, s4, rest. unfold blank.
  repeat split; assumption.
Qed.

Lemma stops_app p s x :
  s <> [] -> Forall (fun c => p c = false) s -> stops p (s ++ x).
Proof.
  intros Hne Hall. destruct s as [|c t]; [contradiction|].
  exists c, (t ++ x)%list. split; [reflexivity | now inversion Hall].
Qed.

Lemma run1_stops p s t :
  s <> [] -> Forall (fun x => p x = true) s -> stops p t ->
  run1 p (s ++ t) = Some (s, t).
Proof. intros Hne Hs (c & r & -> & Hc). now apply run1_app. Qed.

Lemma digits12_stops day t :
  (length day = 1 \/ length day = 2)%nat -> Forall digit day ->
  stops is_digit t -> digits12 (day ++ t) = Some (day, t).
Proof. intros Hlen Hd (c & r & -> & Hc). now apply digits12_app. Qed.

Lemma blank_stops p s x :
  (forall c, is_space c = true -> p c = false) -> blank s -> stops p (s ++ x).
Proof.
  intros Hp [Hne Hall]. apply stops_app; [exact Hne|].
  eapply List.Forall_impl; [|exact Hall]. exact Hp.
Qed.

Lemma de_stops w x : de w -> stops is_space (w ++ x).
Proof.
  intros (d & e & -> & Hd & _). exists d, (e :: x).
  split; [reflexivity | now apply d_not_space].
Qed.

Lemma match_date_complete l day month year :
  phrase_here l day month year -> match_date l = Some (day, month, year).
Proof.
  intros (s1 & w1 & s2 & s3 & w2 & s4 & rest & -> & Hlen & Hday &
          Hs1 & Hw1 & Hs2 & Hne & Hm & Hs3 & Hw2 & Hs4 & Hylen & Hy).
  unfold match_date.
  rewrite digits12_stops;
    [|assumption|assumption|now apply blank_stops; [apply space_not_digit|]].
  rewrite run1_stops; [|apply Hs1|apply Hs1|now apply de_stops].
  rewrite lit_de_app by assumption.
  rewrite run1_stops; [|apply Hs2|apply Hs2|].
  2:{ apply stops_app; [exact Hne|]. eapply List.Forall_impl; [|exact Hm].
      intros c Hc. unfold word in Hc. destruct (is_space c) eqn:E; [|reflexivity].
      apply space_not_word in E. congruence. }
  rewrite run1_stops;
    [|assumption|assumption|now apply blank_stops; [apply space_not_word|]].
  rewrite run1_stops; [|apply Hs3|apply Hs3|now apply de_stops].
  rewrite lit_de_app by assumption.
  rewrite run1_stops; [|apply Hs4|apply Hs4|].
  2:{ apply stops_app; [now destruct year|]. eapply List.Forall_impl; [|exact Hy].
      intros c Hc. now apply digit_not_space. }
  now rewrite digits4_app.
Qed.

Lemma dict_get_In d k v : dict_get d k = Some v -> In (k, v) d.
Proof.
  induction d as [|[k' v'] d IH]; simpl; [discriminate|].
  destruct (String.eqb k' k) eqn:E.
  - intros H. injection H as ->. apply String.eqb_eq in E as ->. now left.
  - intros H. right. now apply IH.
Qed.

Lemma months_es_numbers k mm :
  In (k, mm) months_es ->
  length (chars mm) = 2%nat /\ Forall digit (chars mm) /\
  (1 <= decimal (chars mm) <= 12)%Z.
Proof.
  unfold months_es. simpl.
  intros H.
  repeat (destruct H as [H | H];
          [injection H as <- <-;
           split; [reflexivity|];
           split; [repeat constructor | vm_compute; split; discriminate]|]).
  contradiction.
Qed.

Lemma zfill2_digits day :
  (length day = 1 \/ length day = 2)%nat -> Forall digit day ->
  length (zfill2 day) = 2%nat /\ Forall digit (zfill2 day).
Proof.
  intros Hlen Hd. destruct day as [|a [|b [|c day]]]; simpl in Hlen; try lia.
  - simpl. split; [reflexivity|]. constructor; [reflexivity | exact Hd].
  - simpl. split; [reflexivity | exact Hd].
Qed.

(** What [_extract_date_from_page] returns, in terms of the first phrase
    of the text. *)
Lemma extract_date_first_phrase (text : string) :
  _extract_date_from_page text = None \/
  exists pre rest day month year mm,
    chars text = (pre ++ rest)%list /\
    phrase_here rest day month year /\
    (forall pre' rest' d m y,
        chars text = (pre' ++ rest')%list ->
        (length pre' < length pre)%nat -> ~ phrase_here rest' d m y) /\
    In (str (lower month), mm) months_es /\
    _extract_date_from_page text =
      Some (str year ++ "-" ++ mm ++ "-" ++ str (zfill2 day)) /\
    iso_date (str year ++ "-" ++ mm ++ "-" ++ str (zfill2 day)).
Proof.
  unfold _extract_date_from_page.
  destruct (search match_date (chars text)) as [[[day month] year]|] eqn:E;
    [|now left].
  destruct (dict_get months_es (str (lower month))) as [mm|] eqn:Em;
    [|now left].
  right. apply search_found in E as (pre & rest & Heq & Hm & Hmin).
  apply match_date_sound in Hm as Hp.
  exists pre, rest, day, month, year, mm.
  apply dict_get_In in Em.
  refine (conj Heq (conj Hp (conj _ (conj Em (conj eq_refl _))))).
  - intros pre' rest' d m y Heq' Hlt Hp'.
    apply match_date_complete in Hp'.
    rewrite (Hmin pre' rest' Heq' Hlt) in Hp'. discriminate.
  - destruct Hp as (s1 & w1 & s2 & s3 & w2 & s4 & tl & _ & Hlen & Hday &
                    _ & _ & _ & _ & _ & _ & _ & _ & Hylen & Hy).
    destruct (months_es_numbers _ _ Em) as (Hmlen & Hmd & Hmv).
    destruct (zfill2_digits day Hlen Hday) as (Hdlen & Hdd).
    exists year, (chars mm), (zfill2 day).
    rewrite !chars_app, !chars_str. simpl.
    repeat split; assumption || lia.
Qed.

(** The argument of [int] in [_process_competition] is a digit string. *)
Lemma date_year_digits (text d : string) :
  _extract_date_from_page text = Some d ->
  py_int (before "-" (chars d)) = Some (decimal (before "-" (chars d))).
Proof.
  intros Hd.
  destruct (extract_date_first_phrase text) as [Hnone | Hsome]; [congruence|].
  destruct Hsome as (pre & rest & day & month & year & mm &
                     _ & _ & _ & _ & He & Hiso).
  rewrite He in Hd. injection Hd as <-.
  destruct Hiso as (y & m & dd & -> & Hylen & Hy & _).
  rewrite before_digits by exact Hy.
  apply py_int_decimal; [now destruct y | exact Hy |].
  rewrite Hylen. unfold int_max_str_digits. lia.
Qed.

(** The precedence theorem at a concrete input. *)
Lemma extract_year_precedence_witness :
  (2018 <= 2022 <= 2026)%Z /\
  _extract_year_from_text 2018 2026 2026 title_season = 2022%Z.
Proof.
  assert (Hb : (2018 <= 2022 <= 2026)%Z) by lia.
  destruct (extract_year_precedence 2018 2026 2026 title_season)
    as (_ & _ & _ & H & _ & _).
  exact (conj Hb (H Hb)).
Defined.

End ParsingFacts.

(* ===================================================================== *)
(** ** Properties of the registry loader *)
(* ===================================================================== *)

Module RegistryFacts.
Import Registry.

(** A missing, unreadable or non-JSON file leaves the two sets empty. *)
Lemma load_registry_soft (f : file) :
  f = Missing \/ f = Unreadable \/ f = NotJson ->
  _load_registry f = Return empty.
Proof. intros [-> | [-> | ->]]; reflexivity. Qed.

(** A dict whose two entries are lists of strings is loaded as it is. *)
Lemma load_registry_strings (urls ids : list string) :
  _load_registry
    (Json (JObj [("downloaded_urls", JArr (map JStr urls));
                 ("competition_ids", JArr (map JStr ids))])) =
  Return {| downloaded_files := map AStr urls;
            processed_competitions := map AStr ids |}.
Proof.
  assert (H : forall l, hash_all (map JStr l) = Return (map AStr l)).
  { induction l as [|s l IH]; [reflexivity|].
    simpl. unfold mbind, outcome_bind in *. simpl. rewrite IH. reflexivity. }
  unfold _load_registry, load_body. simpl.
  unfold mbind, outcome_bind. simpl. rewrite !H. reflexivity.
Qed.

(** The exceptions of the decoder that are not [JSONDecodeError] escape
    as well. *)
Lemma load_registry_decoder_errors :
  _load_registry LongInteger = Raise ValueError /\
  _load_registry TooDeep = Raise RecursionError.
Proof. split; reflexivity. Qed.

(** C3. [_load_registry] lets an exception escape for files it can read:
    a JSON document that is not an object raises [AttributeError], an
    object whose entry is not iterable or holds an unhashable item raises
    [TypeError], and a file that is not UTF-8 text raises
    [UnicodeDecodeError]. *)
Theorem load_registry_raises :
  _load_registry (Json (JArr [])) = Raise AttributeError /\
  _load_registry (Json (JObj [("downloaded_urls", JInt 5)])) = Raise TypeError /\
  _load_registry (Json (JObj [("competition_ids", JArr [JArr []])])) = Raise TypeError /\
  _load_registry NotText = Raise UnicodeDecodeError.
Proof. repeat split. Qed.

End RegistryFacts.

(* ===================================================================== *)
(** ** Properties of the crawl *)
(* ===================================================================== *)

Module CrawlerFacts.
Import Text Parsing Crawler ParsingSpec CrawlerSpec TextFacts ParsingFacts.

#[local] Arguments chars : simpl never.
#[local] Arguments scan_link : simpl never.
#[local] Arguments _make_request : simpl never.
#[local] Arguments _get_competitions_from_page : simpl never.
#[local] Arguments _find_res_zip_link : simpl never.
#[local] Arguments _download_file : simpl never.
#[local] Arguments _process_competition : simpl never.
#[local] Arguments page_body : simpl never.

Lemma advances_refl w st : advances w st [] st.
Proof.
  unfold advances. rewrite app_nil_r.
  repeat split; auto.
Qed.

Lemma advances_trans w st1 evs1 st2 evs2 st3 :
  advances w st1 evs1 st2 -> advances w st2 evs2 st3 ->
  advances w st1 (evs1 ++ evs2) st3.
Proof.
  intros (Ht1 & Hp1 & Hd1 & Hv1 & Hu1) (Ht2 & Hp2 & Hd2 & Hv2 & Hu2).
  unfold advances. rewrite Ht2, Ht1, app_assoc.
  split; [reflexivity|]. split; [now transitivity (processed_competitions st2)|].
  split; [auto|]. split.
  - intros id Hin. apply in_app_or in Hin as [Hin | Hin]; [auto|].
    intros Hx. apply (Hv2 _ Hin). now apply Hp1.
  - intros u Hu. destruct (Hu2 u Hu) as [Hu' | (p & Hp & Hev)].
    + destruct (Hu1 u Hu') as [? | (p & Hp & Hev)]; [now left|].
      right. exists p. split; [auto|].
      destruct Hev as [? | [? ?]]; [left | right; split; [|assumption]];
        apply in_or_app; now left.
    + right. exists p. split; [auto|].
      destruct Hev as [? | [? ?]]; [left | right; split; [|assumption]];
        apply in_or_app; now right.
Qed.

(** A step that only logs, counts, ticks or marks competitions. *)
Lemma advances_quiet w st evs st' :
  trace st' = (trace st ++ evs)%list ->
  processed_competitions st ⊆ processed_competitions st' ->
  downloaded_files st' = downloaded_files st ->
  disk st' = disk st ->
  (forall id, In (Visit id) evs -> id ∉ processed_competitions st) ->
  advances w st evs st'.
Proof.
  intros Ht Hp Hd Hk Hv. unfold advances. rewrite Ht, Hd, Hk.
  repeat split; auto.
Qed.

Lemma saves_app evs1 evs2 : saves (evs1 ++ evs2) = saves evs1 + saves evs2.
Proof. unfold saves. now rewrite List.filter_app, length_app. Qed.

Section Steps.
Variable w : world.
Variable cfg : config.

Lemma make_request_advances url st :
  advances w st [Get url] (snd (_make_request w url st)).
Proof.
  unfold _make_request.
  destruct (http w (clock st) url); simpl;
    (apply advances_quiet; [reflexivity..|]);
    intros id [H | []]; discriminate.
Qed.

Lemma make_request_fields url st :
  let st' := snd (_make_request w url st) in
  processed_competitions st' = processed_competitions st /\
  downloaded_files st' = downloaded_files st /\
  disk st' = disk st /\ clock st' = S (clock st) /\
  trace st' = (trace st ++ [Get url])%list /\
  fst (_make_request w url st) = http w (clock st) url /\
  competitions_already_downloaded (stats st') =
    competitions_already_downloaded (stats st).
Proof.
  unfold _make_request. destruct (http w (clock st) url); simpl; repeat split.
Qed.

Lemma same_registry_refl st : same_registry st st.
Proof. repeat split. Qed.

Lemma existsb_id_false comp_id (competitions : list competition) :
  existsb (fun c => String.eqb comp_id (id c)) competitions = false ->
  ~ In comp_id (map id competitions).
Proof.
  induction competitions as [|c l IH]; simpl; [tauto|].
  intros H. apply orb_false_iff in H as [H1 H2].
  intros [Heq | Hin]; [|now apply IH].
  subst comp_id. now rewrite String.eqb_refl in H1.
Qed.

Lemma scan_link_fresh competitions st link :
  fresh st competitions ->
  same_registry st (snd (scan_link w cfg (competitions, st) link)) /\
  fresh st (fst (scan_link w cfg (competitions, st) link)).
Proof.
  intros Hf. unfold scan_link.
  destruct (negb _); [split; [apply same_registry_refl | exact Hf]|].
  destruct (search match_competition _) as [g1|];
    [|split; [apply same_registry_refl | exact Hf]].
  destruct (bool_decide _) eqn:Epr; [split; [repeat split | exact Hf]|].
  apply bool_decide_eq_false in Epr.
  destruct (_ <? _)%nat; [split; [apply same_registry_refl | exact Hf]|].
  destruct (negb _); [split; [apply same_registry_refl | exact Hf]|].
  destruct (existsb _ competitions) eqn:Ex;
    [split; [apply same_registry_refl | exact Hf]|].
  split; [apply same_registry_refl|]. cbn [fst].
  destruct Hf as [Hnew Hnd]. split.
  - apply Forall_app. split; [exact Hnew|]. constructor; [exact Epr | constructor].
  - rewrite map_app. cbn [map id].
    apply NoDup_app. split; [exact Hnd|]. split; [|apply NoDup_singleton].
    intros x Hx Hx'. apply list_elem_of_singleton in Hx' as ->.
    apply existsb_id_false in Ex. apply Ex. now apply list_elem_of_In.
Qed.

Lemma scan_links_fresh links competitions st :
  fresh st competitions ->
  same_registry st (snd (fold_left (scan_link w cfg) links (competitions, st))) /\
  fresh st (fst (fold_left (scan_link w cfg) links (competitions, st))).
Proof.
  revert competitions st. induction links as [|link links IH];
    intros competitions st Hf; simpl.
  - split; [apply same_registry_refl | exact Hf].
  - destruct (scan_link_fresh competitions st link Hf) as [Hs Hf'].
    destruct (scan_link w cfg (competitions, st) link) as [competitions' st'].
    cbn [fst snd] in *.
    destruct Hs as (Hp & Hd & Hk & Ht & Hc).
    assert (Hf'' : fresh st' competitions').
    { unfold fresh in *. now rewrite Hp. }
    destruct (IH competitions' st' Hf'') as [(Hp' & Hd' & Hk' & Ht' & Hc') Hf3].
    split.
    + unfold same_registry. repeat split; congruence.
    + unfold fresh in *. now rewrite <- Hp.
Qed.

(** The page scan requests one page, returns competitions that are new
    and distinct, and leaves the registry alone. *)
Lemma get_competitions_fresh page st :
  let competitions := fst (_get_competitions_from_page w cfg page st) in
  let st' := snd (_get_competitions_from_page w cfg page st) in
  fresh st competitions /\
  processed_competitions st' = processed_competitions st /\
  downloaded_files st' = downloaded_files st /\
  disk st' = disk st /\
  trace st' = (trace st ++ [Get (page_url page)])%list.
Proof.
  unfold _get_competitions_from_page.
  pose proof (make_request_fields (page_url page) st)
    as (Hp & Hd & Hk & Hc & Ht & Hf & _).
  destruct (_make_request w (page_url page) st) as [o st1].
  cbn [fst snd] in *. destruct o as [r|].
  - assert (Hnil : fresh st1 []) by (split; constructor).
    destruct (scan_links_fresh (links (parsed r)) [] st1 Hnil)
      as [(Hp' & Hd' & Hk' & Ht' & Hc') Hf'].
    split; [unfold fresh in *; now rewrite <- Hp|].
    repeat split; congruence.
  - cbn [fst snd]. split; [split; constructor|]. repeat split; assumption.
Qed.

(** What [_download_file] does, case by case. *)
Lemma download_file_cases url p st :
  let ok := fst (_download_file w url p st) in
  let st' := snd (_download_file w url p st) in
  processed_competitions st' = processed_competitions st /\
  ( ((url ∈ downloaded_files st) /\ ok = false /\
     downloaded_files st' = downloaded_files st /\ disk st' = disk st /\
     trace st' = (trace st ++ [Known url])%list)
  \/ ((url ∉ downloaded_files st) /\ (p ∈ disk st) /\ ok = false /\
      downloaded_files st' = {[ url ]} ∪ downloaded_files st /\
      disk st' = disk st /\
      trace st' = (trace st ++ [OnDisk url p])%list)
  \/ ((url ∉ downloaded_files st) /\ (p ∉ disk st) /\
      http w (clock st) url = None /\ ok = false /\
      downloaded_files st' = downloaded_files st /\ disk st' = disk st /\
      trace st' = (trace st ++ [Get url])%list)
  \/ (exists r,
        (url ∉ downloaded_files st) /\ (p ∉ disk st) /\
        http w (clock st) url = Some r /\ declares_html r /\ ok = false /\
        downloaded_files st' = downloaded_files st /\ disk st' = disk st /\
        trace st' = (trace st ++ [Get url; NotZip url])%list)
  \/ (exists r created,
        (url ∉ downloaded_files st) /\ (p ∉ disk st) /\
        http w (clock st) url = Some r /\ ~ declares_html r /\
        storage w (S (clock st)) p = Broken created /\ ok = false /\
        downloaded_files st' = downloaded_files st /\
        disk st' = (if created then p :: disk st else disk st) /\
        trace st' = (trace st ++ [Get url; SaveError url p])%list)
  \/ (exists r,
        (url ∉ downloaded_files st) /\ (p ∉ disk st) /\
        http w (clock st) url = Some r /\ ~ declares_html r /\
        storage w (S (clock st)) p = Complete /\ ok = true /\
        downloaded_files st' = {[ url ]} ∪ downloaded_files st /\
        disk st' = p :: disk st /\
        trace st' = (trace st ++ [Get url; Downloaded url p])%list) ).
Proof.
  unfold _download_file.
  destruct (bool_decide (url ∈ downloaded_files st)) eqn:Eu.
  { apply bool_decide_eq_true in Eu. simpl. split; [reflexivity|].
    left. repeat split. exact Eu. }
  apply bool_decide_eq_false in Eu.
  destruct (bool_decide (p ∈ disk st)) eqn:Ep.
  { apply bool_decide_eq_true in Ep. simpl. split; [reflexivity|].
    right; left. repeat split; assumption. }
  apply bool_decide_eq_false in Ep.
  pose proof (make_request_fields url st) as (Hp & Hd & Hk & Hc & Ht & Hf & _).
  destruct (_make_request w url st) as [o st1] eqn:Er. cbn [fst snd] in *.
  subst o. destruct (http w (clock st) url) as [r|] eqn:Eh.
  2:{ simpl. split; [exact Hp|]. right; right; left. repeat split; assumption. }
  destruct (contains (chars "text/html") (chars (content_type r))) eqn:Ehtml.
  { simpl. split; [exact Hp|]. right; right; right; left. exists r.
    rewrite Ht, <- app_assoc. repeat split; assumption. }
  assert (Hnot : ~ declares_html r) by (unfold declares_html; congruence).
  rewrite Hc. destruct (storage w (S (clock st)) p) as [|created] eqn:Es.
  - simpl. split; [exact Hp|]. do 5 right. exists r.
    rewrite Ht, Hd, Hk, <- app_assoc. repeat split; assumption.
  - split; [destruct created; exact Hp|]. do 4 right; left. exists r, created.
    destruct created; simpl; rewrite Ht, Hd, ?Hk, <- app_assoc;
      repeat split; assumption.
Qed.

Lemma download_file_advances url p st :
  exists evs, advances w st evs (snd (_download_file w url p st)) /\
              saves evs = 0.
Proof.
  destruct (download_file_cases url p st) as
    (Hp & [(Hu & _ & Hd & Hk & Ht)
          | [(Hu & Hin & _ & Hd & Hk & Ht)
          | [(Hu & Hin & _ & _ & Hd & Hk & Ht)
          | [(r & Hu & Hin & _ & _ & _ & Hd & Hk & Ht)
          | [(r & created & Hu & Hin & _ & _ & _ & _ & Hd & Hk & Ht)
          | (r & Hu & Hin & Hh & Hn & Hs & _ & Hd & Hk & Ht)]]]]]);
    eexists; (split; [|shelve]); unfold advances;
    (split; [exact Ht|]); (split; [now rewrite Hp|]);
    (split; [intros q Hq; rewrite Hk; try destruct created;
             first [exact Hq | right; exact Hq]|]);
    (split; [intros id Hv; simpl in Hv; intuition discriminate|]);
    intros u Hin'; rewrite Hd in Hin'.
  - now left.
  - apply elem_of_union in Hin' as [Hx | Hx]; [|now left].
    apply elem_of_singleton in Hx as ->. right. exists p.
    split; [now rewrite Hk|]. left. now left.
  - now left.
  - now left.
  - now left.
  - apply elem_of_union in Hin' as [Hx | Hx]; [|now left].
    apply elem_of_singleton in Hx as ->. right. exists p.
    split; [rewrite Hk; now left|]. right. split; [right; now left|].
    exists (clock st), r. auto.
  Unshelve. all: reflexivity.
Qed.

Lemma find_res_zip_link_fields url st :
  let st' := snd (_find_res_zip_link w url st) in
  processed_competitions st' = processed_competitions st /\
  downloaded_files st' = downloaded_files st /\
  disk st' = disk st /\
  trace st' = (trace st ++ [Get url])%list.
Proof.
  unfold _find_res_zip_link.
  pose proof (make_request_fields url st) as (Hp & Hd & Hk & _ & Ht & _).
  destruct (_make_request w url st) as [[r|] st1]; cbn [fst snd] in *.
  - destruct (find is_res_link _); [|destruct (find is_zip_link _)];
      cbn [snd]; repeat split; assumption.
  - repeat split; assumption.
Qed.

Lemma process_competition_advances st c :
  id c ∉ processed_competitions st ->
  exists evs,
    advances w st evs (_process_competition w cfg st c) /\ saves evs = 0 /\
    processed_competitions (_process_competition w cfg st c) =
      {[ id c ]} ∪ processed_competitions st.
Proof.
  intros Hnew. unfold _process_competition.
  pose proof (find_res_zip_link_fields (url c) (emit (Visit (id c)) st))
    as (Hp & Hd & Hk & Ht).
  destruct (_find_res_zip_link w (url c) (emit (Visit (id c)) st))
    as [[[zip_url date_str]|] st1]; cbn [fst snd] in *.
  - destruct (download_file_advances zip_url (save_path_of cfg c date_str)
                (count one_more_res st1)) as (evs & Hadv & Hsaves).
    pose proof (download_file_cases zip_url (save_path_of cfg c date_str)
                  (count one_more_res st1)) as [Hp' _].
    destruct (_download_file w zip_url (save_path_of cfg c date_str)
                (count one_more_res st1)) as [ok st2]; cbn [fst snd] in *.
    exists ([Visit (id c); Get (url c)] ++ evs)%list.
    split; [|split].
    + assert (A1 : advances w st [Visit (id c); Get (url c)]
                     (count one_more_res st1)).
      { apply advances_quiet; cbn.
        - rewrite Ht. cbn. now rewrite <- app_assoc.
        - now rewrite Hp.
        - exact Hd.
        - exact Hk.
        - intros i [H | [H | []]]; [|discriminate]. now injection H as <-. }
      assert (A3 : advances w st2 [] (mark_processed (id c) st2)).
      { apply advances_quiet; cbn; try reflexivity;
          [symmetry; apply app_nil_r | apply union_subseteq_r | intros i []]. }
      pose proof (advances_trans _ _ _ _ _ _
                    (advances_trans _ _ _ _ _ _ A1 Hadv) A3) as H.
      rewrite app_nil_r in H. exact H.
    + rewrite saves_app, Hsaves. reflexivity.
    + cbn. rewrite Hp'. cbn. now rewrite Hp.
  - exists [Visit (id c); Get (url c); NoRes (id c)].
    split; [|split].
    + apply advances_quiet; cbn.
      * rewrite Ht. cbn. now rewrite <- !app_assoc.
      * rewrite Hp. cbn. apply union_subseteq_r.
      * exact Hd.
      * exact Hk.
      * intros i [H | [H | [H | []]]]; try discriminate. now injection H as <-.
    + reflexivity.
    + cbn. now rewrite Hp.
Qed.

Lemma process_all_advances competitions st :
  fresh st competitions ->
  exists evs,
    advances w st evs (fold_left (_process_competition w cfg) competitions st)
    /\ saves evs = 0.
Proof.
  revert st. induction competitions as [|c rest IH]; intros st [Hnew Hnd].
  - exists []. split; [apply advances_refl | reflexivity].
  - cbn [fold_left]. inversion Hnew as [|? ? Hc Hrest]; subst.
    cbn [map] in Hnd. apply NoDup_cons in Hnd as [Hnotin Hnd].
    destruct (process_competition_advances st c Hc) as (evs1 & H1 & Hs1 & Hp).
    destruct (IH (_process_competition w cfg st c)) as (evs2 & H2 & Hs2).
    { split; [|exact Hnd]. rewrite Hp.
      apply List.Forall_forall. intros c' Hin.
      rewrite List.Forall_forall in Hrest.
      intros Hx. apply elem_of_union in Hx as [Hx | Hx]; [|now apply (Hrest c')].
      apply elem_of_singleton in Hx. apply Hnotin. rewrite <- Hx.
      apply list_elem_of_In. apply in_map. exact Hin. }
    exists (evs1 ++ evs2)%list.
    split; [exact (advances_trans _ _ _ _ _ _ H1 H2)|].
    rewrite saves_app. lia.
Qed.

(** One turn of the page loop. *)
Lemma page_body_advances page consecutive_empty st :
  let competitions :=
    fst (_get_competitions_from_page w cfg page (emit (Page page) st)) in
  exists evs,
    advances w st evs (snd (page_body w cfg page consecutive_empty st)) /\
    saves evs = (match competitions with [] => 0 | _ => 1 end) /\
    (competitions <> [] ->
     let st' := snd (page_body w cfg page consecutive_empty st) in
     exists evs',
       evs = (evs' ++ [Saved (processed_competitions st')
                             (downloaded_files st')])%list).
Proof.
  unfold page_body.
  pose proof (get_competitions_fresh page (emit (Page page) st))
    as (Hf & Hp & Hd & Hk & Ht).
  destruct (_get_competitions_from_page w cfg page (emit (Page page) st))
    as [competitions st1]; cbn [fst snd] in *.
  assert (H1 : advances w st [Page page; Get (page_url page)]
                 (count one_more_page st1)).
  { apply advances_quiet; cbn; try assumption.
    - rewrite Ht. cbn. now rewrite <- app_assoc.
    - now rewrite Hp.
    - intros i [H | [H | []]]; discriminate. }
  destruct competitions as [|c rest].
  - destruct (0 <? _)%nat.
    + exists [Page page; Get (page_url page); AllDownloaded].
      split; [|split; [reflexivity | congruence]].
      change [Page page; Get (page_url page); AllDownloaded]
        with ([Page page; Get (page_url page)] ++ [AllDownloaded])%list.
      eapply advances_trans; [exact H1|].
      apply advances_quiet; cbn; try reflexivity.
      intros i [H | []]; discriminate.
    + destruct (3 <=? S consecutive_empty)%nat.
      * exists ([Page page; Get (page_url page)]
                  ++ [NoNew (S consecutive_empty); Stop])%list.
        split; [|split; [reflexivity | congruence]].
        eapply advances_trans; [exact H1|].
        apply advances_quiet; cbn; try reflexivity.
        -- now rewrite <- app_assoc.
        -- intros i [H | [H | []]]; discriminate.
      * exists ([Page page; Get (page_url page)]
                  ++ [NoNew (S consecutive_empty)])%list.
        split; [|split; [reflexivity | congruence]].
        eapply advances_trans; [exact H1|].
        apply advances_quiet; cbn; try reflexivity.
        intros i [H | []]; discriminate.
  - set (competitions := c :: rest) in *.
    set (st2 := count (more_found (length competitions))
                  (emit (Found (length competitions))
                     (count one_more_page st1))).
    assert (H2 : advances w (count one_more_page st1)
                   [Found (length competitions)] st2).
    { apply advances_quiet; cbn; try reflexivity.
      intros i [H | []]; discriminate. }
    assert (Hf2 : fresh st2 competitions).
    { unfold fresh in *. cbn. now rewrite Hp in *. }
    destruct (process_all_advances competitions st2 Hf2) as (evs3 & H3 & Hs3).
    set (st3 := fold_left (_process_competition w cfg) competitions st2) in *.
    exists (([Page page; Get (page_url page)] ++ [Found (length competitions)]
             ++ evs3)
            ++ [Saved (processed_competitions st3) (downloaded_files st3)])%list.
    cbn [snd]. split; [|split].
    + eapply advances_trans;
        [eapply advances_trans;
           [exact H1 | eapply advances_trans; [exact H2 | exact H3]]|].
      apply advances_quiet; cbn; try reflexivity.
      intros i [H | []]; discriminate.
    + rewrite !saves_app, Hs3. reflexivity.
    + intros _. eexists. reflexivity.
Qed.


Lemma page_loop_advances remaining page consecutive_empty st :
  exists evs,
    advances w st evs (page_loop w cfg remaining page consecutive_empty st).
Proof.
  revert page consecutive_empty st.
  induction remaining as [|n IH]; intros page ce st; cbn [page_loop].
  - exists []. apply advances_refl.
  - destruct (page_body_advances page ce st) as (evs1 & H1 & _).
    destruct (page_body w cfg page ce st) as [[ce'|] st1]; cbn [snd] in H1.
    + destruct (IH (page + 1)%Z ce' st1) as (evs2 & H2).
      exists (evs1 ++ evs2)%list. exact (advances_trans _ _ _ _ _ _ H1 H2).
    + now exists evs1.
Qed.

Lemma run_advances st :
  exists evs, advances w st evs (run w cfg st).
Proof.
  unfold run, _save_registry.
  destruct (page_loop_advances (Z.to_nat (max_pages cfg)) 1 0 st) as (evs & H).
  eexists. eapply advances_trans; [exact H|].
  apply advances_quiet; cbn; try reflexivity.
  intros i [Hi | []]; discriminate.
Qed.

End Steps.

(** C7. The page scan returns no competition whose identifier is in
    [processed_competitions], and from any state the page loop and the
    whole run enter [_process_competition] (the only place where a detail
    page is requested, scanned for an archive and downloaded) for no
    identifier that was in [processed_competitions] at the start. *)
Theorem processed_never_visited (w : world) (cfg : config) :
  (forall page st c,
      In c (fst (_get_competitions_from_page w cfg page st)) ->
      id c ∉ processed_competitions st) /\
  (forall remaining page consecutive_empty st,
      exists evs,
        trace (page_loop w cfg remaining page consecutive_empty st) =
          (trace st ++ evs)%list /\
        forall i, i ∈ processed_competitions st -> ~ In (Visit i) evs) /\
  (forall st,
      exists evs,
        trace (run w cfg st) = (trace st ++ evs)%list /\
        forall i, i ∈ processed_competitions st -> ~ In (Visit i) evs).
Proof.
  split; [|split].
  - intros page st c Hin.
    destruct (get_competitions_fresh w cfg page st) as [[Hnew _] _].
    rewrite List.Forall_forall in Hnew. now apply Hnew.
  - intros n page ce st.
    destruct (page_loop_advances w cfg n page ce st) as (evs & Ht & _ & _ & Hv & _).
    exists evs. split; [exact Ht|]. intros i Hi Hin. now apply (Hv i).
  - intros st.
    destruct (run_advances w cfg st) as (evs & Ht & _ & _ & Hv & _).
    exists evs. split; [exact Ht|]. intros i Hi Hin. now apply (Hv i).
Qed.

(** C4. A call of [_download_file] adds at most its own URL to
    [downloaded_files], and only when the target file was on disk or the
    transfer went through (an answer other than [text/html], the body
    written in full); a call that returns [False] without having found the
    file on disk leaves the set as it was.  Hence, from any state, every
    URL in [downloaded_files] after the page loop or the whole run was in
    the set at the start or has a file on disk that was found there
    ([OnDisk]) or written by a completed transfer ([Downloaded]). *)
Theorem downloaded_urls_accounted (w : world) (cfg : config) :
  (forall url p st,
      let ok := fst (_download_file w url p st) in
      let st' := snd (_download_file w url p st) in
      (forall u, u ∈ downloaded_files st' ->
                 u ∈ downloaded_files st \/
                 u = url /\ (p ∈ disk st \/
                             ok = true /\ transferred w url p /\ p ∈ disk st')) /\
      (ok = false -> p ∉ disk st -> downloaded_files st' = downloaded_files st)) /\
  (forall remaining page consecutive_empty st,
      let st' := page_loop w cfg remaining page consecutive_empty st in
      exists evs,
        trace st' = (trace st ++ evs)%list /\
        forall u, u ∈ downloaded_files st' ->
                  u ∈ downloaded_files st \/
                  exists p, (p ∈ disk st') /\
                            (In (OnDisk u p) evs \/
                             In (Downloaded u p) evs /\ transferred w u p)) /\
  (forall st,
      let st' := run w cfg st in
      exists evs,
        trace st' = (trace st ++ evs)%list /\
        forall u, u ∈ downloaded_files st' ->
                  u ∈ downloaded_files st \/
                  exists p, (p ∈ disk st') /\
                            (In (OnDisk u p) evs \/
                             In (Downloaded u p) evs /\ transferred w u p)).
Proof.
  split; [|split].
  - intros url p st ok st'. subst ok st'.
    destruct (download_file_cases w url p st) as
      (_ & [(Hu & Hok & Hd & _)
           | [(Hu & Hin & Hok & Hd & _)
           | [(Hu & Hin & _ & Hok & Hd & _)
           | [(r & Hu & Hin & _ & _ & Hok & Hd & _)
           | [(r & created & Hu & Hin & _ & _ & _ & Hok & Hd & _)
           | (r & Hu & Hin & Hh & Hn & Hs & Hok & Hd & Hk & _)]]]]]);
      rewrite Hd, Hok; (split; [|try tauto; try discriminate]).
    + now left.
    + intros u Hx. apply elem_of_union in Hx as [Hx | Hx]; [|now left].
      apply elem_of_singleton in Hx. right. split; [exact Hx | now left].
    + now left.
    + now left.
    + now left.
    + intros u Hx. apply elem_of_union in Hx as [Hx | Hx]; [|now left].
      apply elem_of_singleton in Hx. right. split; [exact Hx|]. right.
      split; [reflexivity|]. split; [now exists (clock st), r|].
      rewrite Hk. now left.
  - intros n page ce st st'. subst st'.
    destruct (page_loop_advances w cfg n page ce st) as (evs & Ht & _ & _ & _ & Hu).
    exists evs. split; [exact Ht | exact Hu].
  - intros st st'. subst st'.
    destruct (run_advances w cfg st) as (evs & Ht & _ & _ & _ & Hu).
    exists evs. split; [exact Ht | exact Hu].
Qed.

(** When the declared content type holds [text/html] as the code spells
    it, the call returns [False], no file is created and the URL is not
    added to [downloaded_files]. *)
Theorem html_answer_rejected (w : world) (url : string) (p : path)
        (st : scraper) (r : response) :
  url ∉ downloaded_files st -> p ∉ disk st ->
  http w (clock st) url = Some r -> declares_html r ->
  let ok := fst (_download_file w url p st) in
  let st' := snd (_download_file w url p st) in
  ok = false /\ disk st' = disk st /\ (p ∉ disk st') /\
  downloaded_files st' = downloaded_files st /\
  (url ∉ downloaded_files st').
Proof.
  intros Hu Hp Hh Hhtml ok st'. subst ok st'.
  destruct (download_file_cases w url p st) as
    (_ & [(Hu' & _)
         | [(_ & Hin & _)
         | [(_ & _ & Hnone & _)
         | [(r' & _ & _ & Hr & _ & Hok & Hd & Hk & _)
         | [(r' & created & _ & _ & Hr & Hn & _)
         | (r' & _ & _ & Hr & Hn & _)]]]]]);
    try contradiction; try congruence.
  rewrite Hok, Hd, Hk. repeat split; assumption.
Qed.

(** C8. An answer that declares HTML with its media type in capitals
    passes the test of [_download_file]: the call returns [True], the
    page is written to the target path and the URL is added to
    [downloaded_files], and a run over the site keeps the page as the
    competition's archive.  The same page declared in lower case is
    refused. *)
Theorem capital_html_answer_saved :
  let call :=
    _download_file Capitals.site Scenario.zip_url Capitals.target
      (init ∅ ∅ []) in
  let refused :=
    _download_file Scenario.login_site Scenario.zip_url Capitals.target
      (init ∅ ∅ []) in
  http Capitals.site 0 Scenario.zip_url = Some Capitals.error_page /\
  contains (chars "text/html")
    (lower (chars (content_type Capitals.error_page))) = true /\
  ~ declares_html Capitals.error_page /\
  fst call = true /\
  disk (snd call) = [Capitals.target] /\
  downloaded_files (snd call) = {[ Scenario.zip_url ]} /\
  files_downloaded (stats (snd call)) = 1 /\
  errors (stats (snd call)) = 0 /\
  disk (run Capitals.site (Scenario.config_of 1) (init ∅ ∅ [])) =
    [Capitals.target] /\
  fst refused = false /\ disk (snd refused) = [].
Proof.
  cbv zeta.
  split; [reflexivity|]. split; [vm_compute; reflexivity|].
  split; [unfold declares_html; vm_compute; discriminate|].
  split; [vm_compute; reflexivity|]. split; [vm_compute; reflexivity|].
  split; [vm_compute; reflexivity|]. split; [vm_compute; reflexivity|].
  split; [vm_compute; reflexivity|]. split; [vm_compute; reflexivity|].
  split; vm_compute; reflexivity.
Qed.

(** The scan of the season calendar finds the competition with season
    year 2025. *)
Example season_scan :
  fst (_get_competitions_from_page Scenario.season_site (Scenario.config_of 1) 1
         (init ∅ ∅ [])) = [Scenario.season_competition].
Proof. vm_compute. reflexivity. Qed.

Example season_run_disk :
  disk (run Scenario.season_site (Scenario.config_of 1) (init ∅ ∅ [])) =
  [["data"; "raw"; "FMN"; "natacion"; "2026"; "2026-01-31__Trofeo_25-26.zip"]].
Proof. vm_compute. reflexivity. Qed.

Example empty_run_trace :
  trace (run Scenario.empty_site (Scenario.config_of 1) (init ∅ ∅ [])) =
  [Page 1; Get CALENDAR_URL; NoNew 1; Saved ∅ ∅].
Proof. vm_compute. reflexivity. Qed.

Example first_run_pages :
  visited (trace (run Scenario.four_page_site (Scenario.config_of 9)
                    (init ∅ ∅ []))) = [1; 2; 3; 4; 5; 6; 7]%Z.
Proof. vm_compute. reflexivity. Qed.

Example first_run_registry :
  processed_competitions
    (run Scenario.four_page_site (Scenario.config_of 9) (init ∅ ∅ [])) =
  Scenario.after_first_run.
Proof. vm_compute. reflexivity. Qed.

(** C1. On a calendar whose pages 1 to 4 list one competition each and
    whose pages from 5 on list nothing, pages 5, 6 and 7 return no
    competition and skip no entry, whatever the state.  The first run
    stops after page 7.  The second run, started from the registry the
    first one left, requests pages 8 and 9 as well: the entries skipped on
    pages 1 to 4 keep [competitions_already_downloaded] above zero, so the
    empty pages reset the counter instead of incrementing it. *)
Theorem second_run_passes_page_7 :
  let w := Scenario.four_page_site in
  let cfg := Scenario.config_of 9 in
  (forall page st,
      In page [5; 6; 7]%Z ->
      fst (_get_competitions_from_page w cfg page st) = [] /\
      competitions_already_downloaded
        (stats (snd (_get_competitions_from_page w cfg page st))) =
      competitions_already_downloaded (stats st)) /\
  visited (trace (run w cfg (init ∅ ∅ []))) = [1; 2; 3; 4; 5; 6; 7]%Z /\
  visited (trace (run w cfg (init Scenario.after_first_run ∅ []))) =
    [1; 2; 3; 4; 5; 6; 7; 8; 9]%Z.
Proof.
  cbv zeta. split; [|split; [exact first_run_pages | vm_compute; reflexivity]].
  intros page st Hin.
  assert (Hblank : http Scenario.four_page_site (clock st) (page_url page) =
                   Some (Scenario.html Scenario.blank_page)).
  { destruct Hin as [<- | [<- | [<- | []]]]; vm_compute; reflexivity. }
  unfold _get_competitions_from_page, _make_request. rewrite Hblank.
  split; reflexivity.
Qed.

(** C2 as stated fails on a calendar without entries: one page is read
    and the only write is the final one. *)
Lemma empty_page_not_flushed :
  ~ flushed_after_every_page
      (trace (run Scenario.empty_site (Scenario.config_of 1) (init ∅ ∅ []))).
Proof.
  rewrite empty_run_trace. unfold flushed_after_every_page.
  vm_compute. discriminate.
Qed.

(** C2 (amended). A turn of the page loop writes the registry exactly
    when the page yielded new competitions, once, as its last step and
    with the sets as they then are; a turn whose page yielded none writes
    nothing.  The run ends with one more write. *)
Theorem registry_flushed_after_new_competitions (w : world) (cfg : config) :
  (forall page consecutive_empty st,
      let competitions :=
        fst (_get_competitions_from_page w cfg page (emit (Page page) st)) in
      let st' := snd (page_body w cfg page consecutive_empty st) in
      exists evs,
        trace st' = (trace st ++ evs)%list /\
        (competitions = [] -> saves evs = 0) /\
        (competitions <> [] ->
         saves evs = 1 /\
         exists evs',
           evs = (evs' ++ [Saved (processed_competitions st')
                                 (downloaded_files st')])%list)) /\
  (forall st,
      let st' := page_loop w cfg (Z.to_nat (max_pages cfg)) 1 0 st in
      trace (run w cfg st) =
        (trace st' ++ [Saved (processed_competitions st')
                             (downloaded_files st')])%list).
Proof.
  split; [|reflexivity].
  intros page ce st competitions st'. subst competitions st'.
  destruct (page_body_advances w cfg page ce st) as (evs & Hadv & Hs & Hlast).
  exists evs. split; [apply Hadv|]. split.
  - intros E. now rewrite E in Hs.
  - intros Hne. split; [|now apply Hlast].
    destruct (fst (_get_competitions_from_page w cfg page (emit (Page page) st)));
      [contradiction | exact Hs].
Qed.

(** C5. With a date extracted from the detail page, the file goes to
    the directory named after the year of the date, under the name
    date [__] sanitized title [.zip]; without one, to the directory of the
    season year, under the name season year [__] sanitized title [.zip].
    The date 2026-01-31 selects the directory 2026 whatever the season
    year, and a run over a calendar whose only competition has season year
    2025 and date 2026-01-31 stores its archive under 2026. *)
Theorem year_precedence (cfg : config) (c : competition) :
  (forall text d,
      _extract_date_from_page text = Some d ->
      exists year rest,
        chars d = (year ++ "-"%char :: rest)%list /\
        length year = 4%nat /\ Forall digit year /\
        save_path_of cfg c (Some d) =
          (output_base_dir cfg ++
             [pretty (decimal year);
              (d ++ "__" ++ _sanitize_filename (title c) ++ ".zip")%string])%list) /\
  save_path_of cfg c None =
    (output_base_dir cfg ++
       [pretty (season_year c);
        (pretty (season_year c) ++ "__" ++ _sanitize_filename (title c)
           ++ ".zip")%string])%list /\
  save_path_of cfg c (Some "2026-01-31") =
    (output_base_dir cfg ++
       ["2026";
        ("2026-01-31__" ++ _sanitize_filename (title c) ++ ".zip")%string])%list /\
  fst (_get_competitions_from_page Scenario.season_site (Scenario.config_of 1) 1
         (init ∅ ∅ [])) = [Scenario.season_competition] /\
  season_year Scenario.season_competition = 2025%Z /\
  disk (run Scenario.season_site (Scenario.config_of 1) (init ∅ ∅ [])) =
    [["data"; "raw"; "FMN"; "natacion"; "2026";
      "2026-01-31__Trofeo_25-26.zip"]].
Proof.
  refine (conj _ (conj eq_refl (conj eq_refl
            (conj season_scan (conj eq_refl season_run_disk))))).
  intros text d Hd.
  destruct (extract_date_first_phrase text) as [Hnone | Hsome]; [congruence|].
  destruct Hsome as (pre & rest & day & month & year & mm & _ & _ & _ & _ & He & Hiso).
  rewrite He in Hd. injection Hd as <-.
  destruct Hiso as (y & m & dd & Hchars & Hylen & Hy & _).
  exists y, (m ++ "-"%char :: dd)%list.
  refine (conj Hchars (conj Hylen (conj Hy _))).
  unfold save_path_of, destination, truthy.
  set (d := str year ++ "-" ++ mm ++ "-" ++ str (zfill2 day)) in *.
  assert (Hne : String.eqb d "" = false).
  { destruct d; [|reflexivity]. destruct y; discriminate. }
  rewrite Hne, Hchars, before_digits by exact Hy. reflexivity.
Qed.

(** The crawl theorems at concrete inputs. *)
Lemma processed_never_visited_witness :
  ("1" ∈ Scenario.after_first_run) /\
  ~ In (Visit "1")
       (trace (run Scenario.four_page_site (Scenario.config_of 9)
                 (init Scenario.after_first_run ∅ []))).
Proof.
  assert (Hin : "1" ∈ Scenario.after_first_run).
  { apply (bool_decide_unpack _). vm_compute. exact I. }
  split; [exact Hin|].
  destruct (processed_never_visited Scenario.four_page_site (Scenario.config_of 9))
    as (_ & _ & H).
  destruct (H (init Scenario.after_first_run ∅ [])) as (evs & Ht & Hv).
  change (trace (init Scenario.after_first_run ∅ [])) with (@nil event) in Ht.
  rewrite app_nil_l in Ht. rewrite Ht. exact (Hv "1" Hin).
Defined.

Lemma downloaded_urls_accounted_witness :
  fst (_download_file Scenario.login_site Scenario.zip_url ["data"; "a.zip"]
         (init ∅ ∅ [])) = false /\
  downloaded_files
    (snd (_download_file Scenario.login_site Scenario.zip_url ["data"; "a.zip"]
            (init ∅ ∅ []))) = ∅.
Proof.
  assert (Hok : fst (_download_file Scenario.login_site Scenario.zip_url
                       ["data"; "a.zip"] (init ∅ ∅ [])) = false)
    by (vm_compute; reflexivity).
  split; [exact Hok|].
  destruct (downloaded_urls_accounted Scenario.login_site (Scenario.config_of 1))
    as (H & _).
  destruct (H Scenario.zip_url ["data"; "a.zip"] (init ∅ ∅ [])) as (_ & Hfail).
  apply (Hfail Hok). apply not_elem_of_nil.
Defined.

Lemma html_answer_rejected_witness :
  declares_html (Scenario.html Scenario.blank_page) /\
  fst (_download_file Scenario.login_site Scenario.zip_url ["data"; "a.zip"]
         (init ∅ ∅ [])) = false /\
  disk (snd (_download_file Scenario.login_site Scenario.zip_url
               ["data"; "a.zip"] (init ∅ ∅ []))) = [].
Proof.
  assert (Hhtml : declares_html (Scenario.html Scenario.blank_page))
    by (vm_compute; reflexivity).
  split; [exact Hhtml|].
  destruct (html_answer_rejected Scenario.login_site Scenario.zip_url
              ["data"; "a.zip"] (init ∅ ∅ [])
              (Scenario.html Scenario.blank_page))
    as (Hok & Hdisk & _).
  - apply not_elem_of_empty.
  - apply not_elem_of_nil.
  - vm_compute. reflexivity.
  - exact Hhtml.
  - exact (conj Hok Hdisk).
Defined.

Lemma registry_flushed_after_new_competitions_witness :
  exists evs,
    trace (snd (page_body Scenario.empty_site (Scenario.config_of 1) 1 0
                  (init ∅ ∅ []))) = evs /\ saves evs = 0.
Proof.
  destruct (registry_flushed_after_new_competitions
              Scenario.empty_site (Scenario.config_of 1)) as (H & _).
  destruct (H 1%Z 0 (init ∅ ∅ [])) as (evs & Ht & Hnone & _).
  exists evs. split; [exact Ht|].
  apply Hnone. vm_compute. reflexivity.
Defined.

Lemma year_precedence_witness :
  _extract_date_from_page (get_text Scenario.detail_page) = Some "2026-01-31" /\
  exists year rest,
    chars "2026-01-31" = (year ++ "-"%char :: rest)%list /\
    save_path_of (Scenario.config_of 1) Scenario.season_competition
      (Some "2026-01-31") =
    (output_base_dir (Scenario.config_of 1) ++
       [pretty (decimal year);
        ("2026-01-31" ++ "__"
           ++ _sanitize_filename (title Scenario.season_competition)
           ++ ".zip")%string])%list.
Proof.
  assert (E : _extract_date_from_page (get_text Scenario.detail_page) =
              Some "2026-01-31") by (vm_compute; reflexivity).
  split; [exact E|].
  destruct (year_precedence (Scenario.config_of 1) Scenario.season_competition)
    as (H & _).
  destruct (H _ _ E) as (year & rest & Hc & _ & _ & Hp).
  exists year, rest. exact (conj Hc Hp).
Defined.

End CrawlerFacts.

(* ===================================================================== *)
(** ** Further properties of the scraper, numbered X1 onwards *)

Module SanitizeFacts.
Import Text Parsing ParsingSpec TextFacts ParsingFacts SanitizeSpec
       SanitizeSteps.

Lemma lstrip_head p l c t : lstrip p l = c :: t -> p c = false.
Proof.
  induction l as [|x l IH]; simpl; [discriminate|].
  destruct (p x) eqn:E; [exact IH|]. intros H. injection H as <- _. exact E.
Qed.

Lemma lstrip_nil p l : lstrip p l = [] <-> Forall (fun c => p c = true) l.
Proof.
  induction l as [|x l IH]; simpl.
  - split; [constructor | reflexivity].
  - destruct (p x) eqn:E.
    + rewrite IH. split; [now constructor | now inversion 1].
    + split; [discriminate|]. inversion 1; congruence.
Qed.

Lemma lstrip_id p l c t : l = c :: t -> p c = false -> lstrip p l = l.
Proof. intros -> H. simpl. now rewrite H. Qed.

Lemma rstrip_last p l t c : rstrip p l = (t ++ [c])%list -> p c = false.
Proof.
  unfold rstrip. intros H.
  apply (f_equal (@rev ascii)) in H. rewrite rev_involutive, rev_app_distr in H.
  simpl in H. now apply lstrip_head in H.
Qed.

Lemma rstrip_nil p l : rstrip p l = [] <-> Forall (fun c => p c = true) l.
Proof.
  unfold rstrip. split.
  - intros H. apply (f_equal (@rev ascii)) in H. rewrite rev_involutive in H.
    simpl in H. apply lstrip_nil in H. apply List.Forall_rev in H.
    now rewrite rev_involutive in H.
  - intros H. apply List.Forall_rev in H. apply lstrip_nil in H. now rewrite H.
Qed.

Lemma rstrip_prefix p l : exists b, l = (rstrip p l ++ b)%list.
Proof.
  unfold rstrip. destruct (lstrip_suffix p (rev l)) as [a H].
  exists (rev a). rewrite <- rev_app_distr, <- H. symmetry. apply rev_involutive.
Qed.

Lemma rstrip_id p l t c : l = (t ++ [c])%list -> p c = false -> rstrip p l = l.
Proof.
  intros -> H. unfold rstrip. rewrite rev_app_distr. simpl. rewrite H.
  simpl. now rewrite rev_involutive.
Qed.

Lemma strip_head p l c t : strip p l = c :: t -> p c = false.
Proof.
  unfold strip. intros H.
  destruct (rstrip_prefix p (lstrip p l)) as [b Hb]. rewrite H in Hb.
  simpl in Hb. now apply lstrip_head in Hb.
Qed.

Lemma strip_last p l t c : strip p l = (t ++ [c])%list -> p c = false.
Proof. unfold strip. apply rstrip_last. Qed.

Lemma strip_nil p l : strip p l = [] <-> Forall (fun c => p c = true) l.
Proof.
  unfold strip. rewrite rstrip_nil. split.
  - intros H. destruct (lstrip_suffix p l) as [a Ha].
    (* the stripped prefix consists of characters of the class *)
    assert (Hpre : forall l, exists a, l = (a ++ lstrip p l)%list /\
                                       Forall (fun c => p c = true) a).
    { clear. induction l as [|x l (a & IH & Hall)]; simpl.
      - exists []. split; [reflexivity | constructor].
      - destruct (p x) eqn:E.
        + exists (x :: a). split; [simpl; now rewrite <- IH | now constructor].
        + exists []. split; [reflexivity | constructor]. }
    destruct (Hpre l) as (a' & Heq & Hall). rewrite Heq.
    apply Forall_app. now split.
  - intros H. apply lstrip_nil in H. rewrite H. constructor.
Qed.

Lemma sanitize_chars_passes name :
  sanitize_chars name =
  let l := strip is_trim (passes name) in
  if (100 <? length l)%nat then firstn 100 l else l.
Proof. reflexivity. Qed.

Lemma squeeze_aux_Forall_iff (q p : ascii -> bool) b l :
  q "_"%char = true ->
  Forall (fun c => q c = true) (squeeze_aux p b l) ->
  Forall (fun c => p c || q c = true) l.
Proof.
  intros Hq. revert b. induction l as [|c l IH]; intros b; simpl; [constructor|].
  destruct (p c) eqn:E.
  - destruct b; intros H; constructor; try (now rewrite E);
      [eapply IH; exact H | inversion H; subst; eapply IH; eassumption].
  - intros H. inversion H; subst. constructor; [now rewrite E | eapply IH; eassumption].
Qed.

Lemma squeeze_aux_Forall_back (q p : ascii -> bool) b l :
  q "_"%char = true ->
  Forall (fun c => p c || q c = true) l ->
  Forall (fun c => q c = true) (squeeze_aux p b l).
Proof.
  intros Hq H. revert b. induction H as [|c l Hc Hl IH]; intros b; simpl;
    [constructor|].
  destruct (p c) eqn:E; [destruct b|]; auto.
Qed.

(** X1. The sanitized name is empty exactly when the name consists of
    characters that are replaced or trimmed. *)
Theorem sanitize_filename_empty (name : string) :
  _sanitize_filename name = "" <->
  Forall (fun c => is_junk c = true) (chars name).
Proof.
  unfold _sanitize_filename.
  assert (Hstr : forall l, str l = "" <-> l = []).
  { intros [|c l]; simpl; split; congruence. }
  rewrite Hstr, sanitize_chars_passes. cbv zeta.
  assert (Hlen : forall l : list ascii,
             (if (100 <? length l)%nat then firstn 100 l else l) = [] <-> l = []).
  { intros l. destruct (100 <? length l)%nat eqn:E; [|tauto].
    apply Nat.ltb_lt in E. destruct l; simpl in *; [lia|]. split; discriminate. }
  rewrite Hlen, strip_nil. unfold passes, squeeze, is_junk. split.
  - intros H.
    apply (squeeze_aux_Forall_iff is_trim is_underscore false) in H; [|reflexivity].
    assert (H1 : Forall (fun c => is_trim c = true)
                   (squeeze_aux is_space false
                      (map (fun c => if is_forbidden c then "_"%char else c)
                           (chars name)))).
    { eapply List.Forall_impl; [|exact H]. intros c Hc.
      unfold is_underscore in Hc. apply orb_true_iff in Hc as [Hc | Hc]; [|exact Hc].
      apply Ascii.eqb_eq in Hc. now subst c. }
    apply (squeeze_aux_Forall_iff is_trim is_space false) in H1; [|reflexivity].
    rewrite List.Forall_forall in *. intros c Hc.
    specialize (H1 (if is_forbidden c then "_"%char else c)
                   (in_map _ _ _ Hc)).
    destruct (is_forbidden c) eqn:E; [reflexivity|]. simpl. exact H1.
  - intros H.
    apply squeeze_aux_Forall_back; [reflexivity|].
    eapply List.Forall_impl with (P := fun c => is_trim c = true);
      [intros c Hc; now rewrite Hc, orb_true_r|].
    apply squeeze_aux_Forall_back; [reflexivity|].
    rewrite List.Forall_forall in *. intros c Hc.
    apply List.in_map_iff in Hc as (x & <- & Hx). specialize (H x Hx).
    destruct (is_forbidden x) eqn:E; [reflexivity|]. simpl in H. exact H.
Qed.

Lemma sanitize_chars_edges (name : list ascii) :
  let r := sanitize_chars name in
  (forall c t, r = c :: t -> is_trim c = false) /\
  ((length r < 100)%nat -> forall t c, r = (t ++ [c])%list -> is_trim c = false).
Proof.
  cbv zeta. rewrite sanitize_chars_passes.
  cbv zeta. set (l := strip is_trim (passes name)).
  assert (Hl : strip is_trim (passes name) = l) by reflexivity.
  split.
  - intros c t H. destruct (100 <? length l)%nat.
    + destruct l as [|x l']; [discriminate|]. simpl in H. injection H as -> _.
      now apply strip_head in Hl.
    + rewrite H in Hl. now apply strip_head in Hl.
  - destruct (100 <? length l)%nat eqn:E.
    + apply Nat.ltb_lt in E. rewrite length_firstn. lia.
    + intros _ t c H. rewrite H in Hl. now apply strip_last in Hl.
Qed.

Lemma squeeze_aux_none p b l :
  Forall (fun c => p c = false) l -> squeeze_aux p b l = l.
Proof.
  intros H. revert b. induction H as [|c l Hc Hl IH]; intros b; simpl;
    [reflexivity|]. now rewrite Hc, IH.
Qed.

Lemma squeeze_aux_single b l :
  single_underscores l ->
  (b = true -> forall r, l <> "_"%char :: r) ->
  squeeze_aux is_underscore b l = l.
Proof.
  revert b. induction l as [|c l IH]; intros b Hs Hb; simpl; [reflexivity|].
  assert (Hl : single_underscores l).
  { intros l1 l2 ->. now apply (Hs (c :: l1) l2). }
  unfold is_underscore at 1. destruct (Ascii.eqb c "_") eqn:E.
  - apply Ascii.eqb_eq in E. subst c. destruct b.
    + now exfalso; apply (Hb eq_refl l).
    + f_equal. apply IH; [exact Hl|]. intros _ r ->. now apply (Hs [] r).
  - f_equal. apply IH; [exact Hl | discriminate].
Qed.

Lemma last_cases (l : list ascii) : l = [] \/ exists t c, l = (t ++ [c])%list.
Proof.
  destruct (rev l) as [|c t] eqn:E.
  - left. apply (f_equal (@rev ascii)) in E. now rewrite rev_involutive in E.
  - right. exists (rev t), c. apply (f_equal (@rev ascii)) in E.
    now rewrite rev_involutive in E.
Qed.

(** A name that needs no change is returned as it is. *)
Lemma sanitize_chars_fixed (l : list ascii) :
  Forall (fun c => is_forbidden c = false /\ is_space c = false) l ->
  single_underscores l ->
  (forall c t, l = c :: t -> is_trim c = false) ->
  (forall t c, l = (t ++ [c])%list -> is_trim c = false) ->
  (length l <= 100)%nat ->
  sanitize_chars l = l.
Proof.
  intros Hclean Hs Hhead Hlast Hlen. unfold sanitize_chars.
  assert (E1 : map (fun c => if is_forbidden c then "_"%char else c) l = l).
  { clear - Hclean. induction Hclean as [|c l [Hc _] _ IH]; simpl;
      [reflexivity|]. now rewrite Hc, IH. }
  rewrite E1. unfold squeeze.
  rewrite (squeeze_aux_none is_space false l)
    by (eapply List.Forall_impl; [|exact Hclean]; now intros c [_ H]).
  rewrite squeeze_aux_single by (assumption || discriminate).
  assert (E2 : strip is_trim l = l).
  { unfold strip. destruct l as [|c t]; [reflexivity|].
    rewrite (lstrip_id is_trim (c :: t) c t eq_refl (Hhead c t eq_refl)).
    destruct (last_cases (c :: t)) as [H | (t' & c' & H)]; [discriminate|].
    apply (rstrip_id is_trim _ t' c' H). now apply (Hlast t' c'). }
  rewrite E2. destruct (100 <? length l)%nat eqn:E; [|reflexivity].
  apply Nat.ltb_lt in E. lia.
Qed.

(** X2. The sanitized name never starts with a dot, an underscore or a
    dash, and does not end with one unless it was cut at 100 characters. *)
Theorem sanitize_filename_edges (name : string) :
  let r := chars (_sanitize_filename name) in
  (forall c t, r = c :: t -> is_trim c = false) /\
  ((length r < 100)%nat -> forall t c, r = (t ++ [c])%list -> is_trim c = false).
Proof.
  unfold _sanitize_filename. cbv zeta. rewrite chars_str.
  exact (sanitize_chars_edges (chars name)).
Qed.

(** X3. Sanitizing twice is sanitizing once as long as the result is
    shorter than 100 characters; a name cut at 100 characters can lose a
    trailing underscore on the second pass. *)
Theorem sanitize_filename_idempotent :
  (forall name,
      (String.length (_sanitize_filename name) < 100)%nat ->
      _sanitize_filename (_sanitize_filename name) = _sanitize_filename name) /\
  _sanitize_filename (_sanitize_filename long_name) <>
    _sanitize_filename long_name.
Proof.
  split.
  - intros name Hlen. unfold _sanitize_filename in *.
    rewrite length_str in Hlen. rewrite chars_str. f_equal.
    destruct (sanitize_chars_edges (chars name)) as [Hhead Hlast].
    apply sanitize_chars_fixed.
    + apply sanitize_chars_clean.
    + apply sanitize_chars_underscores.
    + exact Hhead.
    + now apply Hlast.
    + lia.
  - vm_compute. discriminate.
Qed.

Lemma sanitize_filename_idempotent_witness :
  (String.length (_sanitize_filename " a?b ") < 100)%nat /\
  _sanitize_filename (_sanitize_filename " a?b ") = _sanitize_filename " a?b ".
Proof.
  assert (H : (String.length (_sanitize_filename " a?b ") < 100)%nat)
    by (vm_compute; lia).
  destruct sanitize_filename_idempotent as [Hidem _].
  exact (conj H (Hidem " a?b " H)).
Defined.

(** *** The sanitizer follows its steps *)

Lemma is_forbidden_unsafe c : is_forbidden c = true <-> In c unsafe_chars.
Proof.
  split.
  - unfold is_forbidden. intros H. apply existsb_exists in H as (n & Hn & Hc).
    apply N.eqb_eq in Hc. unfold code in Hc.
    assert (Hc' : c = ascii_of_N n) by (rewrite <- Hc; symmetry; apply ascii_N_embedding).
    subst c. cbn in Hn.
    repeat (destruct Hn as [<- | Hn]; [vm_compute; tauto|]). destruct Hn.
  - intros H. destruct (is_forbidden c) eqn:E; [reflexivity|].
    now apply is_forbidden_spec in E.
Qed.

Lemma map_replaced name :
  replaced name (map (fun c => if is_forbidden c then "_"%char else c) name).
Proof.
  induction name as [|c l IH]; [constructor|]. cbn [map].
  constructor; [|exact IH]. destruct (is_forbidden c) eqn:E.
  - left. split; [now apply is_forbidden_unsafe | reflexivity].
  - right. split; [now apply is_forbidden_spec | reflexivity].
Qed.

Lemma collapsed_ext (P Q : ascii -> Prop) l out :
  (forall c, P c <-> Q c) -> collapsed P l out -> collapsed Q l out.
Proof.
  intros H. induction 1 as [|c l out Hc _ IH|run l out Hne Hrun Hnext _ IH].
  - constructor.
  - constructor; [now rewrite <- H | exact IH].
  - constructor; [exact Hne | | | exact IH].
    + eapply List.Forall_impl; [|exact Hrun]. intros a. apply H.
    + destruct l; [exact I | now rewrite <- H].
Qed.

Lemma squeeze_aux_skip p l :
  squeeze_aux p true l = squeeze_aux p false (lstrip p l).
Proof.
  induction l as [|c l IH]; [reflexivity|]. cbn.
  destruct (p c) eqn:E; [exact IH|]. cbn. now rewrite E.
Qed.

Lemma lstrip_split p l :
  exists a, l = (a ++ lstrip p l)%list /\ Forall (fun c => p c = true) a /\
            match lstrip p l with [] => True | c :: _ => p c = false end.
Proof.
  induction l as [|c l (a & Heq & Ha & Hn)]; cbn.
  - exists []. repeat split. constructor.
  - destruct (p c) eqn:E.
    + exists (c :: a). cbn. rewrite <- Heq. repeat split; [|exact Hn].
      now constructor.
    + exists []. repeat split; [constructor | exact E].
Qed.

Lemma length_lstrip p l : (length (lstrip p l) <= length l)%nat.
Proof.
  induction l as [|c l IH]; cbn; [lia|]. destruct (p c); cbn; lia.
Qed.

Lemma squeeze_collapsed p l :
  collapsed (fun c => p c = true) l (squeeze p l).
Proof.
  unfold squeeze.
  assert (H : forall n l, (length l <= n)%nat ->
            collapsed (fun c => p c = true) l (squeeze_aux p false l)).
  { clear l. induction n as [|n IH]; intros l Hlen.
    - destruct l; [constructor | cbn in Hlen; lia].
    - destruct l as [|c l]; [constructor|]. cbn [squeeze_aux].
      destruct (p c) eqn:E.
      + rewrite squeeze_aux_skip.
        destruct (lstrip_split p l) as (a & Heq & Ha & Hn).
        rewrite Heq at 1.
        change (c :: a ++ lstrip p l)%list with ((c :: a) ++ lstrip p l)%list.
        constructor.
        * discriminate.
        * now constructor.
        * destruct (lstrip p l); [exact I | congruence].
        * apply IH. pose proof (length_lstrip p l). cbn in Hlen. lia.
      + constructor; [congruence|]. apply IH. cbn in Hlen. lia. }
  now apply (H (length l)).
Qed.

Lemma is_trim_chars c : is_trim c = true <-> In c trim_chars.
Proof.
  unfold is_trim, trim_chars. rewrite !orb_true_iff, !Ascii.eqb_eq. cbn.
  intuition congruence.
Qed.

Lemma rstrip_split p l :
  exists b, l = (rstrip p l ++ b)%list /\ Forall (fun c => p c = true) b.
Proof.
  unfold rstrip. destruct (lstrip_split p (rev l)) as (a & Heq & Ha & _).
  exists (rev a). split.
  - rewrite <- rev_app_distr, <- Heq. symmetry. apply rev_involutive.
  - apply List.Forall_forall. intros x Hx. apply in_rev in Hx.
    rewrite List.Forall_forall in Ha. now apply Ha.
Qed.

Lemma strip_trimmed p l :
  trimmed (fun c => p c = true) l (strip p l).
Proof.
  destruct (lstrip_split p l) as (a & Heq & Ha & _).
  destruct (rstrip_split p (lstrip p l)) as (b & Heq' & Hb).
  exists a, b. split; [|split; [exact Ha|split; [exact Hb|split]]].
  - unfold strip. rewrite Heq at 1. now rewrite Heq' at 1.
  - intros c t H. apply strip_head in H. congruence.
  - intros t c H. apply strip_last in H. congruence.
Qed.

Lemma trimmed_ext (P Q : ascii -> Prop) l out :
  (forall c, P c <-> Q c) -> trimmed P l out -> trimmed Q l out.
Proof.
  intros H (pre & post & Heq & Hpre & Hpost & Hh & Hl).
  exists pre, post. split; [exact Heq|].
  split; [eapply List.Forall_impl; [|exact Hpre]; intros a; apply H|].
  split; [eapply List.Forall_impl; [|exact Hpost]; intros a; apply H|].
  split.
  - intros c t E. rewrite <- H. now apply (Hh c t).
  - intros t c E. rewrite <- H. now apply (Hl t c).
Qed.

Lemma sanitize_chars_sanitized name : sanitized name (sanitize_chars name).
Proof.
  exists (map (fun c => if is_forbidden c then "_"%char else c) name).
  exists (squeeze is_space
            (map (fun c => if is_forbidden c then "_"%char else c) name)).
  exists (passes name), (strip is_trim (passes name)).
  split; [apply map_replaced|]. split; [apply squeeze_collapsed|].
  split.
  { apply (collapsed_ext (fun c => is_underscore c = true));
      [|apply squeeze_collapsed].
    intros c. unfold is_underscore. apply Ascii.eqb_eq. }
  split.
  { apply (trimmed_ext (fun c => is_trim c = true)); [|apply strip_trimmed].
    apply is_trim_chars. }
  rewrite sanitize_chars_passes. cbv zeta.
  destruct (100 <? length (strip is_trim (passes name)))%nat eqn:E;
    [reflexivity|].
  apply Nat.ltb_ge in E. symmetry. now apply firstn_all2.
Qed.

Lemma run_split_unique (P : ascii -> Prop) r1 l1 r2 l2 :
  Forall P r1 -> Forall P r2 ->
  match l1 with [] => True | c :: _ => ~ P c end ->
  match l2 with [] => True | c :: _ => ~ P c end ->
  (r1 ++ l1)%list = (r2 ++ l2)%list -> r1 = r2 /\ l1 = l2.
Proof.
  revert r2. induction r1 as [|a r1 IH]; intros r2 H1 H2 N1 N2 E.
  - destruct r2 as [|b r2]; [now split|]. cbn in E. subst l1.
    cbn in N1. inversion H2; subst. contradiction.
  - destruct r2 as [|b r2].
    + cbn in E. subst l2. cbn in N2. inversion H1; subst. contradiction.
    + cbn in E. injection E as <- E. inversion H1; inversion H2; subst.
      destruct (IH r2) as [-> ->]; auto.
Qed.

Lemma replaced_functional name o1 o2 :
  replaced name o1 -> replaced name o2 -> o1 = o2.
Proof.
  intros H1. revert o2.
  induction H1 as [|c c1 l o1 Hc _ IH]; intros o2 H2; inversion H2; subst;
    [reflexivity|].
  f_equal; [|now apply IH].
  match goal with H : _ \/ _ |- _ => destruct H as [[? ->] | [? ->]] end;
    destruct Hc as [[? ->] | [? ->]]; tauto.
Qed.

Lemma collapsed_functional P l o1 o2 :
  collapsed P l o1 -> collapsed P l o2 -> o1 = o2.
Proof.
  intros H1. revert o2.
  induction H1 as [|c l o1 Hc _ IH|run l o1 Hne Hrun Hnext _ IH];
    intros o2 H2.
  - remember [] as l0 eqn:E0.
    destruct H2 as [|c' l' o' Hc' H'|run' l' o' Hne' Hrun' Hnext' H'];
      [reflexivity | discriminate |].
    destruct run'; [congruence | discriminate].
  - remember (c :: l) as l0 eqn:E0.
    destruct H2 as [|c' l' o' Hc' H'|run' l' o' Hne' Hrun' Hnext' H'];
      [discriminate | |].
    + injection E0 as -> ->. f_equal. now apply IH.
    + destruct run' as [|a run']; [congruence|]. cbn in E0.
      injection E0 as -> _. inversion Hrun'; subst. contradiction.
  - remember (run ++ l)%list as l0 eqn:E0.
    destruct H2 as [|c' l' o' Hc' H'|run' l' o' Hne' Hrun' Hnext' H'].
    + destruct run; [congruence | discriminate].
    + destruct run as [|a run]; [congruence|]. cbn in E0.
      injection E0 as -> _. inversion Hrun; subst. contradiction.
    + destruct (run_split_unique P run' l' run l) as [-> ->]; auto.
      f_equal. now apply IH.
Qed.

Lemma trimmed_functional P l o1 o2 :
  trimmed P l o1 -> trimmed P l o2 -> o1 = o2.
Proof.
  intros (a1 & b1 & E1 & Ha1 & Hb1 & Hh1 & Hl1)
         (a2 & b2 & E2 & Ha2 & Hb2 & Hh2 & Hl2).
  assert (Hall : forall a b o c t,
            l = (a ++ [] ++ b)%list -> Forall P a -> Forall P b ->
            l = (a2 ++ o ++ b2)%list \/ l = (a1 ++ o ++ b1)%list ->
            o = c :: t -> ~ P c -> False).
  { intros a b o c t E Ha Hb Ho -> Hc. apply Hc.
    assert (Hin : In c l).
    { destruct Ho as [-> | ->]; apply in_or_app; right; now left. }
    rewrite E in Hin. cbn in Hin. apply in_app_or in Hin as [Hin | Hin];
      [rewrite List.Forall_forall in Ha | rewrite List.Forall_forall in Hb];
      auto. }
  destruct o1 as [|c1 t1], o2 as [|c2 t2]; [reflexivity| | |].
  - exfalso. apply (Hall a1 b1 (c2 :: t2) c2 t2); auto.
    now apply (Hh2 c2 t2).
  - exfalso. apply (Hall a2 b2 (c1 :: t1) c1 t1); auto.
    now apply (Hh1 c1 t1).
  - rewrite E1 in E2.
    destruct (run_split_unique P a1 ((c1 :: t1) ++ b1) a2 ((c2 :: t2) ++ b2))
      as [_ E]; auto.
    { cbn. now apply (Hh1 c1 t1). }
    { cbn. now apply (Hh2 c2 t2). }
    apply (f_equal (@rev ascii)) in E. rewrite !rev_app_distr in E.
    destruct (last_cases (c1 :: t1)) as [|(s1 & x1 & X1)]; [discriminate|].
    destruct (last_cases (c2 :: t2)) as [|(s2 & x2 & X2)]; [discriminate|].
    rewrite X1, X2 in E. rewrite !rev_app_distr in E. cbn [rev app] in E.
    destruct (run_split_unique P (rev b1) (x1 :: rev s1) (rev b2) (x2 :: rev s2))
      as [_ E']; auto.
    + apply List.Forall_forall. intros x Hx. apply in_rev in Hx.
      rewrite List.Forall_forall in Hb1. auto.
    + apply List.Forall_forall. intros x Hx. apply in_rev in Hx.
      rewrite List.Forall_forall in Hb2. auto.
    + now apply (Hl1 s1 x1).
    + now apply (Hl2 s2 x2).
    + rewrite X1, X2. injection E' as -> E'.
      apply (f_equal (@rev ascii)) in E'. rewrite !rev_involutive in E'.
      now subst.
Qed.

Lemma sanitized_functional name o1 o2 :
  sanitized name o1 -> sanitized name o2 -> o1 = o2.
Proof.
  intros (a1 & b1 & c1 & d1 & Ha1 & Hb1 & Hc1 & Hd1 & ->)
         (a2 & b2 & c2 & d2 & Ha2 & Hb2 & Hc2 & Hd2 & ->).
  pose proof (replaced_functional _ _ _ Ha1 Ha2) as <-.
  pose proof (collapsed_functional _ _ _ _ Hb1 Hb2) as <-.
  pose proof (collapsed_functional _ _ _ _ Hc1 Hc2) as <-.
  now pose proof (trimmed_functional _ _ _ _ Hd1 Hd2) as <-.
Qed.

(** C10. For every name, the sanitized name has at most 100 characters,
    contains none of the characters less-than, greater-than, colon,
    double quote, slash, backslash, bar, question mark and star,
    contains no whitespace character and never has two underscores in a
    row; it is what is left of the name after every unsafe character is
    replaced by an underscore, every run of whitespace and then every
    run of underscores is collapsed to a single underscore, the dots,
    underscores and dashes at both ends are removed and the first 100
    characters are kept, and nothing else is. *)
Theorem sanitize_filename_bounds (name : string) :
  let r := _sanitize_filename name in
  (String.length r <= 100)%nat /\
  (forall c, In c (chars r) -> ~ In c unsafe_chars /\ is_space c = false) /\
  single_underscores (chars r) /\
  sanitized (chars name) (chars r) /\
  (forall out, sanitized (chars name) out -> out = chars r).
Proof.
  unfold _sanitize_filename. cbv zeta. rewrite length_str, chars_str.
  split; [apply sanitize_chars_length|].
  split; [|split; [apply sanitize_chars_underscores|]].
  - intros c Hc.
    pose proof (sanitize_chars_clean (chars name)) as H.
    rewrite List.Forall_forall in H. destruct (H c Hc) as [H1 H2].
    split; [now apply is_forbidden_spec | exact H2].
  - split; [apply sanitize_chars_sanitized|].
    intros out Hout.
    exact (sanitized_functional _ _ _ Hout (sanitize_chars_sanitized _)).
Qed.

Lemma sanitize_filename_bounds_witness :
  _sanitize_filename " A  B?c_ " = "A_B_c" /\
  sanitized (chars " A  B?c_ ") (chars "A_B_c") /\
  ~ sanitized (chars " A  B?c_ ") (chars "AB_c") /\
  ~ sanitized (chars " A  B?c_ ") [].
Proof.
  destruct (sanitize_filename_bounds " A  B?c_ ") as (_ & _ & _ & Hs & Hu).
  assert (E : _sanitize_filename " A  B?c_ " = "A_B_c") by reflexivity.
  rewrite E in Hs, Hu.
  split; [exact E|]. split; [exact Hs|].
  split; intros H; apply Hu in H; discriminate H.
Defined.

End SanitizeFacts.

Module ParsingMore.
Import Text Parsing ParsingSpec DateSpec TextFacts ParsingFacts.

Lemma digit_value_range c : is_digit c = true -> (0 <= digit_value c <= 9)%Z.
Proof.
  destruct c as [[] [] [] [] [] [] [] []]; vm_compute;
    intros H; try discriminate H; split; discriminate.
Qed.

(** X4. The inferred year lies between 2000 and 2099 or is the current
    year; a four-digit year of another century in the title is ignored. *)
Theorem extract_year_range (start_year end_year now_year : Z) (text : string) :
  let year := _extract_year_from_text start_year end_year now_year text in
  (2000 <= year <= 2099)%Z \/ year = now_year.
Proof.
  cbv zeta. unfold _extract_year_from_text, extract_year_chars.
  assert (Hfall :
    (2000 <= match search match_year20 (chars text) with
             | Some g => decimal g | None => now_year end <= 2099)%Z \/
    match search match_year20 (chars text) with
    | Some g => decimal g | None => now_year end = now_year).
  { destruct (search match_year20 (chars text)) as [g|] eqn:E; [|now right].
    left. apply search_found in E as (pre & rest & _ & Hm & _).
    apply match_year20_sound in Hm as (c & d & tl & _ & Hc & Hd & ->).
    apply digit_value_range in Hc, Hd. lia. }
  destruct (search match_season (chars text)) as [g|] eqn:E; [|exact Hfall].
  destruct (_ && _)%bool; [|exact Hfall].
  left. apply search_found in E as (pre & rest & _ & Hm & _).
  apply match_season_sound in Hm as (a & b & c & d & tl & _ & Ha & Hb & _ & _ & Hv).
  unfold season_value in Hv. apply digit_value_range in Ha, Hb. lia.
Qed.

(** X5. The first phrase of the text decides the date: its month name,
    lower-cased, is looked up in [months_es] and an unknown name gives no
    date even when a later phrase is complete; a text without the phrase
    gives no date. *)
Theorem extract_date_first_phrase_decides (text : string) :
  (forall pre rest day month year,
      chars text = (pre ++ rest)%list ->
      phrase_here rest day month year ->
      (forall pre' rest' d m y,
          chars text = (pre' ++ rest')%list ->
          (length pre' < length pre)%nat -> ~ phrase_here rest' d m y) ->
      _extract_date_from_page text =
        match dict_get months_es (str (lower month)) with
        | Some mm => Some (str year ++ "-" ++ mm ++ "-" ++ str (zfill2 day))
        | None => None
        end) /\
  ((forall pre rest d m y,
       chars text = (pre ++ rest)%list -> ~ phrase_here rest d m y) ->
   _extract_date_from_page text = None).
Proof.
  split.
  - intros pre rest day month year Heq Hp Hmin.
    unfold _extract_date_from_page. rewrite Heq.
    rewrite (search_leftmost match_date pre rest (day, month, year)).
    + reflexivity.
    + now apply match_date_complete.
    + intros pre' rest' Heq' Hlt.
      destruct (match_date rest') as [[[d m] y]|] eqn:E; [|reflexivity].
      exfalso. apply match_date_sound in E.
      apply (Hmin pre' rest' d m y); [now rewrite Heq | exact Hlt | exact E].
  - intros Hno. unfold _extract_date_from_page.
    destruct (search match_date (chars text)) as [[[d m] y]|] eqn:E; [|reflexivity].
    exfalso. apply search_found in E as (pre & rest & Heq & Hm & _).
    apply match_date_sound in Hm. exact (Hno pre rest d m y Heq Hm).
Qed.

Lemma extract_date_first_phrase_decides_witness :
  phrase_here (chars two_phrases) (chars "1") (chars "xyz") (chars "2020") /\
  _extract_date_from_page two_phrases = None.
Proof.
  assert (Hp : phrase_here (chars two_phrases) (chars "1") (chars "xyz")
                 (chars "2020")).
  { exists (chars " "), (chars "de"), (chars " "), (chars " "), (chars "de"),
      (chars " "), (chars ", 2 de enero de 2021").
    unfold blank, de, digit, word, space.
    repeat split; try discriminate; try (left; reflexivity);
      try (repeat constructor).
    - exists "d"%char, "e"%char. repeat split; now left.
    - exists "d"%char, "e"%char. repeat split; now left. }
  split; [exact Hp|].
  destruct (extract_date_first_phrase_decides two_phrases) as [H _].
  apply (H [] (chars two_phrases) (chars "1") (chars "xyz") (chars "2020")
           eq_refl Hp).
  intros pre' rest' d m y _ Hlt. simpl in Hlt. lia.
Defined.

End ParsingMore.

Module LedgerFacts.
Import Text Parsing Crawler CrawlerSpec LedgerSpec TextFacts CrawlerFacts.

#[local] Arguments chars : simpl never.
#[local] Arguments scan_link : simpl never.
#[local] Arguments _make_request : simpl never.
#[local] Arguments _get_competitions_from_page : simpl never.
#[local] Arguments _find_res_zip_link : simpl never.
#[local] Arguments _download_file : simpl never.
#[local] Arguments _process_competition : simpl never.
#[local] Arguments page_body : simpl never.

Lemma visits_app a b : visits (a ++ b) = (visits a ++ visits b)%list.
Proof. apply flat_map_app. Qed.

Lemma downloads_app a b : downloads (a ++ b) = (downloads a ++ downloads b)%list.
Proof. apply flat_map_app. Qed.

Lemma founds_app a b : founds (a ++ b) = founds a + founds b.
Proof. unfold founds. now rewrite map_app, list_sum_app. Qed.

Lemma gets_app a b : gets (a ++ b) = gets a + gets b.
Proof. unfold gets. now rewrite List.filter_app, length_app. Qed.

Lemma skips_app a b : skips (a ++ b) = skips a + skips b.
Proof. unfold skips. now rewrite List.filter_app, length_app. Qed.

Lemma pages_app a b : pages (a ++ b) = pages a + pages b.
Proof. unfold pages. now rewrite List.filter_app, length_app. Qed.

Lemma ledger_refl w st : ledger w st [] st.
Proof.
  unfold ledger. cbn. rewrite app_nil_r, (left_id_L ∅ (∪)).
  repeat split; try constructor; try lia; try tauto; try reflexivity.
Qed.

Lemma ledger_trans w st1 evs1 st2 evs2 st3 :
  ledger w st1 evs1 st2 -> ledger w st2 evs2 st3 ->
  ledger w st1 (evs1 ++ evs2) st3.
Proof.
  intros (T1 & P1 & N1 & V1 & D1 & M1 & U1 & S1 & F1 & K1 & G1 & C1 & L1 & E1 & H1)
         (T2 & P2 & N2 & V2 & D2 & M2 & U2 & S2 & F2 & K2 & G2 & C2 & L2 & E2 & H2).
  unfold ledger.
  rewrite visits_app, downloads_app, founds_app, gets_app, skips_app, pages_app,
    length_app.
  split; [now rewrite T2, T1, app_assoc|].
  split; [rewrite P2, P1, list_to_set_app_L; apply set_eq; intros x;
          rewrite !elem_of_union; tauto|].
  assert (Hv2 : forall i, In i (visits evs2) ->
                          (i ∉ processed_competitions st1) /\
                          ~ In i (visits evs1)).
  { intros i Hi. apply V2 in Hi. rewrite P1 in Hi. split.
    - intros Hx. apply Hi. apply elem_of_union. now right.
    - intros Hx. apply Hi. apply elem_of_union. left.
      apply elem_of_list_to_set. now apply list_elem_of_In. }
  split.
  { apply NoDup_app. split; [exact N1|]. split; [|exact N2].
    intros i Hi Hi'. apply list_elem_of_In in Hi, Hi'.
    now apply (Hv2 i Hi'). }
  split.
  { intros i Hi. apply in_app_or in Hi as [Hi | Hi]; [now apply V1|].
    now apply Hv2. }
  split; [now transitivity (downloaded_files st2)|].
  split.
  { apply NoDup_app. split; [exact M1|]. split; [|exact M2].
    intros u Hu Hu'. apply list_elem_of_In in Hu, Hu'.
    apply U1 in Hu as [_ Hu]. apply U2 in Hu' as [Hu' _]. contradiction. }
  split.
  { intros u Hu. apply in_app_or in Hu as [Hu | Hu].
    - destruct (U1 u Hu) as [Ha Hb]. split; [exact Ha | now apply D2].
    - destruct (U2 u Hu) as [Ha Hb]. split; [|exact Hb].
      intros Hx. apply Ha. now apply D1. }
  repeat split; try lia.
  intros Hh. rewrite (H2 Hh). now apply H1.
Qed.

(** A step that changes neither set and logs no visit or transfer. *)
Lemma ledger_silent w st evs st' :
  trace st' = (trace st ++ evs)%list ->
  visits evs = [] -> downloads evs = [] ->
  processed_competitions st' = processed_competitions st ->
  downloaded_files st' = downloaded_files st ->
  (competitions_already_downloaded (stats st) <=
     competitions_already_downloaded (stats st'))%nat ->
  files_downloaded (stats st') = files_downloaded (stats st) ->
  files_skipped (stats st') = (files_skipped (stats st) + skips evs)%nat ->
  pages_scraped (stats st') = (pages_scraped (stats st) + pages evs)%nat ->
  competitions_found (stats st') =
    (competitions_found (stats st) + founds evs)%nat ->
  clock st' = (clock st + gets evs)%nat ->
  (errors (stats st) <= errors (stats st'))%nat ->
  (healthy w -> errors (stats st') = errors (stats st)) ->
  ledger w st evs st'.
Proof.
  intros T V D P F S1 F1 K1 G1 C1 L1 E1 H1. unfold ledger.
  rewrite V, D, P, F, F1. cbn. rewrite (left_id_L ∅ (∪)).
  repeat split; try constructor; try assumption; try lia; try tauto;
    reflexivity.
Qed.

Section LedgerSteps.
Variable w : world.
Variable cfg : config.

Lemma make_request_ledger url st :
  ledger w st [Get url] (snd (_make_request w url st)).
Proof.
  unfold _make_request. destruct (http w (clock st) url) eqn:E; cbn [snd];
    apply ledger_silent; cbn; try reflexivity; try lia.
  intros [Hh _]. now apply Hh in E.
Qed.

Lemma make_request_answer url st :
  fst (_make_request w url st) = http w (clock st) url.
Proof. unfold _make_request. now destruct (http w (clock st) url). Qed.

Lemma scan_link_ledger competitions st link :
  ledger w st [] (snd (scan_link w cfg (competitions, st) link)).
Proof.
  unfold scan_link.
  destruct (negb _); [apply ledger_refl|].
  destruct (search match_competition _) as [g1|]; [|apply ledger_refl].
  destruct (bool_decide _).
  { cbn [snd]. apply ledger_silent; cbn; try reflexivity; try lia.
    now rewrite app_nil_r. }
  destruct (_ <? _)%nat; [apply ledger_refl|].
  destruct (negb _); [apply ledger_refl|].
  destruct (existsb _ competitions); apply ledger_refl.
Qed.

Lemma scan_links_ledger links competitions st :
  ledger w st [] (snd (fold_left (scan_link w cfg) links (competitions, st))).
Proof.
  revert competitions st. induction links as [|link links IH];
    intros competitions st; cbn [fold_left]; [apply ledger_refl|].
  pose proof (scan_link_ledger competitions st link) as H1.
  destruct (scan_link w cfg (competitions, st) link) as [competitions' st'].
  cbn [snd] in H1.
  exact (ledger_trans _ _ _ _ _ _ H1 (IH competitions' st')).
Qed.

Lemma get_competitions_ledger page st :
  ledger w st [Get (page_url page)]
    (snd (_get_competitions_from_page w cfg page st)).
Proof.
  unfold _get_competitions_from_page.
  pose proof (make_request_ledger (page_url page) st) as H1.
  destruct (_make_request w (page_url page) st) as [[r|] st1]; cbn [snd] in *;
    [|exact H1].
  pose proof (scan_links_ledger (links (parsed r)) [] st1) as H2.
  pose proof (ledger_trans _ _ _ _ _ _ H1 H2) as H.
  now rewrite app_nil_r in H.
Qed.

Lemma find_res_zip_link_ledger url st :
  ledger w st [Get url] (snd (_find_res_zip_link w url st)).
Proof.
  unfold _find_res_zip_link.
  pose proof (make_request_ledger url st) as H1.
  destruct (_make_request w url st) as [[r|] st1]; cbn [snd] in *;
    [|exact H1].
  destruct (find is_res_link _); [exact H1|].
  destruct (find is_zip_link _); exact H1.
Qed.

Lemma download_file_ledger url p st :
  exists evs,
    ledger w st evs (snd (_download_file w url p st)) /\
    visits evs = [] /\ founds evs = 0 /\ pages evs = 0 /\ saves evs = 0.
Proof.
  unfold _download_file.
  destruct (bool_decide (url ∈ downloaded_files st)) eqn:Eu.
  { exists [Known url]. split; [|repeat split].
    apply ledger_silent; cbn; try reflexivity; lia. }
  apply bool_decide_eq_false in Eu.
  destruct (bool_decide (p ∈ disk st)) eqn:Ep.
  { exists [OnDisk url p]. split; [|repeat split].
    unfold ledger. cbn. rewrite (left_id_L ∅ (∪)).
    repeat split; try constructor; try lia; try tauto.
    apply union_subseteq_r. }
  unfold _make_request.
  destruct (http w (clock st) url) as [r|] eqn:Eh.
  2:{ exists [Get url]. split; [|repeat split].
      apply ledger_silent; cbn; try reflexivity; try lia.
      intros [Hh _]. now apply Hh in Eh. }
  destruct (contains (chars "text/html") (chars (content_type r))).
  { exists [Get url; NotZip url]. split; [|repeat split].
    apply ledger_silent; cbn; try reflexivity; try lia.
    now rewrite <- app_assoc. }
  cbn [clock tick emit].
  destruct (storage w (S (clock st)) p) as [|created] eqn:Es.
  - exists [Get url; Downloaded url p]. split; [|repeat split].
    unfold ledger. cbn. rewrite (left_id_L ∅ (∪)), <- app_assoc.
    split; [reflexivity|]. split; [reflexivity|].
    split; [constructor|]. split; [tauto|].
    split; [apply union_subseteq_r|].
    split; [apply NoDup_singleton|].
    split.
    { intros u [<- | []]. split; [exact Eu|].
      apply elem_of_union. left. now apply elem_of_singleton. }
    repeat split; lia.
  - exists [Get url; SaveError url p]. split; [|repeat split].
    assert (Hbad : healthy w -> False).
    { intros [_ Hs]. rewrite Hs in Es. discriminate. }
    destruct created; apply ledger_silent; cbn; try reflexivity; try lia;
      try tauto; now rewrite <- app_assoc.
Qed.

Lemma ledger_visit i st evs st1 :
  ledger w (emit (Visit i) st) evs st1 ->
  visits evs = [] -> i ∉ processed_competitions st ->
  ledger w st (Visit i :: evs) (mark_processed i st1).
Proof.
  intros (T & P & _ & _ & D & M & U & S1 & F1 & K1 & G1 & C1 & L1 & E1 & H1) V Hi.
  rewrite V in P. cbn in T, P, D, U, S1, F1, K1, G1, C1, L1, E1, H1.
  rewrite (left_id_L ∅ (∪)) in P.
  unfold ledger.
  change (Visit i :: evs) with ([Visit i] ++ evs)%list.
  rewrite visits_app, downloads_app, founds_app, gets_app, skips_app,
    pages_app, V.
  change (visits [Visit i]) with [i].
  change (downloads [Visit i]) with (@nil string).
  change (founds [Visit i]) with 0. change (gets [Visit i]) with 0.
  change (skips [Visit i]) with 0. change (pages [Visit i]) with 0.
  cbn [app mark_processed processed_competitions downloaded_files stats
       trace clock Nat.add].
  rewrite P, T, <- app_assoc.
  split; [reflexivity|].
  split; [cbn; now rewrite (right_id_L ∅ (∪))|].
  split; [apply NoDup_singleton|].
  split; [now intros j [<- | []]|].
  repeat split; try assumption; apply U; assumption.
Qed.

Lemma process_competition_ledger st c :
  id c ∉ processed_competitions st ->
  exists evs,
    ledger w st evs (_process_competition w cfg st c) /\
    visits evs = [id c] /\ founds evs = 0 /\ pages evs = 0 /\ saves evs = 0.
Proof.
  intros Hnew. unfold _process_competition.
  pose proof (find_res_zip_link_ledger (url c) (emit (Visit (id c)) st)) as H1.
  destruct (_find_res_zip_link w (url c) (emit (Visit (id c)) st))
    as [[[zip_url date_str]|] st1]; cbn [snd] in H1.
  - destruct (download_file_ledger zip_url (save_path_of cfg c date_str)
                (count one_more_res st1)) as (evs & H3 & V3 & F3 & G3 & S3).
    destruct (_download_file w zip_url (save_path_of cfg c date_str)
                (count one_more_res st1)) as [ok st2]; cbn [snd] in H3.
    assert (H2 : ledger w st1 [] (count one_more_res st1)).
    { apply ledger_silent; cbn; try reflexivity; try lia. now rewrite app_nil_r. }
    pose proof (ledger_trans _ _ _ _ _ _ (ledger_trans _ _ _ _ _ _ H1 H2) H3) as H.
    exists ([Visit (id c); Get (url c)] ++ evs)%list.
    split.
    + change ([Visit (id c); Get (url c)] ++ evs)%list
        with (Visit (id c) :: ([Get (url c)] ++ []) ++ evs)%list.
      apply ledger_visit; [exact H | | exact Hnew].
      rewrite visits_app. exact V3.
    + rewrite visits_app, founds_app, pages_app, saves_app, V3, F3, G3, S3.
      repeat split.
  - assert (H2 : ledger w st1 [NoRes (id c)] (emit (NoRes (id c)) st1)).
    { apply ledger_silent; cbn; try reflexivity; lia. }
    pose proof (ledger_trans _ _ _ _ _ _ H1 H2) as H.
    exists (Visit (id c) :: [Get (url c)] ++ [NoRes (id c)])%list.
    split; [apply ledger_visit; [exact H | reflexivity | exact Hnew]|].
    repeat split.
Qed.

Lemma process_all_ledger competitions st :
  fresh st competitions ->
  exists evs,
    ledger w st evs (fold_left (_process_competition w cfg) competitions st) /\
    visits evs = map id competitions /\
    founds evs = 0 /\ pages evs = 0 /\ saves evs = 0.
Proof.
  revert st. induction competitions as [|c rest IH]; intros st [Hnew Hnd].
  - exists []. split; [apply ledger_refl | repeat split].
  - cbn [fold_left]. inversion Hnew as [|? ? Hc Hrest]; subst.
    cbn [map] in Hnd. apply NoDup_cons in Hnd as [Hnotin Hnd].
    destruct (process_competition_ledger st c Hc)
      as (evs1 & H1 & V1 & F1 & G1 & S1).
    destruct (IH (_process_competition w cfg st c))
      as (evs2 & H2 & V2 & F2 & G2 & S2).
    { split; [|exact Hnd].
      destruct H1 as (_ & P & _). rewrite P, V1.
      apply List.Forall_forall. intros c' Hin.
      rewrite List.Forall_forall in Hrest.
      intros Hx. apply elem_of_union in Hx as [Hx | Hx];
        [|now apply (Hrest c')].
      apply elem_of_list_to_set, list_elem_of_In in Hx.
      destruct Hx as [Hx | []]. apply Hnotin. rewrite Hx.
      apply list_elem_of_In. apply in_map. exact Hin. }
    exists (evs1 ++ evs2)%list.
    split; [exact (ledger_trans _ _ _ _ _ _ H1 H2)|].
    rewrite visits_app, founds_app, pages_app, saves_app, V1, V2, F1, F2, G1, G2,
      S1, S2.
    repeat split.
Qed.

Lemma ledger_page p st evs st1 :
  ledger w (emit (Page p) st) evs st1 ->
  ledger w st (Page p :: evs) (count one_more_page st1).
Proof.
  intros (T & P & N & V & D & M & U & S1 & F1 & K1 & G1 & C1 & L1 & E1 & H1).
  cbn in T, P, V, D, U, S1, F1, K1, G1, C1, L1, E1, H1.
  unfold ledger.
  change (Page p :: evs) with ([Page p] ++ evs)%list.
  rewrite visits_app, downloads_app, founds_app, gets_app, skips_app, pages_app.
  change (visits [Page p]) with (@nil string).
  change (downloads [Page p]) with (@nil string).
  change (founds [Page p]) with 0. change (gets [Page p]) with 0.
  change (skips [Page p]) with 0. change (pages [Page p]) with 1.
  cbn [app count one_more_page processed_competitions downloaded_files stats
       trace clock Nat.add pages_scraped competitions_found files_downloaded
       files_skipped errors competitions_already_downloaded].
  rewrite T, <- app_assoc.
  repeat split; try assumption; try lia; apply U; assumption.
Qed.

Lemma visited_of_pages evs : pages evs = 0 -> visited evs = [].
Proof.
  unfold pages, visited. induction evs as [|e evs IH]; [reflexivity|].
  destruct e; cbn; try exact IH. discriminate.
Qed.

Lemma visited_app a b : visited (a ++ b) = (visited a ++ visited b)%list.
Proof. apply flat_map_app. Qed.

Lemma pages_from_S page k :
  pages_from page (S k) = page :: pages_from (page + 1) k.
Proof.
  unfold pages_from. cbn [seq map]. f_equal; [lia|].
  rewrite <- seq_shift, map_map. apply map_ext. intros i. lia.
Qed.

(** One turn of the page loop, in the ledger. *)
Lemma page_body_ledger page consecutive_empty st :
  exists evs,
    ledger w st evs (snd (page_body w cfg page consecutive_empty st)) /\
    visited evs = [page] /\ founds evs = length (visits evs).
Proof.
  unfold page_body.
  pose proof (get_competitions_ledger page (emit (Page page) st)) as H1.
  pose proof (get_competitions_fresh w cfg page (emit (Page page) st))
    as (Hf & Hp & _).
  destruct (_get_competitions_from_page w cfg page (emit (Page page) st))
    as [competitions st1]; cbn [fst snd] in *.
  apply ledger_page in H1.
  destruct competitions as [|c rest].
  - destruct (0 <? _)%nat.
    + exists ((Page page :: [Get (page_url page)]) ++ [AllDownloaded])%list.
      split; [|split; reflexivity].
      eapply ledger_trans; [exact H1|].
      apply ledger_silent; cbn; try reflexivity; lia.
    + destruct (3 <=? S consecutive_empty)%nat.
      * exists ((Page page :: [Get (page_url page)])
                  ++ [NoNew (S consecutive_empty); Stop])%list.
        split; [|split; reflexivity].
        eapply ledger_trans; [exact H1|].
        apply ledger_silent; cbn; try reflexivity; try lia.
        now rewrite <- app_assoc.
      * exists ((Page page :: [Get (page_url page)])
                  ++ [NoNew (S consecutive_empty)])%list.
        split; [|split; reflexivity].
        eapply ledger_trans; [exact H1|].
        apply ledger_silent; cbn; try reflexivity; lia.
  - set (competitions := c :: rest) in *.
    set (st2 := count (more_found (length competitions))
                  (emit (Found (length competitions))
                     (count one_more_page st1))).
    assert (H2 : ledger w (count one_more_page st1)
                   [Found (length competitions)] st2).
    { apply ledger_silent; cbn; try reflexivity; lia. }
    assert (Hf2 : fresh st2 competitions).
    { unfold fresh in *. cbn. now rewrite Hp in *. }
    destruct (process_all_ledger competitions st2 Hf2)
      as (evs3 & H3 & V3 & F3 & G3 & S3).
    set (st3 := fold_left (_process_competition w cfg) competitions st2) in *.
    assert (H4 : ledger w st3
                   [Saved (processed_competitions st3) (downloaded_files st3)]
                   (_save_registry st3)).
    { apply ledger_silent; cbn; try reflexivity; lia. }
    eexists. cbn [snd]. split.
    + exact (ledger_trans _ _ _ _ _ _
               (ledger_trans _ _ _ _ _ _ (ledger_trans _ _ _ _ _ _ H1 H2) H3) H4).
    + rewrite !visited_app, !founds_app, !visits_app, V3, F3,
        (visited_of_pages evs3 G3).
      split; [reflexivity|]. cbn. rewrite length_app, length_map. cbn.
      lia.
Qed.

Lemma page_loop_ledger remaining page consecutive_empty st :
  exists evs k,
    ledger w st evs (page_loop w cfg remaining page consecutive_empty st) /\
    founds evs = length (visits evs) /\
    (k <= remaining)%nat /\ visited evs = pages_from page k.
Proof.
  revert page consecutive_empty st.
  induction remaining as [|n IH]; intros page ce st; cbn [page_loop].
  - exists [], 0. split; [apply ledger_refl | repeat split; lia].
  - destruct (page_body_ledger page ce st) as (evs1 & H1 & V1 & F1).
    destruct (page_body w cfg page ce st) as [[ce'|] st1]; cbn [snd] in H1.
    + destruct (IH (page + 1)%Z ce' st1) as (evs2 & k & H2 & F2 & Hk & V2).
      exists (evs1 ++ evs2)%list, (S k).
      split; [exact (ledger_trans _ _ _ _ _ _ H1 H2)|].
      rewrite founds_app, visits_app, length_app, visited_app, V1, V2,
        pages_from_S.
      split; [lia|]. split; [lia | reflexivity].
    + exists evs1, 1. split; [exact H1|]. rewrite V1.
      split; [exact F1|]. split; [lia | now rewrite pages_from_S].
Qed.

Lemma run_ledger st :
  exists evs k,
    ledger w st evs (run w cfg st) /\
    founds evs = length (visits evs) /\
    (k <= Z.to_nat (max_pages cfg))%nat /\ visited evs = pages_from 1 k.
Proof.
  unfold run.
  destruct (page_loop_ledger (Z.to_nat (max_pages cfg)) 1 0 st)
    as (evs & k & H & F & Hk & V).
  set (st1 := page_loop w cfg (Z.to_nat (max_pages cfg)) 1 0 st) in *.
  assert (H4 : ledger w st1
                 [Saved (processed_competitions st1) (downloaded_files st1)]
                 (_save_registry st1)).
  { apply ledger_silent; cbn; try reflexivity; lia. }
  eexists _, k. split; [exact (ledger_trans _ _ _ _ _ _ H H4)|].
  rewrite founds_app, visits_app, visited_app, V, length_app, F. cbn.
  rewrite app_nil_r. split; [lia|]. split; [lia | reflexivity].
Qed.

End LedgerSteps.
Lemma pages_length evs : pages evs = length (visited evs).
Proof.
  unfold pages, visited. induction evs as [|e evs IH]; [reflexivity|].
  destruct e; cbn; try exact IH. now rewrite IH.
Qed.

Lemma length_pages_from page k : length (pages_from page k) = k.
Proof. unfold pages_from. now rewrite length_map, length_seq. Qed.

(** X6. A run enters each competition at most once, only competitions
    that were not in the registry, and marks every one of them processed,
    with or without an archive; the registry gains no other identifier
    and [competitions_found] grows by their number. *)
Theorem visited_competitions_are_recorded (w : world) (cfg : config)
        (st : scraper) :
  let st' := run w cfg st in
  exists evs,
    trace st' = (trace st ++ evs)%list /\
    NoDup (visits evs) /\
    (forall i, In i (visits evs) -> i ∉ processed_competitions st) /\
    processed_competitions st' =
      list_to_set (visits evs) ∪ processed_competitions st /\
    competitions_found (stats st') =
      (competitions_found (stats st) + length (visits evs))%nat.
Proof.
  cbv zeta. destruct (run_ledger w cfg st) as (evs & k & H & F & _).
  destruct H as (T & P & N & V & _ & _ & _ & _ & _ & _ & _ & C & _).
  exists evs. rewrite <- F. repeat split; assumption.
Qed.

(** X7. A run transfers no URL twice: every completed transfer is for a
    URL that was not in [downloaded_files] and is in it afterwards, and
    [files_downloaded] grows by the number of completed transfers. *)
Theorem no_url_transferred_twice (w : world) (cfg : config) (st : scraper) :
  let st' := run w cfg st in
  exists evs,
    trace st' = (trace st ++ evs)%list /\
    NoDup (downloads evs) /\
    (forall u, In u (downloads evs) ->
               (u ∉ downloaded_files st) /\ (u ∈ downloaded_files st')) /\
    files_downloaded (stats st') =
      (files_downloaded (stats st) + length (downloads evs))%nat.
Proof.
  cbv zeta. destruct (run_ledger w cfg st) as (evs & k & H & _).
  destruct H as (T & _ & _ & _ & _ & M & U & _ & F & _).
  exists evs. repeat split; try assumption; now apply U.
Qed.

(** X8. A run reads the calendar pages 1, 2, ... in order, at most
    [max_pages] of them, and [pages_scraped] grows by their number. *)
Theorem pages_read_in_order (w : world) (cfg : config) (st : scraper) :
  let st' := run w cfg st in
  exists evs k,
    trace st' = (trace st ++ evs)%list /\
    visited evs = pages_from 1 k /\
    (k <= Z.to_nat (max_pages cfg))%nat /\
    pages_scraped (stats st') = (pages_scraped (stats st) + k)%nat.
Proof.
  cbv zeta. destruct (run_ledger w cfg st) as (evs & k & H & _ & Hk & V).
  destruct H as (T & _ & _ & _ & _ & _ & _ & _ & _ & _ & G & _).
  exists evs, k. rewrite G, pages_length, V, length_pages_from.
  repeat split; assumption.
Qed.

(** X9. The identifiers, URLs and files present when a run starts are
    present when it ends. *)
Theorem run_never_forgets (w : world) (cfg : config) (st : scraper) :
  let st' := run w cfg st in
  (processed_competitions st ⊆ processed_competitions st') /\
  (downloaded_files st ⊆ downloaded_files st') /\
  (forall p, p ∈ disk st -> p ∈ disk st').
Proof.
  cbv zeta. destruct (run_ledger w cfg st) as (evs & k & H & _).
  destruct H as (_ & P & _ & _ & D & _).
  destruct (run_advances w cfg st) as (evs' & _ & _ & Hd & _).
  split; [rewrite P; apply union_subseteq_r|]. split; assumption.
Qed.

(** X10. [errors] never decreases during a run, and stays as it is when
    the site answers every request and the disk takes every file. *)
Theorem errors_only_from_failures (w : world) (cfg : config) (st : scraper) :
  let st' := run w cfg st in
  (errors (stats st) <= errors (stats st'))%nat /\
  (healthy w -> errors (stats st') = errors (stats st)).
Proof.
  cbv zeta. destruct (run_ledger w cfg st) as (evs & k & H & _).
  destruct H as (_ & _ & _ & _ & _ & _ & _ & _ & _ & _ & _ & _ & _ & E & Hh).
  split; assumption.
Qed.

Lemma healthy_empty_site : healthy Scenario.empty_site.
Proof. split; [intros t u; discriminate | intros t p; reflexivity]. Qed.

Lemma errors_only_from_failures_witness :
  errors (stats (run Scenario.empty_site (Scenario.config_of 5)
                   (init ∅ ∅ []))) = 0.
Proof.
  destruct (errors_only_from_failures Scenario.empty_site
              (Scenario.config_of 5) (init ∅ ∅ [])) as [_ H].
  rewrite (H healthy_empty_site). reflexivity.
Defined.




Lemma barren_page_body w cfg page consecutive_empty st :
  barren w page ->
  competitions_already_downloaded (stats st) = 0 ->
  let st' := snd (page_body w cfg page consecutive_empty st) in
  fst (page_body w cfg page consecutive_empty st) =
    (if (3 <=? S consecutive_empty)%nat then None
     else Some (S consecutive_empty)) /\
  competitions_already_downloaded (stats st') = 0 /\
  trace st' =
    (trace st ++ [Page page; Get (page_url page); NoNew (S consecutive_empty)]
       ++ (if (3 <=? S consecutive_empty)%nat then [Stop] else []))%list.
Proof.
  intros Hb Hz. cbv zeta.
  unfold page_body, _get_competitions_from_page, _make_request.
  cbn [clock emit].
  specialize (Hb (clock st)).
  destruct (http w (clock st) (page_url page)) as [r|].
  - rewrite Hb. cbn [fold_left]. cbn. rewrite Hz.
    destruct consecutive_empty as [|[|k]]; cbn; rewrite <- ?app_assoc;
      repeat split; exact Hz.
  - cbn. rewrite Hz.
    destruct consecutive_empty as [|[|k]]; cbn; rewrite <- ?app_assoc;
      repeat split; exact Hz.
Qed.

(** X12. When no entry has been skipped so far and three pages in a row
    list nothing (or cannot be fetched), the page loop stops after the
    third and leaves the later pages unread. *)
Theorem three_barren_pages_stop (w : world) (cfg : config) (remaining : nat)
        (page : Z) (st : scraper) :
  competitions_already_downloaded (stats st) = 0 ->
  barren w page -> barren w (page + 1) -> barren w (page + 1 + 1) ->
  (3 <= remaining)%nat ->
  trace (page_loop w cfg remaining page 0 st) =
    (trace st ++
       [Page page; Get (page_url page); NoNew 1;
        Page (page + 1); Get (page_url (page + 1)); NoNew 2;
        Page (page + 1 + 1); Get (page_url (page + 1 + 1)); NoNew 3;
        Stop])%list.
Proof.
  intros Hz B1 B2 B3 Hn.
  destruct remaining as [|[|[|n]]]; try lia. cbn [page_loop].
  destruct (barren_page_body w cfg page 0 st B1 Hz) as (F1 & Z1 & T1).
  destruct (page_body w cfg page 0 st) as [o1 st1]; cbn [fst snd] in *.
  subst o1. cbn [Nat.leb].
  destruct (barren_page_body w cfg (page + 1) 1 st1 B2 Z1) as (F2 & Z2 & T2).
  destruct (page_body w cfg (page + 1) 1 st1) as [o2 st2]; cbn [fst snd] in *.
  subst o2. cbn [Nat.leb].
  destruct (barren_page_body w cfg (page + 1 + 1) 2 st2 B3 Z2) as (F3 & Z3 & T3).
  destruct (page_body w cfg (page + 1 + 1) 2 st2) as [o3 st3];
    cbn [fst snd] in *.
  subst o3. cbn [Nat.leb].
  rewrite T3, T2, T1. cbn. rewrite <- !app_assoc. reflexivity.
Qed.

Lemma three_barren_pages_stop_witness :
  trace (page_loop Scenario.empty_site (Scenario.config_of 5) 5 1 0
           (init ∅ ∅ [])) =
    (trace (init ∅ ∅ []) ++
       [Page 1; Get (page_url 1); NoNew 1;
        Page (1 + 1); Get (page_url (1 + 1)); NoNew 2;
        Page (1 + 1 + 1); Get (page_url (1 + 1 + 1)); NoNew 3;
        Stop])%list.
Proof.
  apply (three_barren_pages_stop Scenario.empty_site (Scenario.config_of 5) 5 1
           (init ∅ ∅ [])).
  - reflexivity.
  - intros t. reflexivity.
  - intros t. reflexivity.
  - intros t. reflexivity.
  - lia.
Defined.

End LedgerFacts.

Module ScanFacts.
Import Text Parsing Crawler ParsingSpec CrawlerSpec ScanSpec TextFacts
       ParsingFacts CrawlerFacts.

#[local] Arguments chars : simpl never.
#[local] Arguments scan_link : simpl never.
#[local] Arguments _make_request : simpl never.

Lemma match_competition_digits l g :
  match_competition l = Some g -> g <> [] /\ Forall digit g.
Proof.
  unfold match_competition.
  destruct (drop_prefix _ l) as [l1|]; [|discriminate].
  destruct (run1 is_digit l1) as [[d l2]|] eqn:E; [|discriminate].
  destruct l2 as [|dash [|c r]]; try discriminate.
  destruct (_ && _ && _)%bool; [|discriminate].
  intros H. injection H as <-.
  apply run1_sound in E as (_ & Hne & Hall). split; assumption.
Qed.

Lemma listed_incl w cfg a b c :
  (forall x, In x a -> In x b) -> listed w cfg a c -> listed w cfg b c.
Proof.
  intros Hi (link & Hin & H). exists link. split; [now apply Hi | exact H].
Qed.

Lemma scan_link_listed w cfg anchors competitions st link :
  In link anchors ->
  Forall (listed w cfg anchors) competitions ->
  Forall (listed w cfg anchors)
         (fst (scan_link w cfg (competitions, st) link)).
Proof.
  intros Hin Hall. unfold scan_link.
  destruct (negb _) eqn:Ec; [exact Hall|].
  apply negb_false_iff in Ec.
  destruct (search match_competition _) as [g1|] eqn:Eg; [|exact Hall].
  destruct (bool_decide _); [exact Hall|].
  destruct (_ <? _)%nat eqn:El; [exact Hall|].
  destruct (negb _) eqn:Eb; [exact Hall|].
  destruct (existsb _ competitions); [exact Hall|].
  cbn [fst]. apply Forall_app. split; [exact Hall|].
  constructor; [|constructor].
  apply search_found in Eg as (pre & rest & _ & Hm & _).
  apply match_competition_digits in Hm as [Hne Hd].
  apply Nat.ltb_ge in El. apply negb_false_iff in Eb.
  unfold in_bounds in Eb. apply andb_true_iff in Eb as [E1 E2].
  apply Z.leb_le in E1, E2.
  exists link. cbn [id url title season_year]. rewrite chars_str.
  repeat split; assumption.
Qed.

Lemma scan_links_listed w cfg anchors links competitions st :
  (forall x, In x links -> In x anchors) ->
  Forall (listed w cfg anchors) competitions ->
  Forall (listed w cfg anchors)
         (fst (fold_left (scan_link w cfg) links (competitions, st))).
Proof.
  revert competitions st. induction links as [|link links IH];
    intros competitions st Hi Hall; cbn [fold_left]; [exact Hall|].
  pose proof (scan_link_listed w cfg anchors competitions st link
                (Hi link (or_introl eq_refl)) Hall) as H1.
  destruct (scan_link w cfg (competitions, st) link) as [competitions' st'].
  apply IH; [|exact H1]. intros x Hx. apply Hi. now right.
Qed.

(** X13. The page scan returns nothing when the request fails; otherwise
    every competition it returns comes from an anchor of the page whose
    target holds the calendar path and whose text has at least five
    characters, has a non-empty identifier of digits, the anchor's target
    without query as URL, a season year within the configured bounds, and
    no two of them share an identifier. *)
Theorem page_scan_results (w : world) (cfg : config) (page : Z)
        (st : scraper) :
  let competitions := fst (_get_competitions_from_page w cfg page st) in
  NoDup (map id competitions) /\
  match http w (clock st) (page_url page) with
  | None => competitions = []
  | Some r => Forall (listed w cfg (links (parsed r))) competitions
  end.
Proof.
  cbv zeta. split.
  - now destruct (get_competitions_fresh w cfg page st) as [[_ H] _].
  - unfold _get_competitions_from_page.
    pose proof (make_request_fields w (page_url page) st)
      as (_ & _ & _ & _ & _ & Hf & _).
    destruct (_make_request w (page_url page) st) as [o st1].
    cbn [fst] in Hf. subst o.
    destruct (http w (clock st) (page_url page)) as [r|]; [|reflexivity].
    apply scan_links_listed; [auto | constructor].
Qed.

(** X14. [_find_res_zip_link] returns nothing when the request fails or no
    anchor qualifies; what it returns is the joined target of an anchor
    whose target holds [.zip], with the date of the page; an anchor with
    the text [.res] wins over the others wherever it stands. *)
Theorem find_res_zip_link_result (w : world) (url : string) (st : scraper) :
  let result := fst (_find_res_zip_link w url st) in
  match http w (clock st) url with
  | None => result = None
  | Some r =>
      let date_str := _extract_date_from_page (get_text (parsed r)) in
      (forall u d,
          result = Some (u, d) ->
          d = date_str /\
          exists link,
            In link (links (parsed r)) /\
            u = urljoin w BASE_URL (href link) /\
            contains (chars ".zip") (lower (chars (href link))) = true) /\
      (result = None <->
       forall link, In link (links (parsed r)) ->
                    is_res_link link = false /\ is_zip_link link = false) /\
      (forall link,
          In link (links (parsed r)) -> is_res_link link = true ->
          exists first,
            is_res_link first = true /\
            result = Some (urljoin w BASE_URL (href first), date_str))
  end.
Proof.
  cbv zeta. unfold _find_res_zip_link.
  pose proof (make_request_fields w url st) as (_ & _ & _ & _ & _ & Hf & _).
  destruct (_make_request w url st) as [o st1]. cbn [fst] in Hf. subst o.
  destruct (http w (clock st) url) as [r|]; [|reflexivity].
  destruct (find is_res_link (links (parsed r))) as [l1|] eqn:E1.
  - apply find_some in E1 as [Hin1 Hres1]. cbn [fst].
    split; [|split].
    + intros u d H. injection H as <- <-. split; [reflexivity|].
      exists l1. repeat split; [exact Hin1|].
      unfold is_res_link in Hres1. now apply andb_true_iff in Hres1 as [_ H].
    + split; [discriminate|]. intros H. destruct (H l1 Hin1) as [H1 _]. congruence.
    + intros link _ _. now exists l1.
  - pose proof (find_none _ _ E1) as Hno1.
    destruct (find is_zip_link (links (parsed r))) as [l2|] eqn:E2.
    + apply find_some in E2 as [Hin2 Hzip2]. cbn [fst].
      split; [|split].
      * intros u d H. injection H as <- <-. split; [reflexivity|].
        exists l2. repeat split; [exact Hin2|].
        unfold is_zip_link in Hzip2. now apply andb_true_iff in Hzip2 as [H _].
      * split; [discriminate|]. intros H. destruct (H l2 Hin2) as [_ H2]. congruence.
      * intros link Hin Hres. rewrite (Hno1 link Hin) in Hres. discriminate.
    + pose proof (find_none _ _ E2) as Hno2. cbn [fst].
      split; [|split].
      * discriminate.
      * split; [|reflexivity]. intros _ link Hin. split; auto.
      * intros link Hin Hres. rewrite (Hno1 link Hin) in Hres. discriminate.
Qed.

End ScanFacts.

Module DriverFacts.
Import Text Parsing Crawler Driver ParsingSpec CrawlerSpec LedgerSpec DriverSpec
       ResumeSpec TextFacts ParsingFacts CrawlerFacts LedgerFacts.

#[local] Arguments chars : simpl never.
#[local] Arguments _make_request : simpl never.

Lemma bump_max_none links : fold_left bump_max links None = None.
Proof. induction links as [|l links IH]; [reflexivity | exact IH]. Qed.

(** The fold of [_detect_total_pages] from [m]. *)
Lemma detect_fold links m :
  (fold_left bump_max links (Some m) = None <->
   exists link, In link links /\ numbered link = true /\
                py_int (chars (anchor_text link)) = None) /\
  (forall n,
      fold_left bump_max links (Some m) = Some n ->
      (m <= n)%Z /\
      (forall link, In link links -> numbered link = true ->
                    exists k, py_int (chars (anchor_text link)) = Some k /\
                              (k <= n)%Z) /\
      (n = m \/ exists link, In link links /\ numbered link = true /\
                             py_int (chars (anchor_text link)) = Some n)).
Proof.
  revert m. induction links as [|l links IH]; intros m; cbn [fold_left].
  - split.
    + split; [discriminate | intros (x & [] & _)].
    + intros n H. injection H as <-. split; [lia|]. split; [intros x []|now left].
  - unfold bump_max at 2 4. fold (numbered l).
    destruct (numbered l) eqn:En.
    + destruct (py_int (chars (anchor_text l))) as [k|] eqn:Ek.
      * set (m' := if (m <? k)%Z then k else m).
        assert (Hm' : (m <= m' /\ k <= m')%Z /\ (m' = m \/ m' = k)).
        { subst m'. destruct (m <? k)%Z eqn:E;
            [apply Z.ltb_lt in E | apply Z.ltb_ge in E]; lia. }
        destruct (IH m') as [IH1 IH2]. split.
        -- rewrite IH1. split.
           ++ intros (x & Hx & H). exists x. split; [now right | exact H].
           ++ intros (x & [<- | Hx] & Hn & Hk); [congruence|]. now exists x.
        -- intros n H. destruct (IH2 n H) as (Hle & Hall & Hmax).
           split; [lia|]. split.
           ++ intros x [<- | Hx] Hn; [exists k; split; [exact Ek | lia]|].
              now apply Hall.
           ++ destruct Hmax as [-> | (x & Hx & Hn & Hk)].
              ** destruct Hm' as [_ [-> | ->]]; [now left|].
                 right. exists l. repeat split; [now left | exact En | exact Ek].
              ** right. exists x. repeat split; [now right | exact Hn | exact Hk].
      * rewrite bump_max_none. split.
        -- split; [|reflexivity]. intros _. exists l.
           repeat split; [now left | exact En | exact Ek].
        -- discriminate.
    + destruct (IH m) as [IH1 IH2]. split.
      * rewrite IH1. split.
        -- intros (x & Hx & H). exists x. split; [now right | exact H].
        -- intros (x & [<- | Hx] & Hn & Hk); [congruence|]. now exists x.
      * intros n H. destruct (IH2 n H) as (Hle & Hall & Hmax).
        split; [exact Hle|]. split.
        -- intros x [<- | Hx] Hn; [congruence | now apply Hall].
        -- destruct Hmax as [-> | (x & Hx & Hn & Hk)]; [now left|].
           right. exists x. repeat split; [now right | exact Hn | exact Hk].
Qed.

(** [int] refuses exactly the labels of [refused]. *)
Lemma py_int_refused (label : list ascii) :
  label <> [] -> (py_int label = None <-> refused label).
Proof.
  intros Hne. unfold py_int, refused. destruct label as [|c l]; [contradiction|].
  destruct (forallb is_digit (c :: l)) eqn:Ed.
  - destruct (length (c :: l) <=? int_max_str_digits)%nat eqn:El; cbn [andb].
    + apply Nat.leb_le in El. split; [discriminate|].
      intros [H | H]; [|lia]. exfalso. apply H.
      apply List.Forall_forall. intros x Hx.
      rewrite forallb_forall in Ed. now apply Ed.
    + apply Nat.leb_gt in El. split; [intros _; now right | reflexivity].
  - cbn [andb]. split; [|reflexivity]. intros _. left. intros H.
    rewrite List.Forall_forall in H.
    assert (forallb is_digit (c :: l) = true) by (now apply forallb_forall).
    congruence.
Qed.

Lemma numbered_label link : numbered link = true -> chars (anchor_text link) <> [].
Proof.
  unfold numbered, isdigit. intros H. apply andb_true_iff in H as [_ H].
  now destruct (chars (anchor_text link)).
Qed.

(** X15. [_detect_total_pages] answers 100 when the first page cannot be
    fetched; otherwise it raises exactly when [int] refuses a numeric
    pagination label (a superscript digit in it, or more than 4300
    digits), and what it returns is at least 1, at least every numeric
    label, and either 1 or one of the labels. *)
Theorem detect_total_pages_result (w : world) (st : scraper) :
  let result := fst (_detect_total_pages w st) in
  match http w (clock st) CALENDAR_URL with
  | None => result = Some 100%Z
  | Some r =>
      (result = None <->
       exists link, In link (links (parsed r)) /\ numbered link = true /\
                    refused (chars (anchor_text link))) /\
      (forall n,
          result = Some n ->
          (1 <= n)%Z /\
          (forall link, In link (links (parsed r)) -> numbered link = true ->
                        exists k, py_int (chars (anchor_text link)) = Some k /\
                                  (k <= n)%Z) /\
          (n = 1%Z \/ exists link, In link (links (parsed r)) /\
                                   numbered link = true /\
                                   py_int (chars (anchor_text link)) = Some n))
  end.
Proof.
  cbv zeta. unfold _detect_total_pages.
  pose proof (make_request_fields w CALENDAR_URL st)
    as (_ & _ & _ & _ & _ & Hf & _).
  destruct (_make_request w CALENDAR_URL st) as [o st1]. cbn [fst] in Hf.
  subst o.
  destruct (http w (clock st) CALENDAR_URL) as [r|]; [|reflexivity].
  cbn [fst]. destruct (detect_fold (links (parsed r)) 1%Z) as [Hnone Hsome].
  split; [|exact Hsome]. rewrite Hnone.
  split; intros (link & Hin & Hn & Hk); exists link;
    (split; [exact Hin|]); (split; [exact Hn|]);
    now apply (py_int_refused _ (numbered_label link Hn)).
Qed.

Lemma detect_total_pages_result_witness :
  fst (_detect_total_pages long_label_site (init ∅ ∅ [])) = None /\
  fst (_detect_total_pages paged_site (init ∅ ∅ [])) = Some 3%Z.
Proof.
  split; [|reflexivity].
  pose proof (detect_total_pages_result long_label_site (init ∅ ∅ [])) as H.
  cbv zeta in H. cbn [http long_label_site] in H.
  destruct H as [[_ H] _]. apply H. eexists. split; [now left|].
  split; [reflexivity|]. right. apply Nat.ltb_lt. vm_compute. reflexivity.
Defined.

Lemma hash_all_strings l :
  Registry.hash_all (map Registry.JStr l) = Registry.Return (map Registry.AStr l).
Proof.
  induction l as [|x l IH]; [reflexivity|].
  cbn. unfold mbind, Registry.outcome_bind in *. cbn. now rewrite IH.
Qed.

Lemma strings_AStr l : strings (map Registry.AStr l) = list_to_set l.
Proof.
  unfold strings. f_equal. induction l as [|x l IH]; [reflexivity|].
  cbn. now rewrite IH.
Qed.

(** X16. What [_save_registry] writes, [_load_registry] reads back: the
    two sets of the loaded registry are the two sets that were saved,
    whatever the order in which the sets were listed. *)
Theorem registry_round_trip (list_of : gset string -> list string)
        (now : string) (st : scraper) :
  (forall X x, In x (list_of X) <-> x ∈ X) ->
  exists loaded,
    Registry._load_registry (Registry.Json (registry_document list_of now st)) =
      Registry.Return loaded /\
    strings (Registry.processed_competitions loaded) =
      processed_competitions st /\
    strings (Registry.downloaded_files loaded) = downloaded_files st.
Proof.
  intros Hl.
  exists {| Registry.downloaded_files :=
              map Registry.AStr (list_of (downloaded_files st));
            Registry.processed_competitions :=
              map Registry.AStr (list_of (processed_competitions st)) |}.
  assert (Hset : forall X, list_to_set (list_of X) = X).
  { intros X. apply set_eq. intros x. rewrite elem_of_list_to_set.
    rewrite list_elem_of_In. apply Hl. }
  split;
    [|cbn [Registry.processed_competitions Registry.downloaded_files];
      rewrite !strings_AStr, !Hset; split; reflexivity].
  unfold Registry._load_registry, Registry.load_body, registry_document.
  cbn. unfold mbind, Registry.outcome_bind. cbn.
  rewrite !hash_all_strings. reflexivity.
Qed.

Lemma registry_round_trip_witness :
  exists loaded,
    Registry._load_registry
      (Registry.Json (registry_document elements "2026-11-04T00:00:00"
                        (init {[ "7" ]} {[ "u" ]} []))) =
      Registry.Return loaded /\
    strings (Registry.processed_competitions loaded) = {[ "7" ]}.
Proof.
  destruct (registry_round_trip elements "2026-11-04T00:00:00"
              (init {[ "7" ]} {[ "u" ]} [])) as (loaded & Hload & Hp & _).
  - intros X x. rewrite <- list_elem_of_In. apply elem_of_elements.
  - exists loaded. exact (conj Hload Hp).
Defined.








Lemma append_assoc (a b c : string) : (a ++ b) ++ c = a ++ b ++ c.
Proof.
  induction a as [|x a IH]; [reflexivity|].
  change (String x ((a ++ b) ++ c) = String x (a ++ b ++ c)). now f_equal.
Qed.

Lemma pretty_N_char_digit n : is_digit (pretty_N_char n) = true.
Proof.
  destruct n as [|p]; [reflexivity|].
  do 4 (destruct p as [p|p|]; try reflexivity).
Qed.

Lemma pretty_N_go_numeral x s : numeral s -> numeral (pretty_N_go x s).
Proof.
  revert s. induction (N.lt_wf_0 x) as [x _ IH]. intros s Hs.
  destruct (decide (0 < x)%N) as [Hpos | Hz].
  - rewrite pretty_N_go_step by exact Hpos.
    apply IH; [now apply N.div_lt|].
    unfold numeral. cbn. constructor; [|exact Hs].
    left. apply pretty_N_char_digit.
  - replace x with 0%N by lia. now rewrite pretty_N_go_0.
Qed.

Lemma pretty_Z_numeral (z : Z) : numeral (pretty z).
Proof.
  assert (HN : forall n : N, numeral (pretty n)).
  { intros n. unfold pretty, pretty_N. destruct (decide (n = 0%N)).
    - repeat constructor.
    - apply pretty_N_go_numeral. constructor. }
  destruct z as [|p|p]; unfold pretty, pretty_Z.
  - repeat constructor.
  - apply (HN (Npos p)).
  - constructor; [now right | apply (HN (Npos p))].
Qed.

Lemma numeral_plain s : numeral s -> plain s.
Proof.
  unfold numeral, plain. intros H Hin.
  rewrite List.Forall_forall in H. destruct (H _ Hin) as [Hd | Hd]; discriminate.
Qed.

Lemma sanitize_plain name : plain (Parsing._sanitize_filename name).
Proof.
  unfold plain, Parsing._sanitize_filename. rewrite chars_str. intros Hin.
  pose proof (sanitize_chars_clean (chars name)) as H.
  rewrite List.Forall_forall in H. destruct (H _ Hin) as [Hf _]. discriminate.
Qed.

(** X18. The archive always lands directly in a year directory of the
    output directory: the target path is the output directory followed
    by a numeral and by a file name ending in [.zip], and neither holds
    a slash, whatever the title. *)
Theorem save_path_shape (cfg : config) (c : competition)
        (date_str : option string) :
  date_str = None \/ (exists text, _extract_date_from_page text = date_str) ->
  exists dir stem,
    save_path_of cfg c date_str =
      (output_base_dir cfg ++ [dir; (stem ++ ".zip")%string])%list /\
    numeral dir /\ plain dir /\ plain (stem ++ ".zip").
Proof.
  intros Hd. unfold save_path_of, destination.
  assert (Hzip : forall a b, plain a -> plain b -> plain (a ++ "__" ++ b ++ ".zip")).
  { intros a b Ha Hb. unfold plain in *. rewrite !chars_app.
    rewrite !in_app_iff. intros [H | [H | [H | H]]]; try tauto;
      vm_compute in H; intuition discriminate. }
  destruct (truthy date_str) as [d|] eqn:Et.
  - assert (Hiso : iso_date d).
    { unfold truthy in Et. destruct date_str as [d'|]; [|discriminate].
      destruct (String.eqb d' ""); [discriminate|]. injection Et as ->.
      destruct Hd as [Hd | [text Hd]]; [discriminate|].
      destruct (extract_date_first_phrase text) as [Hn | Hs]; [congruence|].
      destruct Hs as (? & ? & ? & ? & ? & ? & _ & _ & _ & _ & He & Hiso).
      rewrite He in Hd. now injection Hd as <-. }
    destruct Hiso as (y & mm & dd & Hc & _ & Hy & _ & Hm & _ & _ & Hdd).
    assert (Hplain : plain d).
    { unfold plain. rewrite Hc. rewrite in_app_iff. cbn. rewrite in_app_iff. cbn.
      unfold digit in *. rewrite List.Forall_forall in Hy, Hm, Hdd.
      intros [H | [H | [H | [H | H]]]]; try discriminate;
        [apply Hy in H | apply Hm in H | apply Hdd in H]; discriminate. }
    exists (pretty (decimal (before "-" (chars d)))),
      (d ++ "__" ++ Parsing._sanitize_filename (title c)).
    split; [now rewrite !append_assoc|].
    split; [apply pretty_Z_numeral|].
    split; [apply numeral_plain, pretty_Z_numeral|].
    rewrite !append_assoc. apply Hzip; [exact Hplain | apply sanitize_plain].
  - exists (pretty (season_year c)),
      (pretty (season_year c) ++ "__" ++ Parsing._sanitize_filename (title c)).
    split; [now rewrite !append_assoc|].
    split; [apply pretty_Z_numeral|].
    split; [apply numeral_plain, pretty_Z_numeral|].
    rewrite !append_assoc.
    apply Hzip; [apply numeral_plain, pretty_Z_numeral | apply sanitize_plain].
Qed.

Lemma save_path_shape_witness :
  exists dir stem,
    save_path_of (Scenario.config_of 1) Scenario.season_competition
      (_extract_date_from_page (get_text Scenario.detail_page)) =
      (output_base_dir (Scenario.config_of 1) ++
         [dir; (stem ++ ".zip")%string])%list /\
    numeral dir /\ plain dir /\ plain (stem ++ ".zip").
Proof.
  apply (save_path_shape (Scenario.config_of 1) Scenario.season_competition
           (_extract_date_from_page (get_text Scenario.detail_page))).
  right. exists (get_text Scenario.detail_page). reflexivity.
Defined.

End DriverFacts.

Module ResumeFacts.
Import Text Parsing Crawler ParsingSpec CrawlerSpec LedgerSpec ResumeSpec
       TextFacts ParsingFacts CrawlerFacts LedgerFacts.

#[local] Arguments chars : simpl never.
#[local] Arguments scan_link : simpl never.
#[local] Arguments _make_request : simpl never.
#[local] Arguments _get_competitions_from_page : simpl never.
#[local] Arguments _find_res_zip_link : simpl never.
#[local] Arguments _download_file : simpl never.
#[local] Arguments _process_competition : simpl never.
#[local] Arguments page_body : simpl never.

(** X19. A URL already recorded, or whose target file is on disk, costs no
    request: the call returns [False], issues nothing, creates nothing,
    and the URL is recorded afterwards. *)
Theorem download_skips_without_request (w : world) (url : string) (p : path)
        (st : scraper) :
  (url ∈ downloaded_files st) \/ (p ∈ disk st) ->
  let ok := fst (_download_file w url p st) in
  let st' := snd (_download_file w url p st) in
  ok = false /\ clock st' = clock st /\ disk st' = disk st /\
  (url ∈ downloaded_files st') /\
  files_skipped (stats st') = S (files_skipped (stats st)).
Proof.
  intros H. cbv zeta. unfold _download_file.
  destruct (bool_decide (url ∈ downloaded_files st)) eqn:Eu.
  { apply bool_decide_eq_true in Eu. repeat split. exact Eu. }
  apply bool_decide_eq_false in Eu. destruct H as [H | H]; [contradiction|].
  rewrite (bool_decide_eq_true_2 _ H). repeat split.
  cbn. apply elem_of_union. left. now apply elem_of_singleton.
Qed.

Lemma download_skips_without_request_witness :
  fst (_download_file Scenario.season_site Scenario.zip_url ["data"; "a.zip"]
         (init ∅ {[ Scenario.zip_url ]} [])) = false /\
  clock (snd (_download_file Scenario.season_site Scenario.zip_url
                ["data"; "a.zip"] (init ∅ {[ Scenario.zip_url ]} []))) = 0.
Proof.
  destruct (download_skips_without_request Scenario.season_site
              Scenario.zip_url ["data"; "a.zip"]
              (init ∅ {[ Scenario.zip_url ]} [])) as (H1 & H2 & _).
  - left. cbn. apply elem_of_singleton. reflexivity.
  - exact (conj H1 H2).
Defined.











End ResumeFacts.

(* ===================================================================== *)
(** ** The date of the detail page over Unicode *)
(* ===================================================================== *)

Module UnicodeFacts.
Import Unicode UnicodeSpec.

Section CodeSearch.
Context {G : Type} (m : list N -> option G).

Lemma search_first (l : list N) (g : G) :
  search m l = Some g ->
  exists pre rest,
    l = (pre ++ rest)%list /\ m rest = Some g /\
    forall pre' rest', l = (pre' ++ rest')%list ->
                       (length pre' < length pre)%nat -> m rest' = None.
Proof.
  induction l as [|c l IH]; simpl; intros H.
  - destruct (m []) eqn:E; [|discriminate].
    exists [], []. repeat split; [congruence|].
    intros pre' rest' _ Hlt. simpl in Hlt. lia.
  - destruct (m (c :: l)) eqn:E.
    + exists [], (c :: l). repeat split; [congruence|].
      intros pre' rest' _ Hlt. simpl in Hlt. lia.
    + destruct (IH H) as (pre & rest & -> & Hm & Hmin).
      exists (c :: pre), rest. repeat split; [assumption|].
      intros [|c' pre'] rest' Heq Hlt; simpl in *.
      * now subst rest'.
      * injection Heq as -> Heq. apply (Hmin pre' rest' Heq). lia.
Qed.
End CodeSearch.

Lemma span_sound_codes p l a b :
  span p l = (a, b) -> l = (a ++ b)%list /\ Forall (fun c => p c = true) a.
Proof.
  revert a b. induction l as [|c l IH]; simpl; intros a b H.
  - injection H as <- <-. split; [reflexivity | constructor].
  - destruct (p c) eqn:E.
    + destruct (span p l) as [a' b'] eqn:Es. injection H as <- <-.
      destruct (IH a' b' eq_refl) as [-> Hall].
      split; [reflexivity | now constructor].
    + injection H as <- <-. split; [reflexivity | constructor].
Qed.

Lemma span_app_codes p s c r :
  Forall (fun x => p x = true) s -> p c = false ->
  span p (s ++ c :: r) = (s, c :: r).
Proof.
  intros Hs Hc. induction Hs as [|x s Hx Hs IH]; simpl.
  - now rewrite Hc.
  - now rewrite Hx, IH.
Qed.

Lemma run1_sound_codes p l a b :
  run1 p l = Some (a, b) ->
  l = (a ++ b)%list /\ a <> [] /\ Forall (fun c => p c = true) a.
Proof.
  unfold run1. destruct (span p l) as [a' b'] eqn:E. intros H.
  destruct a' as [|x a']; [discriminate|]. injection H as <- <-.
  destruct (span_sound_codes _ _ _ _ E) as [-> Hall].
  repeat split; [discriminate | exact Hall].
Qed.

Lemma run1_stops_codes p s t :
  s <> [] -> Forall (fun x => p x = true) s -> stops p t ->
  run1 p (s ++ t) = Some (s, t).
Proof.
  intros Hne Hs (c & r & -> & Hc). unfold run1.
  rewrite span_app_codes by assumption. destruct s; [contradiction | reflexivity].
Qed.

Lemma stops_app_codes p s x :
  s <> [] -> Forall (fun c => p c = false) s -> stops p (s ++ x).
Proof.
  intros Hne Hall. destruct s as [|c t]; [contradiction|].
  exists c, (t ++ x)%list. split; [reflexivity | now inversion Hall].
Qed.

Section Phrase.
Variable db : classes.
Hypothesis laws : lawful db.

Lemma lit_de_sound_codes l r :
  lit_de db l = Some r -> exists w, de db w /\ l = (w ++ r)%list.
Proof.
  unfold lit_de. destruct l as [|d [|e l]]; try discriminate.
  destruct (tolower db d =? 100)%N eqn:Ed; [|discriminate].
  destruct (tolower db e =? 101)%N eqn:Ee; [|discriminate].
  intros H. injection H as <-. exists [d; e]. split; [|reflexivity].
  exists d, e. repeat split; now apply N.eqb_eq.
Qed.

Lemma lit_de_app_codes w r : de db w -> lit_de db (w ++ r) = Some r.
Proof.
  intros (d & e & -> & Hd & He). simpl.
  apply N.eqb_eq in Hd, He. now rewrite Hd, He.
Qed.

Lemma digits12_sound_codes l day r :
  digits12 db l = Some (day, r) ->
  l = (day ++ r)%list /\ (length day = 1 \/ length day = 2)%nat /\
  Forall (fun c => decimal db c = true) day.
Proof.
  unfold digits12. destruct l as [|a l]; [discriminate|].
  destruct (decimal db a) eqn:Ea; [|discriminate].
  destruct l as [|b l].
  - intros H. injection H as <- <-.
    repeat split; auto; repeat (constructor; try assumption).
  - destruct (decimal db b) eqn:Eb; intros H; injection H as <- <-;
      repeat split; auto; repeat (constructor; try assumption).
Qed.

Lemma digits12_stops_codes day t :
  (length day = 1 \/ length day = 2)%nat ->
  Forall (fun c => decimal db c = true) day ->
  stops (decimal db) t -> digits12 db (day ++ t) = Some (day, t).
Proof.
  intros Hlen Hd (c & r & -> & Hc). unfold digits12.
  destruct day as [|a [|b [|x day]]]; simpl in Hlen; try lia.
  - inversion Hd as [|? ? Ha _]; subst. simpl. now rewrite Ha, Hc.
  - inversion Hd as [|? ? Ha Hd']; subst.
    inversion Hd' as [|? ? Hb _]; subst. simpl. now rewrite Ha, Hb.
Qed.

Lemma digits4_sound_codes l year :
  digits4 db l = Some year ->
  exists rest, l = (year ++ rest)%list /\ length year = 4%nat /\
               Forall (fun c => decimal db c = true) year.
Proof.
  unfold digits4. destruct l as [|a [|b [|c [|d rest]]]]; try discriminate.
  destruct (decimal db a) eqn:Ea, (decimal db b) eqn:Eb,
           (decimal db c) eqn:Ec, (decimal db d) eqn:Ed; try discriminate.
  intros H. injection H as <-. exists rest.
  repeat split; repeat (constructor; try assumption).
Qed.

Lemma digits4_app_codes year rest :
  length year = 4%nat -> Forall (fun c => decimal db c = true) year ->
  digits4 db (year ++ rest) = Some year.
Proof.
  intros Hlen Hd.
  destruct year as [|a [|b [|c [|d [|x year]]]]]; try discriminate.
  inversion Hd as [|? ? Ha H1]; subst. inversion H1 as [|? ? Hb H2]; subst.
  inversion H2 as [|? ? Hc H3]; subst. inversion H3 as [|? ? Hd' _]; subst.
  simpl. now rewrite Ha, Hb, Hc, Hd'.
Qed.

(** The anchored matcher accepts exactly the phrase. *)
Lemma match_date_sound_codes l day month year :
  match_date db l = Some (day, month, year) -> phrase_here db l day month year.
Proof.
  unfold match_date. intros H.
  destruct (digits12 db l) as [[day' l1]|] eqn:E1; [|discriminate].
  destruct (run1 (space db) l1) as [[s1 l2]|] eqn:E2; [|discriminate].
  destruct (lit_de db l2) as [l3|] eqn:E3; [|discriminate].
  destruct (run1 (space db) l3) as [[s2 l4]|] eqn:E4; [|discriminate].
  destruct (run1 (word db) l4) as [[month' l5]|] eqn:E5; [|discriminate].
  destruct (run1 (space db) l5) as [[s3 l6]|] eqn:E6; [|discriminate].
  destruct (lit_de db l6) as [l7|] eqn:E7; [|discriminate].
  destruct (run1 (space db) l7) as [[s4 l8]|] eqn:E8; [|discriminate].
  destruct (digits4 db l8) as [year'|] eqn:E9; [|discriminate].
  injection H as -> -> ->.
  apply digits12_sound_codes in E1 as (-> & Hlen & Hday).
  apply run1_sound_codes in E2 as (-> & Hs1 & Hs1').
  apply lit_de_sound_codes in E3 as (w1 & Hw1 & ->).
  apply run1_sound_codes in E4 as (-> & Hs2 & Hs2').
  apply run1_sound_codes in E5 as (-> & Hm & Hm').
  apply run1_sound_codes in E6 as (-> & Hs3 & Hs3').
  apply lit_de_sound_codes in E7 as (w2 & Hw2 & ->).
  apply run1_sound_codes in E8 as (-> & Hs4 & Hs4').
  apply digits4_sound_codes in E9 as (rest & -> & Hylen & Hy).
  exists s1, w1, s2, s3, w2, s4, rest. unfold blank.
  repeat split; assumption.
Qed.

Lemma blank_stops_codes p s x :
  (forall c, space db c = true -> p c = false) -> blank db s -> stops p (s ++ x).
Proof.
  intros Hp [Hne Hall]. apply stops_app_codes; [exact Hne|].
  eapply List.Forall_impl; [|exact Hall]. exact Hp.
Qed.

Lemma de_stops_codes w x : de db w -> stops (space db) (w ++ x).
Proof using laws.
  intros (d & e & -> & Hd & _). exists d, (e :: x).
  split; [reflexivity|]. now apply laws.
Qed.

Lemma not_space (p : N -> bool) c :
  (forall x, space db x = true -> p x = false) ->
  p c = true -> space db c = false.
Proof.
  intros Hp Hc. destruct (space db c) eqn:E; [|reflexivity].
  apply Hp in E. congruence.
Qed.

Lemma match_date_complete_codes l day month year :
  phrase_here db l day month year -> match_date db l = Some (day, month, year).
Proof using laws.
  destruct laws as (Hsd & Hsw & Hds).
  intros (s1 & w1 & s2 & s3 & w2 & s4 & rest & -> & Hlen & Hday &
          Hs1 & Hw1 & Hs2 & Hne & Hm & Hs3 & Hw2 & Hs4 & Hylen & Hy).
  unfold match_date.
  rewrite digits12_stops_codes;
    [|assumption|assumption|now apply blank_stops_codes].
  rewrite run1_stops_codes; [|apply Hs1|apply Hs1|now apply de_stops_codes].
  rewrite lit_de_app_codes by assumption.
  rewrite run1_stops_codes; [|apply Hs2|apply Hs2|].
  2:{ apply stops_app_codes; [exact Hne|]. eapply List.Forall_impl; [|exact Hm].
      intros c Hc. now apply (not_space (word db)). }
  rewrite run1_stops_codes;
    [|assumption|assumption|now apply blank_stops_codes].
  rewrite run1_stops_codes; [|apply Hs3|apply Hs3|now apply de_stops_codes].
  rewrite lit_de_app_codes by assumption.
  rewrite run1_stops_codes; [|apply Hs4|apply Hs4|].
  2:{ apply stops_app_codes; [now destruct year|]. eapply List.Forall_impl; [|exact Hy].
      intros c Hc. now apply (not_space (decimal db)). }
  now rewrite digits4_app_codes.
Qed.

End Phrase.

Lemma dict_get_In_codes d k v :
  dict_get d k = Some v -> exists key, In (key, v) d /\ codes key = k.
Proof.
  induction d as [|[k' v'] d IH]; simpl; [discriminate|].
  destruct (decide (codes k' = k)) as [E|E].
  - intros H. injection H as ->. exists k'. split; [now left | exact E].
  - intros H. destruct (IH H) as (key & Hin & Hk). exists key.
    split; [now right | exact Hk].
Qed.

Lemma months_es_numbers_codes k mm :
  In (k, mm) Parsing.months_es -> In mm month_numbers.
Proof.
  unfold Parsing.months_es, month_numbers. simpl. intros H.
  repeat (destruct H as [H | H]; [injection H as <- <-; tauto|]).
  contradiction.
Qed.

Lemma zfill2_digits_codes (P : N -> Prop) day :
  P 48%N -> (length day = 1 \/ length day = 2)%nat -> Forall P day ->
  length (zfill2 day) = 2%nat /\ Forall P (zfill2 day).
Proof.
  intros H0 Hlen Hd. destruct day as [|a [|b [|c day]]]; simpl in Hlen; try lia.
  - simpl. split; [reflexivity|]. constructor; [exact H0 | exact Hd].
  - simpl. split; [reflexivity | exact Hd].
Qed.

Lemma zfill2_digits_back (P : N -> Prop) day :
  (length day = 1 \/ length day = 2)%nat -> Forall P (zfill2 day) ->
  Forall P day.
Proof.
  intros Hlen Hd. destruct day as [|a [|b [|c day]]]; simpl in Hlen; try lia.
  - simpl in Hd. now inversion Hd.
  - exact Hd.
Qed.

Lemma month_number_length mm : In mm month_numbers -> length (codes mm) = 2%nat.
Proof.
  unfold month_numbers. simpl. intros H.
  repeat (destruct H as [<- | H]; [reflexivity|]). contradiction.
Qed.

(** A date is made of its three parts in one way only. *)
Lemma dated_parts (y y' dd dd' : list N) (mm mm' : string) :
  length y = 4%nat -> length y' = 4%nat ->
  In mm month_numbers -> In mm' month_numbers ->
  (y ++ codes "-" ++ codes mm ++ codes "-" ++ dd)%list =
  (y' ++ codes "-" ++ codes mm' ++ codes "-" ++ dd')%list ->
  y = y' /\ dd = dd'.
Proof.
  intros Hy Hy' Hm Hm' E.
  apply app_inj_1 in E as [-> E]; [|congruence]. split; [reflexivity|].
  change (codes "-") with [45%N] in E. cbn [app] in E. injection E as E.
  apply app_inj_1 in E as [_ E];
    [|now rewrite !month_number_length].
  now injection E.
Qed.

(** C9 (amended). Date extraction returns no date, or the string
    yyyy-mm-dd built from the first occurrence in the text of the phrase
    day [de] month [de] year: the year is its four digits as they stand
    in the text, the month the two-digit number (01 to 12) that
    [months_es] gives for the lower-cased month name, and the day its one
    or two digits as they stand in the text, padded to two with the
    digit zero.  The string is in ISO form exactly when the digits of
    the year and of the day are those of ASCII, which they are when the
    text holds no other decimal digit. *)
Theorem extract_date_digits_of_text (db : classes) (text : list N) :
  lawful db ->
  _extract_date_from_page db text = None \/
  exists pre rest day month year key mm,
    text = (pre ++ rest)%list /\
    phrase_here db rest day month year /\
    (forall pre' rest' d m y,
        text = (pre' ++ rest')%list ->
        (length pre' < length pre)%nat -> ~ phrase_here db rest' d m y) /\
    In (key, mm) Parsing.months_es /\ codes key = lower db month /\
    let date := (year ++ codes "-" ++ codes mm ++ codes "-" ++ zfill2 day)%list in
    _extract_date_from_page db text = Some date /\
    dated (fun c => decimal db c = true \/ c = 48%N) date /\
    (iso_date date <-> Forall ascii_digit year /\ Forall ascii_digit day) /\
    ((forall c, In c text -> decimal db c = true -> ascii_digit c) ->
     iso_date date).
Proof.
  intros laws. unfold _extract_date_from_page.
  destruct (search (match_date db) text) as [[[day month] year]|] eqn:E;
    [|now left].
  destruct (dict_get Parsing.months_es (lower db month)) as [mm|] eqn:Em;
    [|now left].
  right. apply search_first in E as (pre & rest & Heq & Hm & Hmin).
  apply match_date_sound_codes in Hm as Hp.
  apply dict_get_In_codes in Em as (key & Hin & Hkey).
  exists pre, rest, day, month, year, key, mm.
  refine (conj Heq (conj Hp (conj _ (conj Hin (conj Hkey _))))).
  { intros pre' rest' d m y Heq' Hlt Hp'.
    apply (match_date_complete_codes db laws) in Hp'.
    rewrite (Hmin pre' rest' Heq' Hlt) in Hp'. discriminate. }
  cbv zeta. split; [reflexivity|].
  destruct Hp as (s1 & w1 & s2 & s3 & w2 & s4 & tl & Hrest & Hlen & Hday &
                  _ & _ & _ & _ & _ & _ & _ & _ & Hylen & Hy).
  pose proof (months_es_numbers_codes _ _ Hin) as Hmm.
  assert (Hiso : Forall ascii_digit year -> Forall ascii_digit day ->
                 iso_date (year ++ codes "-" ++ codes mm ++ codes "-"
                             ++ zfill2 day)%list).
  { intros Ay Ad.
    destruct (zfill2_digits_codes ascii_digit day) as [Hl Hd];
      [unfold ascii_digit; lia | exact Hlen | exact Ad|].
    exists year, mm, (zfill2 day). repeat split; assumption. }
  split; [|split].
  - destruct (zfill2_digits_codes (fun c => decimal db c = true \/ c = 48%N) day)
      as [Hl Hd]; [now right | exact Hlen | |].
    { eapply List.Forall_impl; [|exact Hday]. intros c Hc. now left. }
    exists year, mm, (zfill2 day).
    repeat split; try assumption.
    eapply List.Forall_impl; [|exact Hy]. intros c Hc. now left.
  - split.
    + intros (y & mm' & dd & Hd & Hyl & Hyd & Hmm' & Hdl & Hdd).
      destruct (dated_parts year y (zfill2 day) dd mm mm') as [<- <-];
        try assumption.
      split; [exact Hyd|]. now apply (zfill2_digits_back ascii_digit).
    + intros [Ay Ad]. now apply Hiso.
  - intros Hall.
    assert (Hsub : forall l, (forall c, In c l -> In c text) ->
                             Forall (fun c => decimal db c = true) l ->
                             Forall ascii_digit l).
    { intros l Hl Hd. apply List.Forall_forall. intros c Hc.
      rewrite List.Forall_forall in Hd. apply Hall; auto. }
    apply Hiso; apply Hsub; try assumption; intros c Hc;
      rewrite Heq, Hrest, !List.in_app_iff; tauto.
Qed.

Lemma lawful_known : lawful known.
Proof.
  assert (Hlt : forall c, latin1 Text.is_space c = true ->
                  (c < 256)%N /\ Text.is_space (ascii_of_N c) = true).
  { intros c H. unfold latin1 in H. apply andb_true_iff in H as [H1 H2].
    apply N.ltb_lt in H1. now split. }
  assert (Hfw : forall c, (c < 256)%N -> fullwidth_digit c = false).
  { intros c H. unfold fullwidth_digit.
    destruct (65296 <=? c)%N eqn:E; [|reflexivity].
    apply N.leb_le in E. lia. }
  split; [|split]; cbn [space decimal word tolower known].
  - intros c H. destruct (Hlt c H) as [H1 H2].
    rewrite (Hfw c H1), orb_false_r. unfold latin1.
    rewrite (ParsingFacts.space_not_digit _ H2). apply andb_false_r.
  - intros c H. destruct (Hlt c H) as [H1 H2].
    rewrite (Hfw c H1), orb_false_r. unfold latin1.
    rewrite (ParsingFacts.space_not_word _ H2). apply andb_false_r.
  - intros c H. unfold lower_code in H. unfold latin1.
    destruct (c <? 256)%N eqn:E; [|apply N.ltb_ge in E; lia].
    cbn [andb]. apply ParsingFacts.d_not_space.
    apply ParsingFacts.lower_d. apply Ascii.eqb_eq.
    rewrite <- (ascii_N_embedding (Text.lower_char (ascii_of_N c))).
    now rewrite H.
Qed.

(** C9 as stated fails on a text whose day and year are written in
    fullwidth digits: the extractor copies them into the date, which is
    then no ISO date. *)
Lemma fullwidth_date_not_iso :
  _extract_date_from_page known fullwidth_text = Some fullwidth_date /\
  ~ iso_date fullwidth_date.
Proof.
  split; [vm_compute; reflexivity|].
  intros (y & mm & dd & Hd & Hyl & Hyd & Hmm & _).
  destruct (dated_parts [65298; 65296; 65298; 65302]%N y [65299; 65297]%N dd
              "01" mm) as [<- _];
    [reflexivity | exact Hyl | cbn; tauto | exact Hmm | exact Hd |].
  inversion Hyd as [|c l Hc _]; subst. unfold ascii_digit in Hc. lia.
Qed.

Lemma extract_date_digits_of_text_witness :
  lawful known /\
  _extract_date_from_page known (codes "Sabado, 31 de Enero de 2026") =
    Some (codes "2026-01-31") /\
  iso_date (codes "2026-01-31").
Proof.
  assert (E : _extract_date_from_page known (codes "Sabado, 31 de Enero de 2026")
              = Some (codes "2026-01-31")) by (vm_compute; reflexivity).
  split; [exact lawful_known|]. split; [exact E|].
  destruct (extract_date_digits_of_text known
              (codes "Sabado, 31 de Enero de 2026") lawful_known)
    as [Hnone | (pre & rest & day & month & year & key & mm &
                 _ & _ & _ & _ & _ & He & _ & _ & Hiso)].
  - rewrite E in Hnone. discriminate Hnone.
  - rewrite E in He. injection He as He. rewrite He. apply Hiso.
    intros c Hc Hd. vm_compute in Hc.
    repeat (destruct Hc as [<- | Hc];
            [first [discriminate Hd | unfold ascii_digit; lia]|]).
    destruct Hc.
Defined.

(** *** The model of [Parsing] is this one on the texts below 256 *)

Lemma code_below c : (N_of_ascii c <? 256)%N = true.
Proof. apply N.ltb_lt. apply N_ascii_bounded. Qed.

Lemma latin1_code p c : latin1 p (N_of_ascii c) = p c.
Proof. unfold latin1. now rewrite code_below, ascii_N_embedding. Qed.

Lemma fullwidth_code c : fullwidth_digit (N_of_ascii c) = false.
Proof.
  unfold fullwidth_digit. pose proof (N_ascii_bounded c).
  destruct (65296 <=? N_of_ascii c)%N eqn:E; [|reflexivity].
  apply N.leb_le in E. lia.
Qed.

Lemma decimal_code c : decimal known (N_of_ascii c) = Text.is_digit c.
Proof. cbn. now rewrite latin1_code, fullwidth_code, orb_false_r. Qed.

Lemma space_code c : space known (N_of_ascii c) = Text.is_space c.
Proof. cbn. apply latin1_code. Qed.

Lemma word_code c : word known (N_of_ascii c) = Text.is_word c.
Proof. cbn. now rewrite latin1_code, fullwidth_code, orb_false_r. Qed.

Lemma lower_code_code c :
  lower_code (N_of_ascii c) = N_of_ascii (Text.lower_char c).
Proof. unfold lower_code. now rewrite code_below, ascii_N_embedding. Qed.

Lemma code_eqb (a b : ascii) :
  (N_of_ascii a =? N_of_ascii b)%N = Ascii.eqb a b.
Proof.
  destruct (Ascii.eqb a b) eqn:E.
  - apply Ascii.eqb_eq in E as ->. apply N.eqb_refl.
  - apply N.eqb_neq. intros H. apply Ascii.eqb_neq in E. apply E.
    rewrite <- (ascii_N_embedding a), <- (ascii_N_embedding b). now rewrite H.
Qed.

Lemma enc_inj a b : enc a = enc b -> a = b.
Proof.
  revert b. induction a as [|x a IH]; intros [|y b] H; try discriminate;
    [reflexivity|].
  cbn in H. injection H as Hx H. f_equal; [|now apply IH].
  rewrite <- (ascii_N_embedding x), <- (ascii_N_embedding y). now rewrite Hx.
Qed.

Lemma span_enc (P : N -> bool) (p : ascii -> bool) l :
  (forall c, P (N_of_ascii c) = p c) ->
  span P (enc l) =
    (enc (fst (Parsing.span p l)), enc (snd (Parsing.span p l))).
Proof.
  intros H. induction l as [|c l IH]; [reflexivity|]. cbn.
  rewrite H. destruct (p c); [|reflexivity].
  fold (enc l). rewrite IH. now destruct (Parsing.span p l).
Qed.

Lemma run1_enc (P : N -> bool) (p : ascii -> bool) l :
  (forall c, P (N_of_ascii c) = p c) ->
  run1 P (enc l) =
    option_map (fun ab => (enc (fst ab), enc (snd ab))) (Parsing.run1 p l).
Proof.
  intros H. unfold run1, Parsing.run1. rewrite (span_enc P p l H).
  destruct (Parsing.span p l) as [[|x a] b]; reflexivity.
Qed.

Lemma lit_de_enc l :
  lit_de known (enc l) = option_map enc (Parsing.lit_de l).
Proof.
  destruct l as [|d [|e l]]; try reflexivity. cbn.
  rewrite !lower_code_code.
  change 100%N with (N_of_ascii "d"). change 101%N with (N_of_ascii "e").
  rewrite !code_eqb.
  now destruct (Ascii.eqb (Text.lower_char d) "d" &&
                Ascii.eqb (Text.lower_char e) "e").
Qed.

Lemma digits12_enc l :
  digits12 known (enc l) =
    option_map (fun ab => (enc (fst ab), enc (snd ab))) (Parsing.digits12 l).
Proof.
  destruct l as [|a l]; [reflexivity|]. unfold digits12, Parsing.digits12.
  cbn [enc map]. rewrite decimal_code. destruct (Text.is_digit a); [|reflexivity].
  destruct l as [|b l]; [reflexivity|]. cbn [map]. rewrite decimal_code.
  now destruct (Text.is_digit b).
Qed.

Lemma digits4_enc l :
  digits4 known (enc l) = option_map enc (Parsing.digits4 l).
Proof.
  destruct l as [|a [|b [|c [|d l]]]]; try reflexivity.
  unfold digits4, Parsing.digits4. cbn [enc map]. rewrite !decimal_code.
  now destruct (Text.is_digit a && Text.is_digit b && Text.is_digit c
                && Text.is_digit d).
Qed.

Lemma match_date_enc l :
  match_date known (enc l) =
    option_map (fun g => (enc (fst (fst g)), enc (snd (fst g)), enc (snd g)))
               (Parsing.match_date l).
Proof.
  unfold match_date, Parsing.match_date.
  rewrite digits12_enc.
  destruct (Parsing.digits12 l) as [[day l1]|]; [|reflexivity]. cbn [option_map fst snd].
  rewrite (run1_enc _ _ l1 space_code).
  destruct (Parsing.run1 Text.is_space l1) as [[s1 l2]|]; [|reflexivity].
  cbn [option_map fst snd]. rewrite lit_de_enc.
  destruct (Parsing.lit_de l2) as [l3|]; [|reflexivity]. cbn [option_map].
  rewrite (run1_enc _ _ l3 space_code).
  destruct (Parsing.run1 Text.is_space l3) as [[s2 l4]|]; [|reflexivity].
  cbn [option_map fst snd]. rewrite (run1_enc _ _ l4 word_code).
  destruct (Parsing.run1 Text.is_word l4) as [[month l5]|]; [|reflexivity].
  cbn [option_map fst snd]. rewrite (run1_enc _ _ l5 space_code).
  destruct (Parsing.run1 Text.is_space l5) as [[s3 l6]|]; [|reflexivity].
  cbn [option_map fst snd]. rewrite lit_de_enc.
  destruct (Parsing.lit_de l6) as [l7|]; [|reflexivity]. cbn [option_map].
  rewrite (run1_enc _ _ l7 space_code).
  destruct (Parsing.run1 Text.is_space l7) as [[s4 l8]|]; [|reflexivity].
  cbn [option_map fst snd]. rewrite digits4_enc.
  now destruct (Parsing.digits4 l8).
Qed.

Lemma search_enc {G H : Type} (M : list N -> option H)
      (m : list ascii -> option G) (f : G -> H) l :
  (forall x, M (enc x) = option_map f (m x)) ->
  search M (enc l) = option_map f (Text.search m l).
Proof.
  intros Hm. induction l as [|c l IH]; cbn.
  - change (@nil N) with (enc []). rewrite Hm. now destruct (m []).
  - change (N_of_ascii c :: map N_of_ascii l) with (enc (c :: l)).
    rewrite Hm. destruct (m (c :: l)); [reflexivity | exact IH].
Qed.

Lemma dict_get_enc d k :
  dict_get d (codes k) = Parsing.dict_get d k.
Proof.
  induction d as [|[k' v] d IH]; [reflexivity|]. cbn.
  destruct (decide (codes k' = codes k)) as [E|E].
  - apply enc_inj in E.
    assert (k' = k) as -> by
      (rewrite <- (TextFacts.str_chars k'), <- (TextFacts.str_chars k);
       now rewrite E).
    now rewrite String.eqb_refl.
  - destruct (String.eqb k' k) eqn:Ek; [|exact IH].
    apply String.eqb_eq in Ek. now subst.
Qed.

Lemma zfill2_enc l : zfill2 (enc l) = enc (Text.zfill2 l).
Proof. now destruct l as [|a [|b l]]. Qed.

(** On a text of code points below 256 the two models agree. *)
Lemma extract_date_latin1 (text : string) :
  _extract_date_from_page known (codes text) =
    option_map codes (Parsing._extract_date_from_page text).
Proof.
  unfold _extract_date_from_page, Parsing._extract_date_from_page, codes.
  rewrite (search_enc _ _ _ _ match_date_enc).
  destruct (Text.search Parsing.match_date (Text.chars text))
    as [[[day month] year]|]; [|reflexivity].
  cbn [option_map fst snd known lower].
  assert (Hl : map lower_code (enc month) =
               codes (Text.str (Text.lower month))).
  { unfold codes. rewrite TextFacts.chars_str. unfold enc, Text.lower.
    rewrite !map_map. apply map_ext. apply lower_code_code. }
  rewrite Hl, dict_get_enc.
  destruct (Parsing.dict_get Parsing.months_es (Text.str (Text.lower month)))
    as [mm|]; [|reflexivity].
  cbn [option_map]. f_equal. rewrite zfill2_enc.
  rewrite !TextFacts.chars_app, !TextFacts.chars_str.
  unfold enc. now rewrite !map_app.
Qed.

End UnicodeFacts.
